(** * confreader: a shallow embedding of [confreader.h] and its properties

    The development models the plain-C variant of the reader
    ([src/confreader.h]); the class variant ([src/confreader.hpp]) has the
    same parser and the same accessors.

    Conventions of the embedding.
    - A byte is an integer ([Z]); a buffer is a [list Z] read and written by
      index, as the C code does with [confreader_fileBuf[i]].
    - The C indices ([int i], [lineIdx], ...) are natural numbers.  The
      source keeps them in an [int]; files are assumed shorter than 2^31
      bytes, so no index wraps around.
    - A pointer into the buffer is the offset it points at; a pointer into
      the parameter table is the index of the record; [NULL] is [None].
    - [malloc] returns uninitialised memory: a freshly allocated table is a
      list of empty slots ([None]); reading such a slot is undefined
      behaviour, which the accessors report as [Undefined].
    - The operating system (open/fstat/read and the allocator) is a
      [World] the parser is run against. *)

From Stdlib Require Import ZArith Lia Bool String Ascii.
From stdpp Require Import base list.

Local Open Scope Z_scope.

(** ** Bytes *)

Abbreviation byte := Z (only parsing).

Definition LF : byte := 10.          (* 0x0A *)
Definition CR : byte := 13.          (* 0x0D *)
Definition TAB : byte := 9.          (* 0x09 *)
Definition SPACE : byte := 32.       (* ' ' *)
Definition HASH : byte := 35.        (* '#' *)
Definition SEMI : byte := 59.        (* ';' *)
Definition EQUALS : byte := 61.      (* '=' *)
Definition LBRACKET : byte := 91.    (* '[' *)
Definition RBRACKET : byte := 93.    (* ']' *)
Definition MINUS : byte := 45.       (* '-' *)
Definition DOT : byte := 46.         (* '.' *)

(** [c == ' ' || c == 0x09] *)
Definition is_blank (c : byte) : bool := (c =? SPACE) || (c =? TAB).

(** [c == '=' || c == ' ' || c == 0x09] *)
Definition is_sep (c : byte) : bool := (c =? EQUALS) || (c =? SPACE) || (c =? TAB).

(** [c == '#' || c == ';'] *)
Definition is_comment (c : byte) : bool := (c =? HASH) || (c =? SEMI).

(** [!(c < '0' || c > '9')] *)
Definition is_digit (c : byte) : bool := (48 <=? c) && (c <=? 57).

(** The bytes of a string literal, to write inputs down. *)
Fixpoint bytes (s : string) : list byte :=
  match s with
  | EmptyString => []
  | String a s' => Z.of_nat (nat_of_ascii a) :: bytes s'
  end.

(** [buf[i]]; every read the parser makes is inside the buffer (the last
    byte is a terminator that stops each scan), a read outside yields 0. *)
Definition rd (buf : list byte) (i : nat) : byte := default 0 (buf !! i).

(** The C string a pointer designates: the bytes up to the first NUL. *)
Fixpoint cstring_of (l : list byte) : list byte :=
  match l with
  | [] => []
  | c :: l' => if c =? 0 then [] else c :: cstring_of l'
  end.

Definition cstr (buf : list byte) (p : nat) : list byte := cstring_of (drop p buf).

(** ** Error codes *)

Definition CONFREADER_OK : Z := 0.
Definition CONFREADER_ERROR : Z := -1.
Definition CONFREADER_EREADFILE : Z := 1.
Definition CONFREADER_EPARSINGFILE : Z := 2.
Definition CONFREADER_ENOSECT : Z := 3.
Definition CONFREADER_ENOPARAM : Z := 4.
Definition CONFREADER_EINVVAL : Z := 5.
Definition CONFREADER_EBUSY : Z := 6.
Definition CONFREADER_ENOMEM : Z := 7.

(** ** Data model *)

(** [struct confreader_param]: two pointers into the buffer. *)
Record ConfreaderParam := mkParam {
  key : nat;
  value : nat
}.

(** [struct confreader_section]: [name] is [NULL] for section 0, [params]
    points at the section's first record in the parameter table. *)
Record ConfreaderSection := mkSection {
  size : nat;
  name : option nat;
  params : option nat
}.

(** The four heap blocks the reader owns. *)
Inductive Block := BFileBuf | BLines | BParams | BSects.

Global Instance Block_eq_dec : EqDecision Block.
Proof. solve_decision. Defined.

(** The global variables of [confreader.h], and the set of blocks that were
    allocated and not yet freed (a ghost field: [malloc] adds a block,
    [free] removes it). *)
Record State := mkState {
  confreader_fileBuf : option (list byte);
  confreader_lines : option (list nat);
  confreader_lineCount : nat;
  confreader_params : option (list (option ConfreaderParam));
  confreader_paramCount : nat;
  confreaderErrorNum : Z;
  confreaderErrorLineNum : nat;
  confreaderSects : option (list (option ConfreaderSection));
  confreaderSectCount : nat;
  heap_live : list Block
}.

(** Assignments to the global variables. *)
Definition set_fileBuf (v : option (list byte)) (s : State) : State :=
  let '(mkState fb ln lc pa pc en el se sc hp) := s in
  mkState v ln lc pa pc en el se sc hp.
Definition set_lines (v : option (list nat)) (s : State) : State :=
  let '(mkState fb ln lc pa pc en el se sc hp) := s in
  mkState fb v lc pa pc en el se sc hp.
Definition set_lineCount (v : nat) (s : State) : State :=
  let '(mkState fb ln lc pa pc en el se sc hp) := s in
  mkState fb ln v pa pc en el se sc hp.
Definition set_params (v : option (list (option ConfreaderParam))) (s : State) : State :=
  let '(mkState fb ln lc pa pc en el se sc hp) := s in
  mkState fb ln lc v pc en el se sc hp.
Definition set_paramCount (v : nat) (s : State) : State :=
  let '(mkState fb ln lc pa pc en el se sc hp) := s in
  mkState fb ln lc pa v en el se sc hp.
Definition set_errorNum (v : Z) (s : State) : State :=
  let '(mkState fb ln lc pa pc en el se sc hp) := s in
  mkState fb ln lc pa pc v el se sc hp.
Definition set_errorLineNum (v : nat) (s : State) : State :=
  let '(mkState fb ln lc pa pc en el se sc hp) := s in
  mkState fb ln lc pa pc en v se sc hp.
Definition set_sects (v : option (list (option ConfreaderSection))) (s : State) : State :=
  let '(mkState fb ln lc pa pc en el se sc hp) := s in
  mkState fb ln lc pa pc en el v sc hp.
Definition set_sectCount (v : nat) (s : State) : State :=
  let '(mkState fb ln lc pa pc en el se sc hp) := s in
  mkState fb ln lc pa pc en el se v hp.
Definition set_heap (v : list Block) (s : State) : State :=
  let '(mkState fb ln lc pa pc en el se sc hp) := s in
  mkState fb ln lc pa pc en el se sc v.

(** [free(p)]: the block leaves the live set. *)
Fixpoint release (b : Block) (h : list Block) : list Block :=
  match h with
  | [] => []
  | b' :: h' => if decide (b = b') then h' else b' :: release b h'
  end.

Definition free (b : Block) (s : State) : State := set_heap (release b (heap_live s)) s.

(** ** The operating system *)

(** What [open], [fstat] and [read] do with the file name given. *)
Inductive File :=
  | OpenFails
  | FstatFails
  | ShortRead (st_size : nat)
  | Contents (content : list byte).

(** [w_malloc b] tells whether the allocation of block [b] succeeds. *)
Record World := mkWorld {
  w_file : File;
  w_malloc : Block -> bool
}.

(** [p = malloc(...)]: [None] when the allocator returns [NULL]. *)
Definition malloc (w : World) (b : Block) (s : State) : option State :=
  if w_malloc w b then Some (set_heap (b :: heap_live s) s) else None.

(** ** [confreaderInit] and [confreaderClear] *)

Definition confreaderInit (s : State) : State :=
  set_errorLineNum 0%nat
    (set_errorNum 0
      (set_fileBuf None
        (set_lines None
          (set_params None
            (set_sects None
              (set_sectCount 0%nat s)))))).

Definition confreaderClear (s : State) : State :=
  let s := set_sectCount 0%nat s in
  let s := match confreaderSects s with
           | Some _ => set_sects None (free BSects s)
           | None => s
           end in
  let s := match confreader_params s with
           | Some _ => set_params None (free BParams s)
           | None => s
           end in
  let s := match confreader_lines s with
           | Some _ => set_lines None (free BLines s)
           | None => s
           end in
  match confreader_fileBuf s with
  | Some _ => set_fileBuf None (free BFileBuf s)
  | None => s
  end.

(** The state of a program that has called [confreaderInit] and nothing
    else. *)
Definition initial_state : State :=
  mkState None None 0%nat None 0%nat 0 0%nat None 0%nat [].

(** ** [confreaderParseFile], pass 1: the line splitter *)

(** [for(i=0; i<fileBufSize; i++) if(buf[i] == 0x0A) lineCount++;] *)
Fixpoint count_lf (buf : list byte) : nat :=
  match buf with
  | [] => 0%nat
  | c :: buf' => if c =? LF then S (count_lf buf') else count_lf buf'
  end.

(** [for(; i<fileBufSize; i++) if(buf[i] != ' ' && buf[i] != 0x09) break;]
    The fuel of each scanning loop is [fileBufSize - i], the number of
    iterations the bound [i<fileBufSize] leaves. *)
Fixpoint skip_blank_from (fuel : nat) (buf : list byte) (i : nat) : nat :=
  match fuel with
  | O => i
  | S f => if is_blank (rd buf i) then skip_blank_from f buf (S i) else i
  end.

Definition skip_blank (buf : list byte) (fileBufSize i : nat) : nat :=
  skip_blank_from (fileBufSize - i) buf i.

(** The end-of-line scan of pass 1 (lines 191-209).  [EolDone buf i]: the
    loop was left (by [break], or because [i] reached the bound) with the
    buffer [buf] and the index [i]; [EolBadCr buf]: a carriage return was
    not followed by a line feed. *)
Inductive EolScan :=
  | EolDone (buf : list byte) (i : nat)
  | EolBadCr (buf : list byte).

Fixpoint scan_eol (fuel : nat) (buf : list byte) (i : nat) : EolScan :=
  match fuel with
  | O => EolDone buf i
  | S f =>
      if rd buf i =? CR then
        let buf := <[i := 0]> buf in
        let i := S i in
        if negb (rd buf i =? LF) then EolBadCr buf
        else EolDone (<[i := 0]> buf) i
      else if rd buf i =? LF then EolDone (<[i := 0]> buf) i
      else scan_eol f buf (S i)
  end.

(** The variables pass 1 works on. *)
Record Split := mkSplit {
  sp_buf : list byte;
  sp_lines : list nat;
  sp_lineIdx : nat;
  sp_paramCount : nat;
  sp_sectCount : nat
}.

Inductive SplitResult :=
  | SplitDone (s : Split)
  | SplitFail (s : Split).

(** [buf[i]] starts a parameter line for pass 1 (line 187). *)
Definition starts_param1 (c : byte) : bool :=
  negb (c =? HASH) && negb (c =? SEMI) && negb (c =? LF) && negb (c =? CR).

(** The outer loop of pass 1 (lines 174-210).  Every iteration moves [i]
    forward, so [fileBufSize] iterations are never exceeded: when the fuel
    is used up, [i] has reached [fileBufSize] and the loop is over. *)
Fixpoint split_lines (fuel fileBufSize : nat) (s : Split) (i : nat) : SplitResult :=
  match fuel with
  | O => SplitDone s
  | S f =>
      if (fileBufSize <=? i)%nat then SplitDone s
      else
        let buf := sp_buf s in
        let i := skip_blank buf fileBufSize i in
        let lines := <[sp_lineIdx s := i]> (sp_lines s) in
        let lineIdx := S (sp_lineIdx s) in
        let c := rd buf i in
        let sectCount := if c =? LBRACKET then S (sp_sectCount s) else sp_sectCount s in
        let paramCount :=
          if c =? LBRACKET then sp_paramCount s
          else if starts_param1 c then S (sp_paramCount s) else sp_paramCount s in
        match scan_eol (fileBufSize - i) buf i with
        | EolBadCr buf' => SplitFail (mkSplit buf' lines lineIdx paramCount sectCount)
        | EolDone buf' i' =>
            split_lines f fileBufSize (mkSplit buf' lines lineIdx paramCount sectCount) (S i')
        end
  end.

(** ** [confreaderParseFile], pass 2: the linker *)

(** The variables pass 2 works on. *)
Record Link := mkLink {
  lk_buf : list byte;
  lk_sects : list (option ConfreaderSection);
  lk_params : list (option ConfreaderParam);
  lk_sectIdx : nat;
  lk_paramIdx : nat
}.

(** Lines 244-255: find the closing bracket; [None] is the error return. *)
Fixpoint close_bracket (fuel : nat) (buf : list byte) (i : nat) : option (list byte * nat) :=
  match fuel with
  | O => Some (buf, i)
  | S f =>
      if rd buf i =? RBRACKET then Some (<[i := 0]> buf, S i)
      else if rd buf i =? 0 then None
      else close_bracket f buf (S i)
  end.

(** Lines 238-269: a section header, [i] the index of its ['[']. *)
Definition link_section (fileBufSize i : nat) (l : Link) : option Link :=
  let sectIdx := S (lk_sectIdx l) in
  let i := S i in
  let sects := <[sectIdx := Some (mkSection 0 (Some i) None)]> (lk_sects l) in
  match close_bracket (fileBufSize - i) (lk_buf l) i with
  | None => None
  | Some (buf, i) =>
      let i := skip_blank buf fileBufSize i in
      if negb (rd buf i =? 0) && negb (rd buf i =? HASH) && negb (rd buf i =? SEMI)
      then None
      else Some (mkLink buf sects (lk_params l) sectIdx (lk_paramIdx l))
  end.

(** Lines 280-289: the end of the parameter name. *)
Fixpoint key_end (fuel : nat) (buf : list byte) (i : nat) : option nat :=
  match fuel with
  | O => Some i
  | S f =>
      if rd buf i =? 0 then None
      else if is_sep (rd buf i) then Some i
      else key_end f buf (S i)
  end.

(** Lines 293-295. *)
Fixpoint skip_sep_from (fuel : nat) (buf : list byte) (i : nat) : nat :=
  match fuel with
  | O => i
  | S f => if is_sep (rd buf i) then skip_sep_from f buf (S i) else i
  end.

Definition skip_sep (buf : list byte) (fileBufSize i : nat) : nat :=
  skip_sep_from (fileBufSize - i) buf i.

(** Lines 306-319: the end of the value.  The loop starts on the first byte
    of the value, which is no comment marker, so [i-1] is inside the
    buffer when a marker is met. *)
Fixpoint value_end (fuel : nat) (buf : list byte) (i : nat) : option nat :=
  match fuel with
  | O => Some i
  | S f =>
      if rd buf i =? 0 then Some i
      else if is_comment (rd buf i) then
        if negb (is_blank (rd buf (i - 1))) then None else Some i
      else value_end f buf (S i)
  end.

(** Lines 322-326: [for(--i; i>=0; i--) if(buf[i] is not blank) break;]
    followed by [++i]; the result is the index the terminator is written
    at. *)
Fixpoint trim_back (buf : list byte) (i : nat) : nat :=
  match i with
  | O => O
  | S j => if is_blank (rd buf j) then trim_back buf j else S j
  end.

(** An assignment to fields of [confreaderSects[idx]]; the record was
    initialised when its section was opened. *)
Definition update_sect (f : ConfreaderSection -> ConfreaderSection) (idx : nat)
    (sects : list (option ConfreaderSection)) : list (option ConfreaderSection) :=
  match sects !! idx with
  | Some (Some s) => <[idx := Some (f s)]> sects
  | _ => sects
  end.

(** [if(sect.params == NULL) sect.params = &confreader_params[paramIdx];] *)
Definition first_param (paramIdx : nat) (s : ConfreaderSection) : ConfreaderSection :=
  match params s with
  | None => mkSection (size s) (name s) (Some paramIdx)
  | Some _ => s
  end.

(** [sect.size++] *)
Definition grow (s : ConfreaderSection) : ConfreaderSection :=
  mkSection (S (size s)) (name s) (params s).

(** Lines 271-330: a parameter line starting at [i].  The two fields of
    the parameter record are stored together here, where the source stores
    [value]; [key] is stored at line 272, and every return between the two
    frees the table. *)
Definition link_param (fileBufSize i : nat) (l : Link) : option Link :=
  let keyp := i in
  let sects := update_sect (first_param (lk_paramIdx l)) (lk_sectIdx l) (lk_sects l) in
  match key_end (fileBufSize - i) (lk_buf l) i with
  | None => None
  | Some i =>
      let buf := <[i := 0]> (lk_buf l) in
      let i := S i in
      let i := skip_sep buf fileBufSize i in
      if (rd buf i =? 0) || is_comment (rd buf i) then None
      else
        let valp := i in
        match value_end (fileBufSize - i) buf i with
        | None => None
        | Some i =>
            let i := trim_back buf i in
            let buf := <[i := 0]> buf in
            Some (mkLink buf
                    (update_sect grow (lk_sectIdx l) sects)
                    (<[lk_paramIdx l := Some (mkParam keyp valp)]> (lk_params l))
                    (lk_sectIdx l)
                    (S (lk_paramIdx l)))
        end
  end.

(** The body of the linking loop for the line that starts at [i]. *)
Definition link_line (fileBufSize i : nat) (l : Link) : option Link :=
  let c := rd (lk_buf l) i in
  if c =? LBRACKET then link_section fileBufSize i l
  else if negb (c =? HASH) && negb (c =? SEMI) && negb (c =? 0)
       then link_param fileBufSize i l
       else Some l.

(** Lines 235-331: [inr n] is the error return at line [n] of the file.
    The fuel is [confreader_lineCount - lineIdx]. *)
Fixpoint link_lines (fuel fileBufSize paramCount : nat) (lines : list nat)
    (lineIdx : nat) (l : Link) : Link + nat :=
  match fuel with
  | O => inl l
  | S f =>
      if (paramCount <=? lk_paramIdx l)%nat then inl l
      else
        match link_line fileBufSize (default 0%nat (lines !! lineIdx)) l with
        | None => inr (lineIdx + 1)%nat
        | Some l' => link_lines f fileBufSize paramCount lines (S lineIdx) l'
        end
  end.

(** ** [confreaderParseFile] *)

(** [confreaderErrorNum = code; return CONFREADER_ERROR;] *)
Definition fail_with (code : Z) (s : State) : Z * State :=
  (CONFREADER_ERROR, set_errorNum code s).

(** [confreaderClear(); confreaderErrorLineNum = line;
    confreaderErrorNum = CONFREADER_EPARSINGFILE; return CONFREADER_ERROR;] *)
Definition parse_error (line : nat) (s : State) : Z * State :=
  fail_with CONFREADER_EPARSINGFILE (set_errorLineNum line (confreaderClear s)).

(** Lines 212-336, entered with the split buffer. *)
Definition link_buffer (w : World) (fileBufSize : nat) (sp : Split) (s : State) : Z * State :=
  let s := set_fileBuf (Some (sp_buf sp))
             (set_lines (Some (sp_lines sp))
               (set_paramCount (sp_paramCount sp)
                 (set_sectCount (sp_sectCount sp) s))) in
  match malloc w BParams s with
  | None => fail_with CONFREADER_ENOMEM (confreaderClear s)
  | Some s =>
      let s := set_params (Some (replicate (sp_paramCount sp) None)) s in
      match malloc w BSects s with
      | None => fail_with CONFREADER_ENOMEM (confreaderClear s)
      | Some s =>
          let sects := <[0%nat := Some (mkSection 0 None None)]>
                         (replicate (sp_sectCount sp) None) in
          let s := set_sects (Some sects) s in
          let l := mkLink (sp_buf sp) sects (replicate (sp_paramCount sp) None) 0 0 in
          match link_lines (confreader_lineCount s) fileBufSize (sp_paramCount sp)
                  (sp_lines sp) 0 l with
          | inr line => parse_error line s
          | inl l =>
              let s := set_fileBuf (Some (lk_buf l))
                         (set_sects (Some (lk_sects l))
                           (set_params (Some (lk_params l)) s)) in
              (CONFREADER_OK,
               set_errorNum CONFREADER_OK (set_lines None (free BLines s)))
          end
      end
  end.

(** Lines 152-210, entered with the buffer that holds the file and the
    synthetic line feed. *)
Definition split_buffer (w : World) (buf : list byte) (s : State) : Z * State :=
  let fileBufSize := length buf in
  let s := set_lineCount (count_lf buf) (set_fileBuf (Some buf) s) in
  match malloc w BLines s with
  | None => fail_with CONFREADER_ENOMEM (confreaderClear s)
  | Some s =>
      let lines := replicate (confreader_lineCount s) 0%nat in
      let s := set_lines (Some lines) s in
      match split_lines fileBufSize fileBufSize (mkSplit buf lines 0 0 1) 0 with
      | SplitFail sp =>
          parse_error (sp_lineIdx sp)
            (set_fileBuf (Some (sp_buf sp))
              (set_lines (Some (sp_lines sp))
                (set_paramCount (sp_paramCount sp)
                  (set_sectCount (sp_sectCount sp) s))))
      | SplitDone sp => link_buffer w fileBufSize sp s
      end
  end.

Definition confreaderParseFile (w : World) (s : State) : Z * State :=
  let s := set_errorLineNum 0%nat s in
  match confreader_fileBuf s with
  | Some _ => fail_with CONFREADER_EBUSY s
  | None =>
      let s := confreaderInit s in
      match w_file w with
      | OpenFails => fail_with CONFREADER_EREADFILE s
      | FstatFails => fail_with CONFREADER_EREADFILE s
      | ShortRead st_size =>
          if (st_size =? 0)%nat then (CONFREADER_OK, set_errorNum CONFREADER_OK s)
          else
            match malloc w BFileBuf s with
            | None => fail_with CONFREADER_ENOMEM s
            | Some s => fail_with CONFREADER_EREADFILE (set_fileBuf None (free BFileBuf s))
            end
      | Contents content =>
          if (length content =? 0)%nat then (CONFREADER_OK, set_errorNum CONFREADER_OK s)
          else
            match malloc w BFileBuf s with
            | None => fail_with CONFREADER_ENOMEM s
            | Some s => split_buffer w (content ++ [LF]) s
            end
      end
  end.

(** ** Lookup *)

(** The result of an accessor: a value, or undefined behaviour (a read of
    uninitialised memory or through a null pointer). *)
Inductive Answer (A : Type) :=
  | Defined (a : A)
  | Undefined.
Arguments Defined {A} a.
Arguments Undefined {A}.

(** [tolower] in the C locale. *)
Definition tolower (c : byte) : byte :=
  if (65 <=? c) && (c <=? 90) then c + 32 else c.

(** [strcasecmp(a, b) == 0] on two C strings. *)
Fixpoint strcasecmp_eq (a b : list byte) : bool :=
  match a, b with
  | [], [] => true
  | x :: a', y :: b' => (tolower x =? tolower y) && strcasecmp_eq a' b'
  | _, _ => false
  end.

(** [for(j=0; j<sect.size; j++) if(strcasecmp(key, sect.params[j].key) == 0)
    return sect.params[j].value;] with [n] iterations left; [Defined None]
    when the loop ends without a match. *)
Fixpoint find_param (buf : list byte) (table : list (option ConfreaderParam))
    (k : list byte) (base : option nat) (n j : nat) : Answer (option nat) :=
  match n with
  | O => Defined None
  | S n' =>
      match base with
      | None => Undefined
      | Some b =>
          match table !! (b + j)%nat with
          | Some (Some p) =>
              if strcasecmp_eq k (cstr buf (key p)) then Defined (Some (value p))
              else find_param buf table k base n' (S j)
          | _ => Undefined
          end
      end
  end.

(** [for(i=1; i<confreaderSectCount; i++) if(strcasecmp(section,
    confreaderSects[i].name) == 0) ...] with [n] iterations left: the first
    section whose name matches. *)
Fixpoint find_sect (buf : list byte) (sects : list (option ConfreaderSection))
    (sec : list byte) (n i : nat) : Answer (option ConfreaderSection) :=
  match n with
  | O => Defined None
  | S n' =>
      match sects !! i with
      | Some (Some s) =>
          match name s with
          | Some p =>
              if strcasecmp_eq sec (cstr buf p) then Defined (Some s)
              else find_sect buf sects sec n' (S i)
          | None => Undefined
          end
      | _ => Undefined
      end
  end.

(** The search of [confreaderFind] in a loaded document. *)
Definition find_value (buf : list byte) (s : State) (k : list byte)
    (section : option (list byte)) : Answer (option nat) :=
  match confreaderSects s, confreader_params s with
  | Some sects, Some table =>
      match section with
      | None =>
          match sects !! 0%nat with
          | Some (Some s0) => find_param buf table k (params s0) (size s0) 0
          | _ => Undefined
          end
      | Some sec =>
          match find_sect buf sects sec (confreaderSectCount s - 1) 1 with
          | Undefined => Undefined
          | Defined None => Defined None
          | Defined (Some si) => find_param buf table k (params si) (size si) 0
          end
      end
  | _, _ => Undefined
  end.

(** [confreaderFind]: the value pointer, or [None] for [NULL]. *)
Definition confreaderFind (k : list byte) (section : option (list byte)) (s : State)
    : Answer (option nat) * State :=
  match confreader_fileBuf s with
  | None => (Defined None, set_errorNum CONFREADER_ENOPARAM s)
  | Some buf =>
      match find_value buf s k section with
      | Undefined => (Undefined, s)
      | Defined (Some v) => (Defined (Some v), set_errorNum CONFREADER_OK s)
      | Defined None => (Defined None, set_errorNum CONFREADER_ENOPARAM s)
      end
  end.

(** The loop of [confreaderHasSection]. *)
Definition has_sect (s : State) (sec : list byte) : Answer bool :=
  match (confreaderSectCount s - 1)%nat with
  | O => Defined false
  | S _ as n =>
      match confreader_fileBuf s, confreaderSects s with
      | Some buf, Some sects =>
          match find_sect buf sects sec n 1 with
          | Undefined => Undefined
          | Defined None => Defined false
          | Defined (Some _) => Defined true
          end
      | _, _ => Undefined
      end
  end.

Definition confreaderHasSection (sec : list byte) (s : State) : Answer bool * State :=
  match has_sect s sec with
  | Undefined => (Undefined, s)
  | Defined true => (Defined true, s)
  | Defined false => (Defined false, set_errorNum CONFREADER_ENOSECT s)
  end.

Definition confreaderHas (k : list byte) (section : option (list byte)) (s : State)
    : Answer bool * State :=
  match confreaderFind k section s with
  | (Defined (Some _), s') => (Defined true, s')
  | (Defined None, s') => (Defined false, s')
  | (Undefined, s') => (Undefined, s')
  end.

(** The string a value pointer of the state designates. *)
Definition string_at (s : State) (p : nat) : list byte :=
  match confreader_fileBuf s with
  | Some buf => cstr buf p
  | None => []
  end.

(** [val[k]] for a C string: the terminator past its end. *)
Definition char_at (val : list byte) (k : nat) : byte := default 0 (val !! k).

Definition confreaderGetChar (k : list byte) (section : option (list byte))
    (defaultValue : byte) (s : State) : Answer byte * State :=
  match confreaderFind k section s with
  | (Defined (Some v), s') => (Defined (char_at (string_at s v) 0), s')
  | (Defined None, s') => (Defined defaultValue, s')
  | (Undefined, s') => (Undefined, s')
  end.

Definition confreaderGetString (k : list byte) (section : option (list byte))
    (defaultValue : list byte) (s : State) : Answer (list byte) * State :=
  match confreaderFind k section s with
  | (Defined (Some v), s') => (Defined (string_at s v), s')
  | (Defined None, s') => (Defined defaultValue, s')
  | (Undefined, s') => (Undefined, s')
  end.

(** ** Typed accessors *)

(** [for(k=1; val[k]!=0; k++) if(val[k] < '0' || val[k] > '9') return ...;]
    on the bytes from [val[1]] on: [true] when the loop finds no offending
    byte. *)
Fixpoint digits_only (l : list byte) : bool :=
  match l with
  | [] => true
  | c :: l' => if negb (is_digit c) then false else digits_only l'
  end.

(** The check [confreaderGetInt] makes before it converts. *)
Definition int_check (val : list byte) : bool :=
  if negb (is_digit (char_at val 0)) && negb (char_at val 0 =? MINUS) then false
  else digits_only (tail val).

(** [strtol(val, NULL, 10)] with a 64-bit [long]: leading white space, an
    optional sign, the longest run of digits (0 when there is none), the
    result clamped to the range of [long]. *)
Definition isspace (c : byte) : bool := (c =? 32) || ((9 <=? c) && (c <=? 13)).

Fixpoint decimal (acc : Z) (l : list byte) : Z :=
  match l with
  | [] => acc
  | c :: l' => if is_digit c then decimal (10 * acc + (c - 48)) l' else acc
  end.

Fixpoint skip_space (l : list byte) : list byte :=
  match l with
  | [] => []
  | c :: l' => if isspace c then skip_space l' else l
  end.

Definition LONG_MAX : Z := 2 ^ 63 - 1.
Definition LONG_MIN : Z := - 2 ^ 63.

Definition clamp_long (z : Z) : Z := Z.max LONG_MIN (Z.min LONG_MAX z).

Definition strtol (val : list byte) : Z :=
  clamp_long
    match skip_space val with
    | [] => 0
    | c :: r =>
        if c =? MINUS then - decimal 0 r
        else if c =? 43 then decimal 0 r
        else decimal 0 (c :: r)
    end.

(** The conversion of the [long] result to the [int] returned (32 bits,
    two's complement). *)
Definition int_of_long (z : Z) : Z := (z + 2 ^ 31) mod 2 ^ 32 - 2 ^ 31.

Definition confreaderGetInt (k : list byte) (section : option (list byte))
    (defaultValue : Z) (s : State) : Answer Z * State :=
  match confreaderFind k section s with
  | (Defined (Some v), s') =>
      let val := string_at s v in
      if int_check val then (Defined (int_of_long (strtol val)), s')
      else (Defined defaultValue, set_errorNum CONFREADER_EINVVAL s')
  | (Defined None, s') => (Defined defaultValue, s')
  | (Undefined, s') => (Undefined, s')
  end.

(** [for(k=1; val[k]!=0; k++) if((val[k] < '0' || val[k] > '9') &&
    val[k] != '.') return ...;] *)
Fixpoint digits_dots_only (l : list byte) : bool :=
  match l with
  | [] => true
  | c :: l' => if negb (is_digit c) && negb (c =? DOT) then false else digits_dots_only l'
  end.

(** The check [confreaderGetDouble] makes before it converts. *)
Definition double_check (val : list byte) : bool :=
  if negb (is_digit (char_at val 0)) && negb (char_at val 0 =? MINUS) then false
  else digits_dots_only (tail val).

Section GetDouble.
(** The type [double] and the library function [strtod] are taken as
    given. *)
Variable double : Type.
Variable strtod : list byte -> double.

Definition confreaderGetDouble (k : list byte) (section : option (list byte))
    (defaultValue : double) (s : State) : Answer double * State :=
  match confreaderFind k section s with
  | (Defined (Some v), s') =>
      let val := string_at s v in
      if double_check val then (Defined (strtod val), s')
      else (Defined defaultValue, set_errorNum CONFREADER_EINVVAL s')
  | (Defined None, s') => (Defined defaultValue, s')
  | (Undefined, s') => (Undefined, s')
  end.
End GetDouble.

Definition confreaderGetBool (k : list byte) (section : option (list byte))
    (defaultValue : Z) (s : State) : Answer Z * State :=
  match confreaderFind k section s with
  | (Defined (Some v), s') =>
      let val := string_at s v in
      if strcasecmp_eq val (bytes "yes") || strcasecmp_eq val (bytes "true")
         || ((char_at val 0 =? 49) && (char_at val 1 =? 0))
      then (Defined 1, s')
      else if strcasecmp_eq val (bytes "no") || strcasecmp_eq val (bytes "false")
              || ((char_at val 0 =? 48) && (char_at val 1 =? 0))
      then (Defined 0, s')
      else (Defined defaultValue, set_errorNum CONFREADER_EINVVAL s')
  | (Defined None, s') => (Defined defaultValue, s')
  | (Undefined, s') => (Undefined, s')
  end.

(** ** Running the reader on a file *)

(** A world in which the file holds [content] and every allocation
    succeeds. *)
Definition world_of (content : list byte) : World :=
  mkWorld (Contents content) (fun _ => true).

(** The document a fresh reader holds after parsing [content]. *)
Definition load (content : list byte) : State :=
  snd (confreaderParseFile (world_of content) initial_state).

(** ** Vocabulary of the properties *)

(** The size [fstat] reports, when the file can be opened and examined. *)
Definition st_size_of (f : File) : option nat :=
  match f with
  | OpenFails | FstatFails => None
  | ShortRead n => Some n
  | Contents content => Some (length content)
  end.

(** The state has no buffer, no table and no live block: the state
    [confreaderInit] establishes, the error fields apart. *)
Definition pristine (s : State) : Prop :=
  confreader_fileBuf s = None /\ confreader_lines s = None /\
  confreader_params s = None /\ confreaderSects s = None /\
  confreaderSectCount s = 0%nat.

(** The grammar [-?[0-9]+] of the specification of [getInt]. *)
Definition spec_int_grammar (val : list byte) : bool :=
  match val with
  | [] => false
  | c :: r =>
      if c =? MINUS then negb (length r =? 0)%nat && forallb is_digit r
      else forallb is_digit val
  end.

(** The character class of the specification of [getDouble]: only digits,
    ['.'] and an optional leading minus. *)
Definition spec_double_class (val : list byte) : bool :=
  match val with
  | [] => true
  | c :: r =>
      if c =? MINUS then forallb (fun x => is_digit x || (x =? DOT)) r
      else forallb (fun x => is_digit x || (x =? DOT)) val
  end.

(** The class [confreaderGetDouble] accepts: a digit or a minus, then
    digits and dots. *)
Definition double_accepted (val : list byte) : Prop :=
  exists c r, val = c :: r /\ (is_digit c = true \/ c = MINUS) /\
              Forall (fun x => is_digit x = true \/ x = DOT) r.

(** ** Lines of the input, as the specification describes them *)

(** The longest prefix of [l] whose bytes satisfy [p], and what follows it. *)
Fixpoint span_while (p : byte -> bool) (l : list byte) : list byte :=
  match l with
  | [] => []
  | c :: l' => if p c then c :: span_while p l' else []
  end.

Fixpoint skip_while (p : byte -> bool) (l : list byte) : list byte :=
  match l with
  | [] => []
  | c :: l' => if p c then skip_while p l' else l
  end.

(** The physical lines that end in a line feed, without that line feed, and
    the bytes after the last line feed. *)
Fixpoint split_lf (l : list byte) : list (list byte) * list byte :=
  match l with
  | [] => ([], [])
  | c :: l' =>
      let (ls, r) := split_lf l' in
      if c =? LF then ([] :: ls, r)
      else match ls with
           | [] => ([], c :: r)
           | x :: xs => ((c :: x) :: xs, r)
           end
  end.

(** The lines of a file: its bytes and the line feed the loader appends,
    cut at the line feeds. *)
Definition raw_lines (content : list byte) : list (list byte) :=
  fst (split_lf (content ++ [LF])).

(** The bytes a list of lines stands for. *)
Definition flat (ls : list (list byte)) : list byte :=
  concat (map (fun l => l ++ [LF]) ls).

(** What pass 1 leaves of a byte: line ends become terminators. *)
Definition nul_eol (c : byte) : byte :=
  if (c =? CR) || (c =? LF) then 0 else c.

(** Every carriage return of [l] is followed by a line feed. *)
Fixpoint crlf_ok (l : list byte) : bool :=
  match l with
  | [] => true
  | c :: l' =>
      if c =? CR then
        match l' with
        | d :: _ => (d =? LF) && crlf_ok l'
        | [] => false
        end
      else crlf_ok l'
  end.

(** The offsets at which the lines [ls] start (their first byte that is no
    blank), for lines laid out from offset [off] on. *)
Fixpoint line_starts (off : nat) (ls : list (list byte)) : list nat :=
  match ls with
  | [] => []
  | l :: ls' =>
      (off + length (span_while is_blank l))%nat
      :: line_starts (off + length l + 1) ls'
  end.

(** The first byte of a line after its leading blanks ([LF] for an empty
    line, as in the buffer). *)
Definition first_byte (l : list byte) : byte :=
  match skip_while is_blank l with
  | [] => LF
  | c :: _ => c
  end.

(** The counts pass 1 keeps: the headers, and the lines it takes for
    parameter lines. *)
Definition bump_sects (l : list byte) (n : nat) : nat :=
  if first_byte l =? LBRACKET then S n else n.

Definition bump_params1 (l : list byte) (n : nat) : nat :=
  if first_byte l =? LBRACKET then n
  else if starts_param1 (first_byte l) then S n else n.

Fixpoint count_sects (n : nat) (ls : list (list byte)) : nat :=
  match ls with
  | [] => n
  | l :: ls' => count_sects (bump_sects l n) ls'
  end.

Fixpoint count_params1 (n : nat) (ls : list (list byte)) : nat :=
  match ls with
  | [] => n
  | l :: ls' => count_params1 (bump_params1 l n) ls'
  end.

Definition not_eol (c : byte) : bool := negb (c =? CR) && negb (c =? LF).

(** A line without a line feed whose only carriage return, if any, is its
    last byte. *)
Definition lf_free (l : list byte) : bool := forallb (fun c => negb (c =? LF)) l.

Definition line_ok (l : list byte) : bool := lf_free l && crlf_ok (l ++ [LF]).

(** ** Parameter lines and headers, as the specification describes them *)

(** A byte of a key: no separator. *)
Definition is_keych (c : byte) : bool := negb (is_sep c).

(** A byte of a section name: no closing bracket. *)
Definition not_rbracket (c : byte) : bool := negb (c =? RBRACKET).

(** [l] without its trailing blanks. *)
Fixpoint trim_right (l : list byte) : list byte :=
  match l with
  | [] => []
  | c :: l' =>
      match trim_right l' with
      | [] => if is_blank c then [] else [c]
      | r => c :: r
      end
  end.

(** The bytes of [l] up to the first comment marker that follows a blank;
    [prev] is the byte before [l]. *)
Fixpoint upto_comment (prev : byte) (l : list byte) : list byte :=
  match l with
  | [] => []
  | c :: l' => if is_comment c && is_blank prev then [] else c :: upto_comment c l'
  end.

(** A line without its leading blanks and its line end. *)
Definition line_content (l : list byte) : list byte :=
  span_while not_eol (skip_while is_blank l).

(** The key of a parameter line [t]: its bytes up to the first separator. *)
Definition spec_key (t : list byte) : list byte := span_while is_keych t.

(** The value of a parameter line [t]: what lies between the run of
    separators after the key and the next comment marker that follows a
    blank, or the end of the line, without trailing blanks. *)
Definition spec_value (t : list byte) : list byte :=
  let after_key := skip_while is_keych t in
  trim_right (upto_comment (List.last (span_while is_sep after_key) SPACE)
                (skip_while is_sep after_key)).

(** The name of a header line ['[' :: t]. *)
Definition spec_name (t : list byte) : list byte := span_while not_rbracket t.

(** A section of the document: its name ([None] for the parameters before
    the first header) and its parameters in file order. *)
Abbreviation SpecSection := (option (list byte) * list (list byte * list byte))%type.

(** The sections closed so far and the section that is open, after one more
    line. *)
Definition add_line (d : list SpecSection * SpecSection) (t : list byte)
    : list SpecSection * SpecSection :=
  match t with
  | [] => d
  | c :: t' =>
      if c =? LBRACKET then (fst d ++ [snd d], (Some (spec_name t'), []))
      else if is_comment c then d
      else (fst d, (fst (snd d), snd (snd d) ++ [(spec_key t, spec_value t)]))
  end.

Definition close_doc (d : list SpecSection * SpecSection) : list SpecSection :=
  fst d ++ [snd d].

(** The document a file describes. *)
Definition spec_doc (content : list byte) : list SpecSection :=
  close_doc (fold_left add_line (map line_content (raw_lines content)) ([], (None, []))).

(** First match in file order, keys and names compared without case. *)
Fixpoint lookup_key (k : list byte) (es : list (list byte * list byte)) : option (list byte) :=
  match es with
  | [] => None
  | (k', v) :: es' => if strcasecmp_eq k k' then Some v else lookup_key k es'
  end.

Fixpoint lookup_sect (sec : list byte) (ds : list SpecSection) : option SpecSection :=
  match ds with
  | [] => None
  | (Some n, es) :: ds' => if strcasecmp_eq sec n then Some (Some n, es) else lookup_sect sec ds'
  | (None, _) :: ds' => lookup_sect sec ds'
  end.

Definition spec_find (doc : list SpecSection) (k : list byte) (section : option (list byte))
    : option (list byte) :=
  match section with
  | None => match doc with
            | (_, es) :: _ => lookup_key k es
            | [] => None
            end
  | Some sec => match lookup_sect sec (tail doc) with
                | Some (_, es) => lookup_key k es
                | None => None
                end
  end.

(** A value as the linker leaves it: not empty, and neither its first nor
    its last byte is a blank or a comment marker. *)
Definition plain (c : byte) : bool := negb (is_blank c) && negb (is_comment c) && negb (c =? 0).

Definition good_value (v : list byte) : Prop :=
  v <> [] /\ plain (hd 0 v) = true /\ plain (List.last v 0) = true.

(** ** The linker on the text of a line *)

(** The length of the value region: up to the terminator or a comment
    marker after a blank; [None] when a comment marker follows another
    byte. *)
Fixpoint scan_value (prev : byte) (l : list byte) : option nat :=
  match l with
  | [] => Some 0%nat
  | c :: l' =>
      if is_comment c then (if is_blank prev then Some 0%nat else None)
      else option_map S (scan_value c l')
  end.

(** What [link_param] makes of the text [t] of a parameter line: the key
    and the value, or [None] for a parse error. *)
Definition parse_param (t : list byte) : option (list byte * list byte) :=
  match skip_while is_keych t with
  | [] => None
  | _ :: r =>
      let v := skip_while is_sep r in
      match v with
      | [] => None
      | c :: _ =>
          if is_comment c then None
          else match scan_value 0 v with
               | None => None
               | Some n => Some (span_while is_keych t, trim_right (take n v))
               end
      end
  end.

(** What [link_section] makes of the text after the opening bracket: the
    name, or [None] for a parse error. *)
Definition parse_header (t : list byte) : option (list byte) :=
  match skip_while not_rbracket t with
  | [] => None
  | _ :: r =>
      match skip_while is_blank r with
      | [] => Some (span_while not_rbracket t)
      | c :: _ => if is_comment c then Some (span_while not_rbracket t) else None
      end
  end.

(** The text pass 2 finds at the start of a line: the line after its
    leading blanks, as pass 1 terminated it. *)
Definition line_text (l : list byte) : list byte :=
  cstring_of (map nul_eol (skip_while is_blank l)).

(** The bytes of a line after pass 1. *)
Definition seg (l : list byte) : list byte := map nul_eol l ++ [0].

Definition nul_free (l : list byte) : Prop := Forall (fun c => c <> 0) l.

(** What the linker makes of one more line with text [t], on the sections
    closed so far and the open one; [None] for a parse error. *)
Definition link_text (d : list SpecSection * SpecSection) (t : list byte)
    : option (list SpecSection * SpecSection) :=
  match t with
  | [] => Some d
  | c :: t' =>
      if c =? LBRACKET then
        match parse_header t' with
        | Some nm => Some (fst d ++ [snd d], (Some nm, []))
        | None => None
        end
      else if is_comment c then Some d
      else
        match parse_param t with
        | Some e => Some (fst d, (fst (snd d), snd (snd d) ++ [e]))
        | None => None
        end
  end.

Fixpoint link_texts (d : list SpecSection * SpecSection) (ts : list (list byte))
    : option (list SpecSection * SpecSection) :=
  match ts with
  | [] => Some d
  | t :: ts' =>
      match link_text d t with
      | Some d' => link_texts d' ts'
      | None => None
      end
  end.

(** The text of a parameter line. *)
Definition is_param_text (t : list byte) : bool :=
  match t with
  | [] => false
  | c :: _ => negb (c =? LBRACKET) && negb (is_comment c)
  end.

(** The text of a header line. *)
Definition is_header_text (t : list byte) : bool :=
  match t with
  | [] => false
  | c :: _ => c =? LBRACKET
  end.

(** ** The tables as a representation of a document *)

(** The pointer [p] designates the string [s] in every buffer that starts
    with [P]. *)
Definition reads (P : list byte) (p : nat) (s : list byte) : Prop :=
  forall X, cstr (P ++ X) p = s.

Definition name_rep (P : list byte) (np : option nat) (nm : option (list byte)) : Prop :=
  match np, nm with
  | None, None => True
  | Some p, Some n => reads P p n
  | _, _ => False
  end.

Definition entry_rep (P : list byte) (slot : option (option ConfreaderParam))
    (e : list byte * list byte) : Prop :=
  exists p, slot = Some (Some p) /\ reads P (key p) (fst e) /\ reads P (value p) (snd e).

Definition sect_rep (P : list byte) (table : list (option ConfreaderParam)) (base : nat)
    (slot : option (option ConfreaderSection)) (sec : SpecSection) : Prop :=
  exists s, slot = Some (Some s) /\
    size s = length (snd sec) /\
    name_rep P (name s) (fst sec) /\
    params s = match snd sec with [] => None | _ => Some base end /\
    forall j e, snd sec !! j = Some e -> entry_rep P (table !! (base + j)%nat) e.

(** The number of parameters of a list of sections. *)
Definition total (doc : list SpecSection) : nat := length (concat (map snd doc)).

Definition doc_rep (P : list byte) (sects : list (option ConfreaderSection))
    (table : list (option ConfreaderParam)) (doc : list SpecSection) : Prop :=
  forall i sec, doc !! i = Some sec ->
    sect_rep P table (total (take i doc)) (sects !! i) sec.

(** The variables of pass 2 represent the sections [d] in every buffer that
    starts with [P]. *)
Definition Rep (l : Link) (d : list SpecSection * SpecSection) (P : list byte) : Prop :=
  lk_sectIdx l = length (fst d) /\
  lk_paramIdx l = total (close_doc d) /\
  doc_rep P (lk_sects l) (lk_params l) (close_doc d) /\
  (forall j p, lk_params l !! j = Some (Some p) -> (j < lk_paramIdx l)%nat).

(** Every section but the first has a name. *)
Definition named_tail (doc : list SpecSection) : Prop :=
  Forall (fun sec : SpecSection => fst sec <> None) (tail doc).

(** Every value of the document is a [good_value]. *)
Definition good_doc (doc : list SpecSection) : Prop :=
  Forall (fun sec : SpecSection =>
            Forall (fun e : list byte * list byte => good_value (snd e)) (snd sec)) doc.

(** The number of parameter lines among the texts [ts]. *)
Fixpoint count_param_texts (ts : list (list byte)) : nat :=
  match ts with
  | [] => 0%nat
  | t :: ts' => ((if is_param_text t then 1 else 0) + count_param_texts ts')%nat
  end.

(** [b'] is [b] with some bytes overwritten by terminators. *)
Definition zeroed (b b' : list byte) : Prop :=
  length b' = length b /\ forall i, rd b' i = rd b i \/ rd b' i = 0.

(** The number a string of decimal digits denotes. *)
Definition digits_value (ds : list byte) : Z :=
  fold_left (fun acc c => 10 * acc + (c - 48)) ds 0.

(** The truth value a text denotes: the words are compared without case. *)
Definition bool_of_text (val : list byte) : option Z :=
  if bool_decide (map tolower val = bytes "yes") || bool_decide (map tolower val = bytes "true")
     || bool_decide (val = bytes "1") then Some 1
  else if bool_decide (map tolower val = bytes "no")
          || bool_decide (map tolower val = bytes "false")
          || bool_decide (val = bytes "0") then Some 0
  else None.

(** A value without the minus sign it may start with. *)
Definition unsigned_part (val : list byte) : list byte :=
  match val with
  | c :: r => if c =? MINUS then r else val
  | [] => []
  end.

(** The linking loop on the texts of the lines: it stops once [pc]
    parameter lines are linked; [inr n] when it rejects line [n]. *)
Fixpoint link_run (pc : nat) (d : list SpecSection * SpecSection) (pidx lineno : nat)
    (ts : list (list byte)) : (list SpecSection * SpecSection) + nat :=
  match ts with
  | [] => inl d
  | t :: ts' =>
      if (pc <=? pidx)%nat then inl d
      else match link_text d t with
           | None => inr (S lineno)
           | Some d' =>
               link_run pc d' (if is_param_text t then S pidx else pidx) (S lineno) ts'
           end
  end.

(** The linker rejects the text [t] of a line: a header without a closing
    bracket or with something else than a comment after it, or a parameter
    line without a separator after the key, without a value, or with a
    comment marker right after a byte of the value that is not a blank. *)
Definition rejected (t : list byte) : bool :=
  match t with
  | [] => false
  | c :: t' =>
      if c =? LBRACKET then match parse_header t' with Some _ => false | None => true end
      else if is_comment c then false
      else match parse_param t with Some _ => false | None => true end
  end.

(** Every parameter of the document satisfies [Q]. *)
Definition entries_all (Q : list byte * list byte -> Prop) (doc : list SpecSection) : Prop :=
  Forall (fun sec : SpecSection => Forall Q (snd sec)) doc.
(** * Properties *)

(** ** Basic facts about the state *)

Ltac unfold_setters :=
  unfold fail_with, parse_error, confreaderInit, confreaderClear, malloc, free,
    set_fileBuf, set_lines, set_lineCount, set_params, set_paramCount,
    set_errorNum, set_errorLineNum, set_sects, set_sectCount, set_heap in *;
  simpl in *.

Lemma release_head b h : release b (b :: h) = h.
Proof. simpl. destruct (decide (b = b)); congruence. Qed.

(** ** The empty file *)

(** C7: parsing a zero-byte file returns OK; the document has no section,
    [hasSection] is false for every name and [find] without a section
    reports [NoSuchParameter] and returns [NULL] for every key. *)
Theorem empty_file_parses (w : World) (s : State) :
  st_size_of (w_file w) = Some 0%nat ->
  confreader_fileBuf s = None ->
  let r := confreaderParseFile w s in
  fst r = CONFREADER_OK /\
  confreaderErrorNum (snd r) = CONFREADER_OK /\
  confreaderSectCount (snd r) = 0%nat /\
  (forall sec, confreaderHasSection sec (snd r)
               = (Defined false, set_errorNum CONFREADER_ENOSECT (snd r))) /\
  (forall k, confreaderFind k None (snd r)
             = (Defined None, set_errorNum CONFREADER_ENOPARAM (snd r))).
Proof.
  intros Hsz Hbuf r. subst r. unfold confreaderParseFile.
  destruct s as [fb ln lc pa pc en el se sc hp]. simpl in Hbuf. subst fb. simpl.
  destruct (w_file w) as [| |n|content]; simpl in Hsz; try discriminate.
  - injection Hsz as ->. simpl. auto.
  - injection Hsz as Hlen. rewrite Hlen. simpl. auto.
Qed.

Lemma empty_file_parses_witness :
  let r := confreaderParseFile (world_of []) initial_state in
  fst r = CONFREADER_OK /\
  confreaderErrorNum (snd r) = CONFREADER_OK /\
  confreaderSectCount (snd r) = 0%nat /\
  (forall sec, confreaderHasSection sec (snd r)
               = (Defined false, set_errorNum CONFREADER_ENOSECT (snd r))) /\
  (forall k, confreaderFind k None (snd r)
             = (Defined None, set_errorNum CONFREADER_ENOPARAM (snd r))).
Proof. apply (empty_file_parses (world_of []) initial_state); vm_compute; reflexivity. Defined.

(** ** The outcomes of [confreaderParseFile] *)

Lemma parse_busy (w : World) (s : State) (b : list byte) :
  confreader_fileBuf s = Some b ->
  confreaderParseFile w s
  = (CONFREADER_ERROR, set_errorNum CONFREADER_EBUSY (set_errorLineNum 0 s)).
Proof.
  intros H. unfold confreaderParseFile.
  destruct s as [fb ln lc pa pc en el se sc hp]. simpl in H. subst fb. reflexivity.
Qed.

(** A call on a reader that holds no buffer either succeeds or fails with
    one of the three load errors, and then leaves nothing behind. *)
Definition loaded (s : State) : Prop :=
  is_Some (confreader_fileBuf s) /\ is_Some (confreaderSects s) /\
  is_Some (confreader_params s) /\ confreader_lines s = None.

Definition load_error (e : Z) : Prop :=
  e = CONFREADER_EREADFILE \/ e = CONFREADER_EPARSINGFILE \/ e = CONFREADER_ENOMEM.

Lemma parse_outcome (w : World) (s : State) :
  confreader_fileBuf s = None ->
  let r := confreaderParseFile w s in
  (fst r = CONFREADER_OK /\ confreaderErrorNum (snd r) = CONFREADER_OK /\
   ((st_size_of (w_file w) = Some 0%nat /\ pristine (snd r)) \/
    (st_size_of (w_file w) <> Some 0%nat /\ loaded (snd r))))
  \/
  (fst r = CONFREADER_ERROR /\ load_error (confreaderErrorNum (snd r)) /\
   pristine (snd r) /\ heap_live (snd r) = heap_live s).
Proof.
  intros Hbuf r. assert (Hr : r = confreaderParseFile w s) by reflexivity.
  clearbody r. unfold confreaderParseFile in Hr.
  destruct s as [fb ln lc pa pc en el se sc hp]. simpl in Hbuf. subst fb.
  simpl in Hr.
  unfold load_error, pristine, loaded.
  destruct (w_file w) as [| |n|content] eqn:Hfile; simpl st_size_of.
  - right. subst r. simpl. tauto.
  - right. subst r. simpl. tauto.
  - destruct n as [|n]; simpl Nat.eqb in Hr; cbv iota in Hr.
    + left. subst r. simpl. tauto.
    + right. unfold malloc in Hr. destruct (w_malloc w BFileBuf); subst r; simpl; tauto.
  - destruct content as [|c content]; simpl length in *; simpl Nat.eqb in Hr; cbv iota in Hr.
    + left. subst r. simpl. tauto.
    + unfold malloc in Hr. destruct (w_malloc w BFileBuf); [|right; subst r; simpl; tauto].
      unfold split_buffer, malloc in Hr.
      destruct (w_malloc w BLines); [|right; subst r; simpl; tauto].
      match type of Hr with context [split_lines ?a ?b ?c ?d] =>
        destruct (split_lines a b c d) as [sp|sp] end;
        [|right; subst r; simpl; tauto].
      unfold link_buffer, malloc in Hr.
      destruct (w_malloc w BParams); [|right; subst r; simpl; tauto].
      destruct (w_malloc w BSects); [|right; subst r; simpl; tauto].
      match type of Hr with context [link_lines ?a ?b ?c ?d ?e ?f] =>
        destruct (link_lines a b c d e f) as [l|line] end.
      * left. subst r. simpl. repeat split; try (right; repeat split); eauto; discriminate.
      * right. subst r. simpl. tauto.
Qed.

(** ** Failure and reload *)

(** C3: when [confreaderParseFile], called on a reader that holds no
    document, returns an error, the error is a read, parse or memory error,
    the buffer, the line array and both tables are null again, every block
    the call allocated has been freed, the state is the one
    [confreaderInit] sets up (the error fields apart), and a further load
    is not rejected as busy. *)
Theorem parse_failure_releases_everything (w : World) (s : State) :
  let r := confreaderParseFile w s in
  confreader_fileBuf s = None ->
  fst r = CONFREADER_ERROR ->
  load_error (confreaderErrorNum (snd r)) /\
  pristine (snd r) /\
  heap_live (snd r) = heap_live s /\
  confreaderInit (snd r) = set_errorLineNum 0 (set_errorNum 0 (snd r)) /\
  (forall w', confreaderErrorNum (snd (confreaderParseFile w' (snd r)))
              <> CONFREADER_EBUSY).
Proof.
  intros r Hbuf Herr.
  destruct (parse_outcome w s Hbuf) as [[Hok _]|(_ & Hkind & Hp & Hh)].
  - fold r in Hok. rewrite Hok in Herr. discriminate.
  - fold r in Hkind, Hp, Hh. split; [exact Hkind|]. split; [exact Hp|].
    split; [exact Hh|].
    destruct Hp as (H1 & H2 & H3 & H4 & H5). split.
    + destruct (snd r); simpl in *. subst. reflexivity.
    + intros w'.
      destruct (parse_outcome w' (snd r) H1) as [(_ & E & _)|(_ & E & _)].
      * rewrite E. discriminate.
      * intros E'. rewrite E' in E. destruct E as [E|[E|E]]; discriminate E.
Qed.

Lemma parse_failure_releases_everything_witness :
  let w := world_of (bytes "a = 1" ++ [LF] ++ bytes "[net" ++ [LF] ++ bytes "b = 2") in
  let r := confreaderParseFile w initial_state in
  load_error (confreaderErrorNum (snd r)) /\
  pristine (snd r) /\
  heap_live (snd r) = heap_live initial_state /\
  confreaderInit (snd r) = set_errorLineNum 0 (set_errorNum 0 (snd r)) /\
  (forall w', confreaderErrorNum (snd (confreaderParseFile w' (snd r)))
              <> CONFREADER_EBUSY).
Proof.
  apply (parse_failure_releases_everything
           (world_of (bytes "a = 1" ++ [LF] ++ bytes "[net" ++ [LF] ++ bytes "b = 2"))
           initial_state).
  - reflexivity.
  - vm_compute. reflexivity.
Defined.

(** C6, as stated, fails for the zero-byte file: its parse succeeds and
    leaves no buffer behind, so the next load is accepted and replaces the
    (empty) document. *)
Lemma reparse_after_empty_file_accepted :
  let r1 := confreaderParseFile (world_of []) initial_state in
  let r2 := confreaderParseFile (world_of (bytes "A=1")) (snd r1) in
  fst r1 = CONFREADER_OK /\
  fst r2 = CONFREADER_OK /\
  confreaderErrorNum (snd r2) <> CONFREADER_EBUSY /\
  confreaderSectCount (snd r1) = 0%nat /\
  confreaderSectCount (snd r2) = 1%nat /\
  confreaderSects (snd r2) <> confreaderSects (snd r1).
Proof. vm_compute. repeat split; discriminate. Qed.

(** C6, amended: after a successful parse of a file that is not empty, a
    second [confreaderParseFile] before [confreaderClear] is rejected with
    [CONFREADER_EBUSY]; it changes the two error fields and nothing else,
    so the buffer, the sections and the parameters are untouched.  After
    the successful parse of a zero-byte file the reader holds no buffer and
    no table, and a second [confreaderParseFile] is accepted: it is not
    rejected with [CONFREADER_EBUSY]. *)
Theorem reparse_rejected_busy (w w' : World) (s : State) :
  fst (confreaderParseFile w s) = CONFREADER_OK ->
  let s1 := snd (confreaderParseFile w s) in
  let r2 := confreaderParseFile w' s1 in
  (st_size_of (w_file w) <> Some 0%nat ->
   r2 = (CONFREADER_ERROR, set_errorNum CONFREADER_EBUSY (set_errorLineNum 0 s1)) /\
   confreader_fileBuf (snd r2) = confreader_fileBuf s1 /\
   confreaderSects (snd r2) = confreaderSects s1 /\
   confreaderSectCount (snd r2) = confreaderSectCount s1 /\
   confreader_params (snd r2) = confreader_params s1) /\
  (st_size_of (w_file w) = Some 0%nat ->
   confreader_fileBuf s1 = None /\
   pristine s1 /\
   confreaderErrorNum (snd r2) <> CONFREADER_EBUSY /\
   (fst r2 = CONFREADER_ERROR -> load_error (confreaderErrorNum (snd r2)))).
Proof.
  intros Hok s1 r2.
  assert (Hbuf : confreader_fileBuf s = None).
  { destruct (confreader_fileBuf s) as [b|] eqn:Hbuf; [|reflexivity].
    rewrite (parse_busy w s b Hbuf) in Hok. discriminate. }
  split.
  - intros Hsz.
    assert (Hb : is_Some (confreader_fileBuf s1)).
    { destruct (parse_outcome w s Hbuf) as [(_ & _ & [[H _]|[_ H]])|[H _]].
      + contradiction.
      + apply H.
      + rewrite H in Hok. discriminate. }
    destruct Hb as [b Hb]. subst r2. rewrite (parse_busy w' s1 b Hb).
    destruct s1. simpl. auto.
  - intros Hsz.
    assert (Hp : pristine s1).
    { destruct (parse_outcome w s Hbuf) as [(_ & _ & [[_ H]|[H _]])|[H _]].
      + exact H.
      + contradiction.
      + rewrite H in Hok. discriminate. }
    pose proof Hp as (H1 & _).
    split; [exact H1|]. split; [exact Hp|].
    subst r2.
    destruct (parse_outcome w' s1 H1) as [(Ho & E & _)|(_ & E & _)].
    + split; [rewrite E; discriminate|].
      intros He. rewrite Ho in He. discriminate.
    + split; [|intros _; exact E].
      intros E'. rewrite E' in E. destruct E as [E|[E|E]]; discriminate E.
Qed.

Lemma reparse_rejected_busy_witness :
  (let w := world_of (bytes "A=1") in
   let s1 := snd (confreaderParseFile w initial_state) in
   let r2 := confreaderParseFile w s1 in
   r2 = (CONFREADER_ERROR, set_errorNum CONFREADER_EBUSY (set_errorLineNum 0 s1)) /\
   confreader_fileBuf (snd r2) = confreader_fileBuf s1 /\
   confreaderSects (snd r2) = confreaderSects s1 /\
   confreaderSectCount (snd r2) = confreaderSectCount s1 /\
   confreader_params (snd r2) = confreader_params s1) /\
  (let s1 := snd (confreaderParseFile (world_of []) initial_state) in
   let r2 := confreaderParseFile (world_of (bytes "A=1")) s1 in
   confreader_fileBuf s1 = None /\
   pristine s1 /\
   confreaderErrorNum (snd r2) <> CONFREADER_EBUSY /\
   (fst r2 = CONFREADER_ERROR -> load_error (confreaderErrorNum (snd r2)))).
Proof.
  split.
  - apply (proj1 (reparse_rejected_busy (world_of (bytes "A=1")) (world_of (bytes "A=1"))
                    initial_state ltac:(vm_compute; reflexivity))).
    vm_compute. discriminate.
  - apply (proj2 (reparse_rejected_busy (world_of []) (world_of (bytes "A=1"))
                    initial_state ltac:(vm_compute; reflexivity))).
    vm_compute. reflexivity.
Defined.

(** ** Sections after the last parameter *)

(** C2 (defect in the code): the linking loop of [confreaderParseFile] also
    stops when [paramIdx] reaches [confreader_paramCount], so a header that
    follows the last parameter line is counted by pass 1 but never linked:
    its record stays uninitialised, its name is not terminated, and
    [confreaderHasSection] reads the uninitialised record. *)
Theorem trailing_section_not_linked :
  let input := bytes "A=1" ++ [LF] ++ bytes "[B]" ++ [LF] in
  let r := confreaderParseFile (world_of input) initial_state in
  fst r = CONFREADER_OK /\
  confreaderSectCount (snd r) = 2%nat /\
  (exists sects, confreaderSects (snd r) = Some sects /\ sects !! 1%nat = Some None) /\
  string_at (snd r) 5 = bytes "B]" /\
  fst (confreaderHasSection (bytes "B") (snd r)) = Undefined /\
  fst (confreaderHasSection (bytes "B") (snd r)) <> Defined true.
Proof.
  vm_compute. repeat split; try discriminate.
  eexists. split; reflexivity.
Qed.

(** ** [confreaderGetInt] *)

(** C4 (defect in the code): a value that is a lone minus sign has no digit
    and does not match [-?[0-9]+], yet [confreaderGetInt] lets it through
    its check and returns what [strtol] makes of it, 0, without reporting
    [CONFREADER_EINVVAL]. *)
Theorem getInt_accepts_lone_minus :
  let s := load (bytes "A=-" ++ [LF]) in
  let r := confreaderGetInt (bytes "A") None 7 s in
  fst (confreaderGetString (bytes "A") None [] s) = Defined (bytes "-") /\
  spec_int_grammar (bytes "-") = false /\
  fst r = Defined 0 /\
  confreaderErrorNum (snd r) = CONFREADER_OK.
Proof. vm_compute. repeat split. Qed.

Lemma digits_only_forallb (l : list byte) : digits_only l = forallb is_digit l.
Proof. induction l as [|c l IH]; simpl; [reflexivity|]. destruct (is_digit c); simpl; auto. Qed.

(** Apart from the lone minus sign, the check of [confreaderGetInt] is the
    grammar [-?[0-9]+]. *)
Lemma int_check_grammar (val : list byte) :
  int_check val = spec_int_grammar val || (if val is [c] then c =? MINUS else false).
Proof.
  unfold int_check, spec_int_grammar, char_at.
  destruct val as [|c r]; simpl; [reflexivity|].
  rewrite digits_only_forallb.
  destruct (c =? MINUS) eqn:E.
  - apply Z.eqb_eq in E. subst c. simpl.
    destruct r as [|d r]; simpl; [reflexivity|].
    now rewrite orb_false_r.
  - destruct (is_digit c), r; simpl; rewrite ?orb_false_r; reflexivity.
Qed.

(** ** Keys *)

(** C8 (defect in the code): a line whose first byte is ['='] is linked as
    a parameter; the scan for the end of the key stops on its first byte,
    which is overwritten with the terminator, so the stored key is the
    empty string.  The sibling check for a missing value has no
    counterpart for a missing key. *)
Theorem key_empty_when_line_starts_with_equals :
  let r := confreaderParseFile (world_of (bytes "=5" ++ [LF])) initial_state in
  fst r = CONFREADER_OK /\
  confreader_params (snd r) = Some [Some (mkParam 0 1)] /\
  string_at (snd r) 0 = [] /\
  string_at (snd r) 1 = bytes "5" /\
  fst (confreaderFind [] None (snd r)) = Defined (Some 1%nat).
Proof. vm_compute. repeat split. Qed.

(** ** [confreaderGetDouble] *)

(** C5, as stated, fails: [".5"] consists of a dot and a digit only, yet
    the first byte of a value must be a digit or a minus, so
    [confreaderGetDouble] reports [CONFREADER_EINVVAL] and returns the
    default (here with the value string itself standing for the [double]
    that [strtod] would return). *)
Lemma getDouble_rejects_leading_dot :
  let s := load (bytes "X=.5" ++ [LF]) in
  let r := confreaderGetDouble (list byte) (fun val => val) (bytes "X") None (bytes "default") s in
  fst (confreaderGetString (bytes "X") None [] s) = Defined (bytes ".5") /\
  spec_double_class (bytes ".5") = true /\
  fst r = Defined (bytes "default") /\
  confreaderErrorNum (snd r) = CONFREADER_EINVVAL.
Proof. vm_compute. repeat split. Qed.

Section GetDoubleProperties.
Variable double : Type.
Variable strtod : list byte -> double.

Lemma digits_dots_only_Forall (l : list byte) :
  digits_dots_only l = true <-> Forall (fun x => is_digit x = true \/ x = DOT) l.
Proof.
  induction l as [|c l IH]; simpl.
  - split; auto.
  - destruct (is_digit c) eqn:Ed; simpl.
    + rewrite IH. split; intros H.
      * constructor; auto.
      * now inversion H.
    + destruct (c =? DOT) eqn:Ec; simpl.
      * apply Z.eqb_eq in Ec. rewrite IH. split; intros H.
        -- constructor; auto.
        -- now inversion H.
      * apply Z.eqb_neq in Ec. split; [discriminate|].
        intros H. inversion H as [|? ? [H1|H1] H2]; subst; congruence.
Qed.

Lemma double_check_accepted (val : list byte) :
  double_check val = true <-> double_accepted val.
Proof.
  unfold double_check, double_accepted, char_at.
  destruct val as [|c r]; simpl.
  - split; [discriminate|]. intros (c & r & H & _). discriminate.
  - destruct (is_digit c) eqn:Ed; simpl.
    + rewrite digits_dots_only_Forall. split.
      * intros H. exists c, r. auto.
      * intros (c' & r' & [= <- <-] & _ & H). exact H.
    + destruct (c =? MINUS) eqn:Em; simpl.
      * apply Z.eqb_eq in Em. rewrite digits_dots_only_Forall. split.
        -- intros H. exists c, r. auto.
        -- intros (c' & r' & [= <- <-] & _ & H). exact H.
      * apply Z.eqb_neq in Em. split; [discriminate|].
        intros (c' & r' & [= <- <-] & [H|H] & _); congruence.
Qed.

(** C5, amended: when [confreaderFind] succeeds, [confreaderGetDouble]
    converts the value with [strtod] if and only if its first byte is a
    digit or a minus and every later byte is a digit or a dot (so
    ["3.14.5"] is converted and [".5"] is not); for every other value it
    reports [CONFREADER_EINVVAL] and returns the default. *)
Theorem getDouble_converts_iff_accepted (k : list byte) (section : option (list byte))
    (defaultValue : double) (s s' : State) (v : nat) :
  confreaderFind k section s = (Defined (Some v), s') ->
  (double_accepted (string_at s v) ->
     confreaderGetDouble double strtod k section defaultValue s
     = (Defined (strtod (string_at s v)), s')) /\
  (~ double_accepted (string_at s v) ->
     confreaderGetDouble double strtod k section defaultValue s
     = (Defined defaultValue, set_errorNum CONFREADER_EINVVAL s')) /\
  double_accepted (bytes "3.14.5") /\ ~ double_accepted (bytes ".5").
Proof.
  intros Hfind. unfold confreaderGetDouble. rewrite Hfind.
  repeat split.
  - intros H. apply double_check_accepted in H. now rewrite H.
  - intros H. destruct (double_check (string_at s v)) eqn:E; [|reflexivity].
    apply double_check_accepted in E. contradiction.
  - apply double_check_accepted. reflexivity.
  - intros H. apply double_check_accepted in H. discriminate.
Qed.
End GetDoubleProperties.

Lemma getDouble_converts_iff_accepted_witness :
  let s := load (bytes "X = 3.14.5" ++ [LF]) in
  let r := confreaderFind (bytes "X") None s in
  (double_accepted (string_at s 4) ->
     confreaderGetDouble (list byte) (fun val => val) (bytes "X") None [] s
     = (Defined (string_at s 4), snd r)) /\
  (~ double_accepted (string_at s 4) ->
     confreaderGetDouble (list byte) (fun val => val) (bytes "X") None [] s
     = (Defined [], set_errorNum CONFREADER_EINVVAL (snd r))) /\
  double_accepted (bytes "3.14.5") /\ ~ double_accepted (bytes ".5").
Proof.
  apply (getDouble_converts_iff_accepted (list byte) (fun val => val)
           (bytes "X") None [] (load (bytes "X = 3.14.5" ++ [LF]))).
  vm_compute. reflexivity.
Defined.

(** ** Reading and writing a buffer laid out as a concatenation *)

Ltac norm_app := repeat (rewrite <- app_assoc || (progress (cbn [app]))).

Lemma rd_middle (P R : list byte) (c : byte) : rd (P ++ c :: R) (length P) = c.
Proof. unfold rd. now rewrite list_lookup_middle. Qed.

Lemma rd_app_r (P l : list byte) (j : nat) : rd (P ++ l) (length P + j) = rd l j.
Proof.
  unfold rd. rewrite lookup_app_r by lia.
  now replace (length P + j - length P)%nat with j by lia.
Qed.

Lemma rd_end (P : list byte) : rd P (length P) = 0.
Proof. unfold rd. now rewrite lookup_ge_None_2. Qed.

Lemma insert_middle {A} (P R : list A) (c x : A) :
  <[length P := x]> (P ++ c :: R) = P ++ x :: R.
Proof.
  rewrite insert_app_r_alt by lia. now rewrite Nat.sub_diag.
Qed.

Lemma snoc_app {A} (P : list A) (c : A) (l : list A) : P ++ c :: l = (P ++ [c]) ++ l.
Proof. now rewrite <- app_assoc. Qed.

Lemma length_snoc {A} (P : list A) (c : A) : length (P ++ [c]) = S (length P).
Proof. rewrite length_app. simpl. lia. Qed.

Lemma span_skip (p : byte -> bool) (l : list byte) : span_while p l ++ skip_while p l = l.
Proof. induction l as [|c l IH]; simpl; [reflexivity|]. destruct (p c); simpl; congruence. Qed.

Lemma span_all (p : byte -> bool) (l : list byte) : Forall (fun c => p c = true) (span_while p l).
Proof. induction l as [|c l IH]; simpl; [constructor|]. destruct (p c) eqn:E; auto. Qed.

Lemma skip_head (p : byte -> bool) (l : list byte) (c : byte) (r : list byte) :
  skip_while p l = c :: r -> p c = false.
Proof.
  induction l as [|d l IH]; simpl; [discriminate|].
  destruct (p d) eqn:E; [exact IH|]. intros [= <- <-]. exact E.
Qed.

(** ** The scanning loops of pass 1 *)

Lemma skip_blank_from_spec (ws : list byte) (P R : list byte) (fuel : nat) :
  Forall (fun c => is_blank c = true) ws ->
  is_blank (hd 0 R) = false ->
  (length ws <= fuel)%nat ->
  skip_blank_from fuel (P ++ ws ++ R) (length P) = (length P + length ws)%nat.
Proof.
  revert P fuel. induction ws as [|c ws IH]; intros P fuel Hws HR Hfuel.
  - simpl. rewrite Nat.add_0_r. destruct fuel; [reflexivity|]. simpl.
    destruct R as [|d R]; simpl in *.
    + rewrite app_nil_r, rd_end. reflexivity.
    + rewrite rd_middle, HR. reflexivity.
  - inversion Hws as [|? ? Hc Hws']; subst. destruct fuel; [simpl in Hfuel; lia|].
    simpl. rewrite rd_middle, Hc.
    rewrite (snoc_app P c), <- (length_snoc P c). rewrite IH; auto.
    + rewrite length_snoc. lia.
    + simpl in Hfuel. lia.
Qed.


Lemma scan_eol_lf (body P R : list byte) (fuel : nat) :
  Forall (fun c => not_eol c = true) body ->
  (length body < fuel)%nat ->
  scan_eol fuel (P ++ body ++ LF :: R) (length P)
  = EolDone (P ++ body ++ 0 :: R) (length P + length body).
Proof.
  revert P fuel. induction body as [|c body IH]; intros P fuel Hb Hfuel.
  - destruct fuel; [lia|]. simpl. rewrite rd_middle. simpl.
    now rewrite insert_middle, Nat.add_0_r.
  - inversion Hb as [|? ? Hc Hb']; subst. destruct fuel; [lia|].
    simpl. rewrite rd_middle.
    unfold not_eol in Hc. apply andb_true_iff in Hc as [H1 H2].
    apply negb_true_iff in H1, H2. rewrite H1, H2.
    rewrite (snoc_app P c), <- (length_snoc P c), IH; auto.
    + rewrite length_snoc, <- !app_assoc. simpl. f_equal. lia.
    + simpl in Hfuel. lia.
Qed.

Lemma scan_eol_crlf (body P R : list byte) (fuel : nat) :
  Forall (fun c => not_eol c = true) body ->
  (length body < fuel)%nat ->
  scan_eol fuel (P ++ body ++ CR :: LF :: R) (length P)
  = EolDone (P ++ body ++ 0 :: 0 :: R) (length P + length body + 1).
Proof.
  revert P fuel. induction body as [|c body IH]; intros P fuel Hb Hfuel.
  - destruct fuel; [lia|]. simpl. rewrite rd_middle. simpl.
    rewrite insert_middle.
    replace (P ++ 0 :: LF :: R) with ((P ++ [0]) ++ LF :: R) by now rewrite <- app_assoc.
    rewrite <- (length_snoc P 0), rd_middle. simpl. rewrite insert_middle.
    rewrite length_snoc, <- app_assoc. simpl. f_equal. lia.
  - inversion Hb as [|? ? Hc Hb']; subst. destruct fuel; [lia|].
    simpl. rewrite rd_middle.
    unfold not_eol in Hc. apply andb_true_iff in Hc as [H1 H2].
    apply negb_true_iff in H1, H2. rewrite H1, H2.
    rewrite (snoc_app P c), <- (length_snoc P c), IH; auto.
    + rewrite length_snoc, <- !app_assoc. simpl. f_equal. lia.
    + simpl in Hfuel. lia.
Qed.

Lemma scan_eol_bad (body P R : list byte) (fuel : nat) :
  Forall (fun c => not_eol c = true) body ->
  hd 0 R <> LF ->
  (length body < fuel)%nat ->
  scan_eol fuel (P ++ body ++ CR :: R) (length P)
  = EolBadCr (P ++ body ++ 0 :: R).
Proof.
  revert P fuel. induction body as [|c body IH]; intros P fuel Hb HR Hfuel.
  - destruct fuel; [lia|]. simpl. rewrite rd_middle. simpl.
    rewrite insert_middle.
    assert (E : (rd (P ++ 0 :: R) (S (length P)) =? LF) = false).
    { apply Z.eqb_neq. replace (P ++ 0 :: R) with ((P ++ [0]) ++ R) by now rewrite <- app_assoc.
      rewrite <- (length_snoc P 0). destruct R as [|d R]; simpl in HR.
      - rewrite app_nil_r, rd_end. discriminate.
      - now rewrite rd_middle. }
    now rewrite E.
  - inversion Hb as [|? ? Hc Hb']; subst. destruct fuel; [lia|].
    simpl. rewrite rd_middle.
    unfold not_eol in Hc. apply andb_true_iff in Hc as [H1 H2].
    apply negb_true_iff in H1, H2. rewrite H1, H2.
    rewrite (snoc_app P c), <- (length_snoc P c), IH; auto.
    + rewrite <- !app_assoc. reflexivity.
    + simpl in Hfuel. lia.
Qed.

(** ** One line of pass 1 *)

(** The shape of a well-terminated line: after its blanks, bytes that end no
    line, then nothing or the carriage return of a CR LF pair. *)
Lemma crlf_ok_body (body R : list byte) :
  Forall (fun c => not_eol c = true) body -> crlf_ok (body ++ R) = crlf_ok R.
Proof.
  induction 1 as [|c body Hc _ IH]; simpl; [reflexivity|].
  unfold not_eol in Hc. apply andb_true_iff in Hc as [H1 _].
  apply negb_true_iff in H1. now rewrite H1.
Qed.

Lemma crlf_ok_blanks (ws R : list byte) :
  Forall (fun c => is_blank c = true) ws -> crlf_ok (ws ++ R) = crlf_ok R.
Proof.
  induction 1 as [|c ws Hc _ IH]; simpl; [reflexivity|].
  assert (E : (c =? CR) = false).
  { unfold is_blank, SPACE, TAB, CR in *. apply Z.eqb_neq.
    apply orb_true_iff in Hc as [H|H]; apply Z.eqb_eq in H; lia. }
  now rewrite E.
Qed.

Lemma map_nul_eol_body (body : list byte) :
  Forall (fun c => not_eol c = true) body -> map nul_eol body = body.
Proof.
  induction 1 as [|c body Hc _ IH]; simpl; [reflexivity|].
  rewrite IH. unfold nul_eol. unfold not_eol in Hc.
  apply andb_true_iff in Hc as [H1 H2]. apply negb_true_iff in H1, H2.
  now rewrite H1, H2.
Qed.

Lemma blank_not_eol (c : byte) : is_blank c = true -> not_eol c = true.
Proof.
  unfold is_blank, not_eol, SPACE, TAB, CR, LF. intros H.
  apply orb_true_iff in H as [H|H]; apply Z.eqb_eq in H; subst; reflexivity.
Qed.

Lemma map_nul_eol_blanks (ws : list byte) :
  Forall (fun c => is_blank c = true) ws -> map nul_eol ws = ws.
Proof.
  intros H. apply map_nul_eol_body. eapply Forall_impl; [exact H|].
  intros c. apply blank_not_eol.
Qed.

Lemma skip_not_eol_shape (t : list byte) :
  forallb (fun c => negb (c =? LF)) t = true ->
  crlf_ok (t ++ [LF]) = true ->
  skip_while not_eol t = [] \/ skip_while not_eol t = [CR].
Proof.
  intros Hlf Hok.
  rewrite <- (span_skip not_eol t) in Hlf, Hok.
  pose proof (span_all not_eol t) as Hb.
  rewrite forallb_app in Hlf. apply andb_true_iff in Hlf as [_ Hlf].
  rewrite <- app_assoc, crlf_ok_body in Hok by exact Hb.
  destruct (skip_while not_eol t) as [|c r] eqn:E; [now left|right].
  pose proof (skip_head _ _ _ _ E) as Hc.
  simpl in Hlf. apply andb_true_iff in Hlf as [Hc1 Hr].
  assert (c = CR) as ->.
  { unfold not_eol in Hc. destruct (c =? CR) eqn:E1; [now apply Z.eqb_eq in E1|].
    simpl in Hc. rewrite Hc1 in Hc. discriminate. }
  simpl in Hok. destruct r as [|d r]; [reflexivity|].
  simpl in Hok, Hr. apply andb_true_iff in Hr as [Hd _].
  apply andb_true_iff in Hok as [Hd' _]. rewrite Hd' in Hd. discriminate.
Qed.

Lemma hd_first_byte (l T : list byte) :
  hd 0 (skip_while is_blank l ++ LF :: T) = first_byte l.
Proof. unfold first_byte. now destruct (skip_while is_blank l). Qed.

Lemma first_byte_not_blank (l : list byte) : is_blank (first_byte l) = false.
Proof.
  unfold first_byte. destruct (skip_while is_blank l) eqn:E; [reflexivity|].
  eapply skip_head; eauto.
Qed.

Lemma split_lines_step (fuel fsize : nat) (P l T : list byte) (lines : list nat)
    (lineIdx pc sc : nat) :
  line_ok l = true ->
  fsize = length (P ++ l ++ LF :: T) ->
  split_lines (S fuel) fsize (mkSplit (P ++ l ++ LF :: T) lines lineIdx pc sc) (length P)
  = split_lines fuel fsize
      (mkSplit (P ++ map nul_eol (l ++ [LF]) ++ T)
         (<[lineIdx := (length P + length (span_while is_blank l))%nat]> lines)
         (S lineIdx) (bump_params1 l pc) (bump_sects l sc))
      (length P + length l + 1).
Proof.
  intros Hok Hsize.
  unfold line_ok, lf_free in Hok. apply andb_true_iff in Hok as [Hlf Hcr].
  set (ws := span_while is_blank l). set (t := skip_while is_blank l).
  assert (Hl : l = ws ++ t) by (symmetry; apply span_skip).
  assert (Hws : Forall (fun c => is_blank c = true) ws) by apply span_all.
  assert (Hlen : length l = (length ws + length t)%nat) by (rewrite Hl, length_app; lia).
  rewrite !length_app in Hsize. simpl in Hsize.
  cbn [split_lines sp_buf sp_lines sp_lineIdx sp_paramCount sp_sectCount].
  replace (fsize <=? length P)%nat with false by (symmetry; apply Nat.leb_gt; lia).
  assert (Hskip : skip_blank (P ++ l ++ LF :: T) fsize (length P) = (length P + length ws)%nat).
  { unfold skip_blank. rewrite Hl, <- app_assoc.
    apply skip_blank_from_spec; auto.
    - fold t. unfold t. rewrite hd_first_byte. apply first_byte_not_blank.
    - lia. }
  rewrite Hskip.
  assert (Hbuf : P ++ l ++ LF :: T = (P ++ ws) ++ t ++ LF :: T).
  { rewrite Hl at 1. rewrite <- !app_assoc. reflexivity. }
  assert (Hrd : rd (P ++ l ++ LF :: T) (length P + length ws) = first_byte l).
  { rewrite Hbuf, <- length_app.
    rewrite <- (hd_first_byte l T). fold t.
    destruct t; simpl; now rewrite rd_middle. }
  rewrite Hrd. fold (bump_sects l sc). fold (bump_params1 l pc).
  assert (Ht1 : forallb (fun c => negb (c =? LF)) t = true).
  { rewrite Hl, forallb_app in Hlf. now apply andb_true_iff in Hlf as [_ ?]. }
  assert (Ht2 : crlf_ok (t ++ [LF]) = true).
  { rewrite Hl, <- app_assoc, crlf_ok_blanks in Hcr; auto. }
  pose proof (span_all not_eol t) as Hbody.
  pose proof (span_skip not_eol t) as Hspan.
  set (body := span_while not_eol t) in *.
  rewrite Hbuf, <- length_app.
  assert (Hmap : map nul_eol (l ++ [LF]) = ws ++ map nul_eol t ++ [0]).
  { rewrite Hl at 1. rewrite !map_app, map_nul_eol_blanks by auto.
    rewrite <- app_assoc. reflexivity. }
  rewrite Hmap.
  destruct (skip_not_eol_shape t Ht1 Ht2) as [E|E]; rewrite E in Hspan.
  - rewrite app_nil_r in Hspan. rewrite <- Hspan.
    rewrite scan_eol_lf; auto; [|rewrite Hspan, length_app; lia].
    f_equal.
    + f_equal. rewrite map_nul_eol_body by auto.
      rewrite <- !app_assoc. reflexivity.
    + rewrite Hspan, length_app. lia.
  - assert (Ht : length t = (length body + 1)%nat)
      by (rewrite <- Hspan, length_app; simpl; lia).
    replace (t ++ LF :: T) with (body ++ CR :: LF :: T)
      by (rewrite <- Hspan, <- app_assoc; reflexivity).
    rewrite scan_eol_crlf; auto; [|rewrite length_app; lia].
    f_equal.
    + f_equal. rewrite <- Hspan, map_app, map_nul_eol_body by auto.
      simpl. rewrite <- !app_assoc. reflexivity.
    + rewrite length_app. lia.
Qed.

(** ** All lines of pass 1 *)

Lemma flat_cons (l : list byte) (ls : list (list byte)) :
  flat (l :: ls) = l ++ LF :: flat ls.
Proof. unfold flat. simpl. now rewrite <- app_assoc. Qed.

Lemma length_map_nul_eol (l : list byte) : length (map nul_eol l) = length l.
Proof. apply length_map. Qed.

(** Pass 1 over the well-terminated lines [ls], with [T] still to come. *)
Lemma split_lines_lines (ls : list (list byte)) :
  forall (fuel fsize : nat) (P T : list byte) (done todo : list nat) (pc sc : nat),
  forallb line_ok ls = true ->
  fsize = length (P ++ flat ls ++ T) ->
  (length ls <= length todo)%nat ->
  split_lines (length ls + fuel) fsize
    (mkSplit (P ++ flat ls ++ T) (done ++ todo) (length done) pc sc) (length P)
  = split_lines fuel fsize
      (mkSplit (P ++ map nul_eol (flat ls) ++ T)
         (done ++ line_starts (length P) ls ++ drop (length ls) todo)
         (length done + length ls) (count_params1 pc ls) (count_sects sc ls))
      (length P + length (flat ls)).
Proof.
  induction ls as [|l ls IH]; intros fuel fsize P T done todo pc sc Hok Hsize Htodo.
  - simpl. rewrite !Nat.add_0_r. reflexivity.
  - simpl in Hok. apply andb_true_iff in Hok as [Hl Hls].
    destruct todo as [|x todo]; [simpl in Htodo; lia|].
    rewrite flat_cons in *. rewrite <- app_assoc in *. simpl app in *.
    cbn [length Nat.add].
    rewrite split_lines_step; auto.
    rewrite insert_middle.
    set (st := (length P + length (span_while is_blank l))%nat).
    assert (Hm : map nul_eol (l ++ [LF]) = map nul_eol l ++ [0]).
    { rewrite map_app. reflexivity. }
    rewrite Hm.
    replace (P ++ (map nul_eol l ++ [0]) ++ flat ls ++ T)
      with ((P ++ map nul_eol l ++ [0]) ++ flat ls ++ T)
      by (rewrite <- !app_assoc; reflexivity).
    replace (length P + length l + 1)%nat with (length (P ++ map nul_eol l ++ [0]))
      by (rewrite !length_app, length_map; simpl; lia).
    replace (done ++ st :: todo) with ((done ++ [st]) ++ todo)
      by (rewrite <- app_assoc; reflexivity).
    rewrite <- (length_snoc done st).
    rewrite IH; auto.
    + f_equal.
      * f_equal.
        -- rewrite map_app. simpl. rewrite <- !app_assoc. reflexivity.
        -- rewrite <- !app_assoc. reflexivity.
        -- rewrite length_snoc. lia.
      * rewrite !length_app, length_map. simpl. rewrite ?length_app. simpl. lia.
    + rewrite Hsize, !length_app, length_map. simpl. rewrite ?length_app.
      simpl. lia.
    + simpl in Htodo. lia.
Qed.

Lemma lf_cr_free_body (t : list byte) :
  forallb (fun c => negb (c =? LF)) t = true ->
  crlf_ok t = true ->
  Forall (fun c => not_eol c = true) t.
Proof.
  induction t as [|c t IH]; intros Ht1 Ht2; [constructor|].
  simpl in Ht1, Ht2. apply andb_true_iff in Ht1 as [H1 H2].
  destruct (c =? CR) eqn:E.
  - exfalso. destruct t as [|d t]; [discriminate|].
    simpl in H2. apply andb_true_iff in H2 as [H2 _].
    apply andb_true_iff in Ht2 as [H3 _]. rewrite H3 in H2. discriminate.
  - constructor; [|auto]. unfold not_eol. now rewrite E, H1.
Qed.

(** A line whose first carriage return is followed by another byte than a
    line feed stops pass 1. *)
Lemma split_lines_bad (fuel fsize : nat) (P l R : list byte) (lines : list nat)
    (lineIdx pc sc : nat) :
  forallb (fun c => negb (c =? LF)) l = true ->
  crlf_ok l = true ->
  hd 0 R <> LF ->
  R <> [] ->
  fsize = length (P ++ l ++ CR :: R) ->
  exists sp, split_lines (S fuel) fsize (mkSplit (P ++ l ++ CR :: R) lines lineIdx pc sc)
               (length P) = SplitFail sp /\ sp_lineIdx sp = S lineIdx.
Proof.
  intros Hlf Hcr HR HR' Hsize.
  remember (span_while is_blank l) as ws eqn:Ews.
  remember (skip_while is_blank l) as t eqn:Et.
  assert (Hl : l = ws ++ t) by (subst ws t; symmetry; apply span_skip).
  assert (Hws : Forall (fun c => is_blank c = true) ws) by (subst ws; apply span_all).
  assert (Hlen : length l = (length ws + length t)%nat) by (rewrite Hl, length_app; lia).
  rewrite !length_app in Hsize. simpl in Hsize.
  cbn [split_lines sp_buf sp_lines sp_lineIdx sp_paramCount sp_sectCount].
  replace (fsize <=? length P)%nat with false by (symmetry; apply Nat.leb_gt; lia).
  assert (Ht1 : forallb (fun c => negb (c =? LF)) t = true).
  { rewrite Hl, forallb_app in Hlf. now apply andb_true_iff in Hlf as [_ ?]. }
  assert (Ht2 : crlf_ok t = true).
  { rewrite Hl, crlf_ok_blanks in Hcr; auto. }
  pose proof (lf_cr_free_body t Ht1 Ht2) as Hbody.
  assert (Hskip : skip_blank (P ++ l ++ CR :: R) fsize (length P) = (length P + length ws)%nat).
  { unfold skip_blank. rewrite Hl, <- app_assoc.
    apply skip_blank_from_spec; auto.
    - destruct t as [|c t']; simpl; [reflexivity|].
      eapply (skip_head is_blank l). symmetry. exact Et.
    - lia. }
  rewrite Hskip.
  replace (P ++ l ++ CR :: R) with ((P ++ ws) ++ t ++ CR :: R)
    by (rewrite Hl; rewrite <- !app_assoc; reflexivity).
  rewrite <- length_app.
  rewrite scan_eol_bad; auto.
  - eexists. split; reflexivity.
  - rewrite length_app. lia.
Qed.

(** ** The input as a list of lines *)

Lemma split_lf_spec (l : list byte) :
  l = flat (fst (split_lf l)) ++ snd (split_lf l) /\
  lf_free (snd (split_lf l)) = true /\
  forallb lf_free (fst (split_lf l)) = true.
Proof.
  induction l as [|c l (IH1 & IH2 & IH3)]; [simpl; auto|].
  cbn [split_lf]. destruct (split_lf l) as [ls r]. cbn [fst snd] in *.
  destruct (c =? LF) eqn:E; cbn [fst snd].
  - apply Z.eqb_eq in E. subst c. rewrite flat_cons. simpl.
    repeat split; auto. congruence.
  - destruct ls as [|x xs]; cbn [fst snd].
    + simpl in *. rewrite E. simpl. repeat split; auto. congruence.
    + rewrite flat_cons in *. simpl in *. rewrite E. simpl.
      repeat split; auto. congruence.
Qed.

Lemma split_lf_snoc (l : list byte) : snd (split_lf (l ++ [LF])) = [].
Proof.
  induction l as [|c l IH]; simpl; [reflexivity|].
  destruct (split_lf (l ++ [LF])) as [ls r] eqn:E. simpl in IH. subst r.
  destruct (c =? LF); [reflexivity|].
  destruct ls as [|x xs]; [|reflexivity].
  exfalso. pose proof (split_lf_spec (l ++ [LF])) as (H & _). rewrite E in H.
  simpl in H. destruct l; discriminate.
Qed.

Lemma raw_lines_flat (content : list byte) :
  content ++ [LF] = flat (raw_lines content).
Proof.
  unfold raw_lines. pose proof (split_lf_spec (content ++ [LF])) as (H & _).
  rewrite split_lf_snoc, app_nil_r in H. exact H.
Qed.

Lemma raw_lines_lf_free (content : list byte) :
  forallb lf_free (raw_lines content) = true.
Proof. unfold raw_lines. apply split_lf_spec. Qed.

Lemma count_lf_app (a b : list byte) : count_lf (a ++ b) = (count_lf a + count_lf b)%nat.
Proof.
  induction a as [|c a IH]; simpl; [reflexivity|].
  destruct (c =? LF); simpl; congruence.
Qed.

Lemma count_lf_free (l : list byte) : lf_free l = true -> count_lf l = 0%nat.
Proof.
  induction l as [|c l IH]; simpl; [reflexivity|]. intros H.
  apply andb_true_iff in H as [H1 H2]. apply negb_true_iff in H1.
  rewrite H1. auto.
Qed.

Lemma count_lf_flat (ls : list (list byte)) :
  forallb lf_free ls = true -> count_lf (flat ls) = length ls.
Proof.
  induction ls as [|l ls IH]; simpl; [reflexivity|]. intros H.
  apply andb_true_iff in H as [H1 H2].
  rewrite flat_cons, count_lf_app, count_lf_free by exact H1.
  simpl. rewrite IH by exact H2. reflexivity.
Qed.

Lemma crlf_ok_line (l rest : list byte) :
  lf_free l = true ->
  crlf_ok (l ++ LF :: rest) = crlf_ok (l ++ [LF]) && crlf_ok rest.
Proof.
  induction l as [|c l IH]; intros Hl; simpl.
  - reflexivity.
  - simpl in Hl. apply andb_true_iff in Hl as [Hc Hl].
    destruct (c =? CR) eqn:E.
    + destruct l as [|d l]; simpl.
      * reflexivity.
      * simpl in Hl. apply andb_true_iff in Hl as [Hd _].
        apply negb_true_iff in Hd. rewrite Hd. reflexivity.
    + apply IH. exact Hl.
Qed.

Lemma crlf_ok_flat (ls : list (list byte)) (r : list byte) :
  forallb lf_free ls = true ->
  crlf_ok (flat ls ++ r) = forallb line_ok ls && crlf_ok r.
Proof.
  induction ls as [|l ls IH]; intros H; simpl; [reflexivity|].
  apply andb_true_iff in H as [H1 H2].
  rewrite flat_cons, <- app_assoc. simpl.
  rewrite crlf_ok_line, IH by auto.
  unfold line_ok. fold (lf_free l). rewrite H1. simpl.
  now rewrite andb_assoc.
Qed.

Lemma length_flat_ge (ls : list (list byte)) : (length ls <= length (flat ls))%nat.
Proof.
  induction ls as [|l ls IH]; simpl; [lia|].
  rewrite flat_cons, length_app. simpl. lia.
Qed.

Lemma split_lines_end (fuel fsize : nat) (s : Split) (i : nat) :
  (fsize <= i)%nat -> split_lines fuel fsize s i = SplitDone s.
Proof.
  intros H. destruct fuel; simpl; [reflexivity|].
  apply Nat.leb_le in H. now rewrite H.
Qed.

(** Pass 1 on an input all of whose carriage returns are followed by a line
    feed: every line end becomes a terminator, the line array holds the
    offsets of the lines, and the counters hold what [count_params1] and
    [count_sects] count. *)
Lemma split_lines_ok (content : list byte) :
  crlf_ok (content ++ [LF]) = true ->
  let buf := content ++ [LF] in
  split_lines (length buf) (length buf)
    (mkSplit buf (replicate (count_lf buf) 0%nat) 0 0 1) 0
  = SplitDone
      (mkSplit (map nul_eol buf) (line_starts 0 (raw_lines content))
         (length (raw_lines content))
         (count_params1 0 (raw_lines content))
         (count_sects 1 (raw_lines content))).
Proof.
  intros Hcr buf. subst buf.
  pose proof (raw_lines_flat content) as Hflat.
  pose proof (raw_lines_lf_free content) as Hlf.
  set (ls := raw_lines content) in *.
  rewrite Hflat in *.
  rewrite count_lf_flat by exact Hlf.
  rewrite <- (app_nil_r (flat ls)) in Hcr.
  rewrite crlf_ok_flat in Hcr by exact Hlf.
  apply andb_true_iff in Hcr as [Hok _].
  pose proof (length_flat_ge ls) as Hge.
  replace (length (flat ls)) with (length ls + (length (flat ls) - length ls))%nat at 1 by lia.
  pose proof (split_lines_lines ls (length (flat ls) - length ls) (length (flat ls))
                [] [] [] (replicate (length ls) 0%nat) 0 1 Hok) as H.
  simpl in H. rewrite app_nil_r in H.
  rewrite H; [|reflexivity|rewrite length_replicate; lia].
  rewrite split_lines_end by lia.
  rewrite app_nil_r. do 2 f_equal.
  rewrite drop_ge by (rewrite length_replicate; lia).
  now rewrite app_nil_r.
Qed.

(** ** Carriage returns *)

Lemma split_lines_fail (pre post : list byte) (c : byte) :
  c <> LF ->
  crlf_ok pre = true ->
  let buf := (pre ++ CR :: c :: post) ++ [LF] in
  exists sp,
    split_lines (length buf) (length buf)
      (mkSplit buf (replicate (count_lf buf) 0%nat) 0 0 1) 0 = SplitFail sp /\
    sp_lineIdx sp = S (count_lf pre).
Proof.
  intros Hc Hcr buf.
  pose proof (split_lf_spec pre) as (Hpre & Hr & Hls).
  destruct (split_lf pre) as [ls r]. cbn [fst snd] in *.
  rewrite Hpre, crlf_ok_flat in Hcr by exact Hls.
  apply andb_true_iff in Hcr as [Hok Hcr].
  assert (Hcount : count_lf pre = length ls).
  { rewrite Hpre, count_lf_app, count_lf_flat, count_lf_free by auto. lia. }
  assert (Hbuf : buf = [] ++ flat ls ++ (r ++ CR :: (c :: post ++ [LF]))).
  { subst buf. rewrite Hpre, <- !app_assoc. reflexivity. }
  assert (Hn : (length ls < count_lf buf)%nat).
  { rewrite Hbuf. simpl. rewrite !count_lf_app, count_lf_flat by auto.
    simpl. destruct (c =? LF); rewrite count_lf_app; simpl; lia. }
  assert (Hlen : (length ls < length buf)%nat).
  { rewrite Hbuf. simpl. rewrite !length_app. pose proof (length_flat_ge ls).
    simpl. lia. }
  destruct (count_lf buf) as [|n] eqn:En; [lia|].
  assert (Hsz : length buf = length ([] ++ flat ls ++ (r ++ CR :: (c :: post ++ [LF]))))
    by (rewrite <- Hbuf; reflexivity).
  clearbody buf.
  remember (length buf) as fsize eqn:Efs.
  rewrite Hbuf.
  assert (Hfuel : (length ls < fsize)%nat) by lia.
  revert Hfuel. generalize fsize at 1 2. intros fuel Hfuel.
  replace fuel with (length ls + S (fuel - length ls - 1))%nat by lia.
  pose proof (split_lines_lines ls (S (fuel - length ls - 1)) fsize []
                (r ++ CR :: (c :: post ++ [LF])) [] (replicate (S n) 0%nat) 0 1 Hok) as H.
  cbn [length app] in H. cbn [app]. rewrite H; clear H.
  - rewrite <- (length_map nul_eol (flat ls)).
    rewrite <- (app_nil_l (map nul_eol (flat ls) ++ _)), app_assoc, app_nil_l.
    replace (0 + length (map nul_eol (flat ls)))%nat with (length (map nul_eol (flat ls))) by lia.
    destruct (split_lines_bad (fuel - length ls - 1) fsize
                (map nul_eol (flat ls)) r (c :: post ++ [LF])
                (line_starts 0 ls ++ drop (length ls) (replicate (S n) 0%nat))
                (0 + length ls) (count_params1 0 ls) (count_sects 1 ls))
      as (sp & Hsp & Hidx).
    + exact Hr.
    + exact Hcr.
    + exact Hc.
    + discriminate.
    + rewrite Hsz. rewrite !length_app, length_map. simpl. rewrite !length_app. simpl. lia.
    + exists sp. split; [exact Hsp|].
      rewrite Hidx, Hcount. reflexivity.
  - exact Hsz.
  - rewrite length_replicate. lia.
Qed.

(** Pass 1 writes terminators only: bytes that are no line end are kept. *)
Lemma rd_map_nul_eol (buf : list byte) (i : nat) :
  rd (map nul_eol buf) i = nul_eol (rd buf i).
Proof.
  unfold rd. rewrite list_lookup_fmap.
  destruct (buf !! i); reflexivity.
Qed.

(** The call of [confreaderParseFile] up to pass 1, when the file can be
    read and the buffer and the line array can be allocated. *)
Lemma parse_reaches_split (w : World) (s : State) (content : list byte) :
  w_file w = Contents content ->
  content <> [] ->
  w_malloc w BFileBuf = true ->
  w_malloc w BLines = true ->
  confreader_fileBuf s = None ->
  exists s1,
    confreaderParseFile w s
    = match split_lines (length (content ++ [LF])) (length (content ++ [LF]))
              (mkSplit (content ++ [LF])
                 (replicate (count_lf (content ++ [LF])) 0%nat) 0 0 1) 0 with
      | SplitFail sp =>
          parse_error (sp_lineIdx sp)
            (set_fileBuf (Some (sp_buf sp))
              (set_lines (Some (sp_lines sp))
                (set_paramCount (sp_paramCount sp)
                  (set_sectCount (sp_sectCount sp) s1))))
      | SplitDone sp => link_buffer w (length (content ++ [LF])) sp s1
      end /\
    confreader_lineCount s1 = count_lf (content ++ [LF]) /\
    heap_live s1 = BLines :: BFileBuf :: heap_live s /\
    confreader_params s1 = None /\ confreaderSects s1 = None.
Proof.
  intros Hfile Hne Hm1 Hm2 Hbuf.
  destruct s as [fb ln lc pa pc en el se sc hp]. simpl in Hbuf. subst fb.
  unfold confreaderParseFile. cbn [set_errorLineNum confreader_fileBuf].
  rewrite Hfile.
  destruct content as [|c0 content]; [congruence|].
  cbn [length Nat.eqb]. unfold malloc. cbn [confreaderInit]. rewrite Hm1.
  unfold split_buffer, malloc. rewrite Hm2.
  exists (mkState (Some ((c0 :: content) ++ [LF]))
            (Some (replicate (count_lf ((c0 :: content) ++ [LF])) 0%nat))
            (count_lf ((c0 :: content) ++ [LF])) None pc 0 0%nat None 0%nat
            (BLines :: BFileBuf :: hp)).
  split; [reflexivity|]. cbn. auto.
Qed.

Lemma parse_error_fields (n : nat) (s : State) :
  fst (parse_error n s) = CONFREADER_ERROR /\
  confreaderErrorNum (snd (parse_error n s)) = CONFREADER_EPARSINGFILE /\
  confreaderErrorLineNum (snd (parse_error n s)) = n.
Proof.
  destruct s as [[?|] [?|] ? [?|] ? ? ? [?|] ? ?]; repeat split.
Qed.

(** C9, as stated, fails when the carriage return is the last byte of the
    file: the loader appends a line feed, the pair is taken for a line end,
    and the parse succeeds. *)
Lemma trailing_cr_is_accepted :
  let input := bytes "A=1" ++ [CR] in
  let r := confreaderParseFile (world_of input) initial_state in
  crlf_ok input = false /\
  fst r = CONFREADER_OK /\
  confreaderErrorNum (snd r) = CONFREADER_OK /\
  fst (confreaderGetString (bytes "A") None [] (snd r)) = Defined (bytes "1").
Proof. vm_compute. repeat split. Qed.

(** C9, amended: when the file is read and the buffer and the line array are
    allocated, a carriage return followed by a byte other than a line feed
    makes [confreaderParseFile] fail with [CONFREADER_EPARSINGFILE] and the
    1-based number of the line of the first such carriage return; when every
    carriage return is followed by a line feed, or is the last byte of the
    file and so followed by the line feed the loader appends, pass 1
    succeeds and leaves a terminator in the place of every carriage return
    and line feed. *)
Theorem carriage_return_handling (w : World) (s : State) (content : list byte) :
  w_file w = Contents content ->
  w_malloc w BFileBuf = true ->
  w_malloc w BLines = true ->
  confreader_fileBuf s = None ->
  (forall pre c post,
     content = pre ++ CR :: c :: post -> c <> LF -> crlf_ok pre = true ->
     let r := confreaderParseFile w s in
     fst r = CONFREADER_ERROR /\
     confreaderErrorNum (snd r) = CONFREADER_EPARSINGFILE /\
     confreaderErrorLineNum (snd r) = S (count_lf pre)) /\
  (crlf_ok (content ++ [LF]) = true ->
     let buf := content ++ [LF] in
     exists sp,
       split_lines (length buf) (length buf)
         (mkSplit buf (replicate (count_lf buf) 0%nat) 0 0 1) 0 = SplitDone sp /\
       sp_buf sp = map nul_eol buf /\
       (forall i, rd buf i = CR \/ rd buf i = LF -> rd (sp_buf sp) i = 0) /\
       (forall i, rd buf i <> CR -> rd buf i <> LF -> rd (sp_buf sp) i = rd buf i)).
Proof.
  intros Hfile Hm1 Hm2 Hbuf. split.
  - intros pre c post Hcontent Hc Hpre r.
    assert (Hne : content <> []) by (subst content; destruct pre; discriminate).
    destruct (parse_reaches_split w s content Hfile Hne Hm1 Hm2 Hbuf) as (s1 & Hparse & _).
    destruct (split_lines_fail pre post c Hc Hpre) as (sp & Hsp & Hidx).
    subst r. rewrite Hparse. subst content. cbn zeta in Hsp. rewrite Hsp.
    rewrite <- Hidx. apply parse_error_fields.
  - intros Hcr buf. subst buf. eexists. split; [apply split_lines_ok; exact Hcr|].
    cbn [sp_buf]. split; [reflexivity|]. split.
    + intros i Hi. rewrite rd_map_nul_eol. unfold nul_eol.
      destruct Hi as [Hi|Hi]; rewrite Hi; reflexivity.
    + intros i H1 H2. rewrite rd_map_nul_eol. unfold nul_eol.
      apply Z.eqb_neq in H1, H2. now rewrite H1, H2.
Qed.

Lemma carriage_return_handling_witness :
  (let r := confreaderParseFile
              (world_of (bytes "A=1" ++ [CR; LF] ++ bytes "B" ++ [CR] ++ bytes "C=2"))
              initial_state in
   fst r = CONFREADER_ERROR /\
   confreaderErrorNum (snd r) = CONFREADER_EPARSINGFILE /\
   confreaderErrorLineNum (snd r) = 2%nat) /\
  (let buf := (bytes "A=1" ++ [CR; LF] ++ bytes "B=2" ++ [CR]) ++ [LF] in
   exists sp,
     split_lines (length buf) (length buf)
       (mkSplit buf (replicate (count_lf buf) 0%nat) 0 0 1) 0 = SplitDone sp /\
     sp_buf sp = map nul_eol buf /\
     (forall i, rd buf i = CR \/ rd buf i = LF -> rd (sp_buf sp) i = 0) /\
     (forall i, rd buf i <> CR -> rd buf i <> LF -> rd (sp_buf sp) i = rd buf i)).
Proof.
  split.
  - apply (proj1 (carriage_return_handling
             (world_of (bytes "A=1" ++ [CR; LF] ++ bytes "B" ++ [CR] ++ bytes "C=2"))
             initial_state
             (bytes "A=1" ++ [CR; LF] ++ bytes "B" ++ [CR] ++ bytes "C=2")
             eq_refl eq_refl eq_refl eq_refl)
             (bytes "A=1" ++ [CR; LF] ++ bytes "B") 67 (bytes "=2")).
    + vm_compute. reflexivity.
    + vm_compute. discriminate.
    + vm_compute. reflexivity.
  - apply (proj2 (carriage_return_handling
             (world_of (bytes "A=1" ++ [CR; LF] ++ bytes "B=2" ++ [CR]))
             initial_state
             (bytes "A=1" ++ [CR; LF] ++ bytes "B=2" ++ [CR])
             eq_refl eq_refl eq_refl eq_refl)).
    vm_compute. reflexivity.
Defined.

(** ** The scanning loops of pass 2 *)

Lemma nul_free_cons (c : byte) (l : list byte) :
  nul_free (c :: l) -> c <> 0 /\ nul_free l.
Proof. intros H. inversion H; subst. auto. Qed.

Lemma nul_free_app (a b : list byte) : nul_free (a ++ b) <-> nul_free a /\ nul_free b.
Proof. apply Forall_app. Qed.

Lemma key_end_spec (l P R : list byte) (fuel : nat) :
  nul_free l ->
  (length l < fuel)%nat ->
  key_end fuel (P ++ l ++ 0 :: R) (length P)
  = match skip_while is_keych l with
    | [] => None
    | _ => Some (length P + length (span_while is_keych l))%nat
    end.
Proof.
  revert P fuel. induction l as [|c l IH]; intros P fuel Hl Hfuel.
  - destruct fuel; [simpl in Hfuel; lia|]. simpl. now rewrite rd_middle.
  - apply nul_free_cons in Hl as [Hc Hl].
    destruct fuel; [simpl in Hfuel; lia|]. simpl. rewrite rd_middle.
    apply Z.eqb_neq in Hc. rewrite Hc. unfold is_keych at 1 3.
    destruct (is_sep c); simpl.
    + now rewrite Nat.add_0_r.
    + rewrite (snoc_app P c), <- (length_snoc P c), IH; auto.
      * destruct (skip_while is_keych l); [reflexivity|].
        rewrite length_snoc. f_equal. lia.
      * simpl in Hfuel. lia.
Qed.

Lemma skip_sep_from_spec (ws : list byte) (P R : list byte) (fuel : nat) :
  Forall (fun c => is_sep c = true) ws ->
  is_sep (hd 0 R) = false ->
  (length ws <= fuel)%nat ->
  skip_sep_from fuel (P ++ ws ++ R) (length P) = (length P + length ws)%nat.
Proof.
  revert P fuel. induction ws as [|c ws IH]; intros P fuel Hws HR Hfuel.
  - simpl. rewrite Nat.add_0_r. destruct fuel; [reflexivity|]. simpl.
    destruct R as [|d R]; simpl in *.
    + rewrite app_nil_r, rd_end. reflexivity.
    + rewrite rd_middle, HR. reflexivity.
  - inversion Hws as [|? ? Hc Hws']; subst. destruct fuel; [simpl in Hfuel; lia|].
    simpl. rewrite rd_middle, Hc.
    rewrite (snoc_app P c), <- (length_snoc P c). rewrite IH; auto.
    + rewrite length_snoc. lia.
    + simpl in Hfuel. lia.
Qed.

Lemma close_bracket_spec (l P R : list byte) (fuel : nat) :
  nul_free l ->
  (length l < fuel)%nat ->
  close_bracket fuel (P ++ l ++ 0 :: R) (length P)
  = match skip_while not_rbracket l with
    | [] => None
    | _ :: r =>
        Some (P ++ span_while not_rbracket l ++ 0 :: r ++ 0 :: R,
              (length P + length (span_while not_rbracket l) + 1)%nat)
    end.
Proof.
  revert P fuel. induction l as [|c l IH]; intros P fuel Hl Hfuel.
  - destruct fuel; [simpl in Hfuel; lia|]. simpl. now rewrite rd_middle.
  - apply nul_free_cons in Hl as [Hc Hl].
    destruct fuel; [simpl in Hfuel; lia|]. simpl. rewrite rd_middle.
    destruct (c =? RBRACKET) eqn:E.
    + assert (Hn : not_rbracket c = false) by (unfold not_rbracket; now rewrite E).
      rewrite Hn. simpl. rewrite insert_middle. do 2 f_equal. lia.
    + assert (Hn : not_rbracket c = true) by (unfold not_rbracket; now rewrite E).
      rewrite Hn. apply Z.eqb_neq in Hc. rewrite Hc.
      rewrite (snoc_app P c), <- (length_snoc P c), IH; auto.
      * destruct (skip_while not_rbracket l); [reflexivity|].
        rewrite length_snoc, <- !app_assoc. simpl. do 2 f_equal. lia.
      * simpl in Hfuel. lia.
Qed.

Lemma value_end_spec (l P R : list byte) (prev : byte) (fuel : nat) :
  nul_free l ->
  (length l < fuel)%nat ->
  value_end fuel ((P ++ [prev]) ++ l ++ 0 :: R) (length (P ++ [prev]))
  = option_map (fun n => (length (P ++ [prev]) + n)%nat) (scan_value prev l).
Proof.
  revert P prev fuel. induction l as [|c l IH]; intros P prev fuel Hl Hfuel.
  - destruct fuel; [simpl in Hfuel; lia|]. simpl. rewrite rd_middle. simpl.
    now rewrite Nat.add_0_r.
  - apply nul_free_cons in Hl as [Hc Hl].
    destruct fuel; [simpl in Hfuel; lia|]. simpl. rewrite rd_middle.
    apply Z.eqb_neq in Hc. rewrite Hc.
    destruct (is_comment c).
    + rewrite length_snoc. simpl. rewrite Nat.sub_0_r.
      rewrite <- app_assoc. simpl. rewrite rd_middle.
      destruct (is_blank prev); simpl; [|reflexivity].
      now rewrite Nat.add_0_r.
    + rewrite (snoc_app (P ++ [prev]) c), <- (length_snoc (P ++ [prev]) c), IH; auto.
      * destruct (scan_value c l); simpl; [|reflexivity].
        rewrite !length_snoc. f_equal. lia.
      * simpl in Hfuel. lia.
Qed.

Lemma trim_right_nil_blank (l : list byte) :
  trim_right l = [] -> Forall (fun c => is_blank c = true) l.
Proof.
  induction l as [|c l IH]; simpl; [constructor|].
  destruct (trim_right l) eqn:E; [|discriminate].
  destruct (is_blank c) eqn:Ec; [|discriminate].
  intros _. constructor; auto.
Qed.

Lemma trim_right_snoc (l : list byte) (c : byte) :
  trim_right (l ++ [c]) = if is_blank c then trim_right l else l ++ [c].
Proof.
  induction l as [|d l IH]; simpl.
  - destruct (is_blank c); reflexivity.
  - rewrite IH. destruct (is_blank c) eqn:Ec; [reflexivity|].
    destruct (l ++ [c]) eqn:E; [destruct l; discriminate|reflexivity].
Qed.

Lemma trim_back_spec (l P X : list byte) :
  trim_right l <> [] ->
  trim_back (P ++ l ++ X) (length P + length l) = (length P + length (trim_right l))%nat.
Proof.
  revert X. induction l as [|c l IH] using rev_ind; intros X Hne; [now simpl in Hne|].
  rewrite trim_right_snoc in *. rewrite length_app. simpl.
  replace (length P + (length l + 1))%nat with (S (length P + length l)) by lia.
  simpl.
  replace (P ++ (l ++ [c]) ++ X) with ((P ++ l) ++ c :: X)
    by (rewrite <- !app_assoc; reflexivity).
  rewrite <- length_app, rd_middle.
  destruct (is_blank c) eqn:Ec.
  - rewrite length_app.
    replace ((P ++ l) ++ c :: X) with (P ++ l ++ c :: X) by (rewrite <- app_assoc; reflexivity).
    apply IH. exact Hne.
  - rewrite !length_app. simpl. lia.
Qed.

Lemma trim_right_prefix (l : list byte) : take (length (trim_right l)) l = trim_right l.
Proof.
  induction l as [|c l IH]; simpl; [reflexivity|].
  destruct (trim_right l) as [|d r] eqn:E.
  - destruct (is_blank c); reflexivity.
  - simpl. f_equal. exact IH.
Qed.

Lemma trim_right_length (l : list byte) : (length (trim_right l) <= length l)%nat.
Proof.
  rewrite <- (trim_right_prefix l) at 1. rewrite length_take. lia.
Qed.

(** ** C strings in a buffer laid out as a concatenation *)

Lemma cstring_of_app (a b : list byte) : nul_free a -> cstring_of (a ++ 0 :: b) = a.
Proof.
  induction 1 as [|c a Hc _ IH]; simpl; [reflexivity|].
  apply Z.eqb_neq in Hc. rewrite Hc. now rewrite IH.
Qed.

Lemma cstr_app (P l : list byte) : cstr (P ++ l) (length P) = cstring_of l.
Proof. unfold cstr. now rewrite drop_app_length. Qed.

Lemma span_nul_free (p : byte -> bool) (l : list byte) : nul_free l -> nul_free (span_while p l).
Proof.
  induction 1 as [|c l Hc _ IH]; simpl; [constructor|].
  destruct (p c); constructor; auto.
Qed.

Lemma skip_nul_free (p : byte -> bool) (l : list byte) : nul_free l -> nul_free (skip_while p l).
Proof.
  induction 1 as [|c l Hc Hl IH]; simpl; [constructor|].
  destruct (p c); [exact IH|]. constructor; auto.
Qed.

Lemma take_nul_free (n : nat) (l : list byte) : nul_free l -> nul_free (take n l).
Proof. intros H. unfold nul_free. apply Forall_take. exact H. Qed.

(** Writing a terminator inside [v ++ [0]]. *)
Lemma insert_terminator (Pfx v R : list byte) (m : nat) :
  (m <= length v)%nat ->
  <[(length Pfx + m)%nat := 0]> (Pfx ++ v ++ 0 :: R)
  = Pfx ++ take m v ++ 0 :: drop (S m) (v ++ [0]) ++ R.
Proof.
  intros Hm.
  assert (Hlook : is_Some ((v ++ [0]) !! m)).
  { apply lookup_lt_is_Some. rewrite length_app. simpl. lia. }
  destruct Hlook as [x Hx].
  pose proof (take_drop_middle _ _ _ Hx) as Hmid.
  rewrite take_app_le in Hmid by exact Hm.
  replace (Pfx ++ v ++ 0 :: R) with ((Pfx ++ take m v) ++ x :: drop (S m) (v ++ [0]) ++ R).
  - replace (length Pfx + m)%nat with (length (Pfx ++ take m v))
      by (rewrite length_app, length_take; lia).
    rewrite insert_middle. now rewrite <- app_assoc.
  - rewrite <- app_assoc. f_equal.
    change (x :: drop (S m) (v ++ [0]) ++ R) with ((x :: drop (S m) (v ++ [0])) ++ R).
    rewrite app_assoc, Hmid, <- app_assoc. reflexivity.
Qed.

Lemma scan_value_first (p p' c : byte) (l : list byte) :
  is_comment c = false -> scan_value p (c :: l) = scan_value p' (c :: l).
Proof. intros H. simpl. now rewrite H. Qed.

Lemma scan_value_le (l : list byte) (p : byte) (n : nat) :
  scan_value p l = Some n -> (n <= length l)%nat.
Proof.
  revert p n. induction l as [|c l IH]; intros p n; simpl.
  - intros [= <-]. lia.
  - destruct (is_comment c).
    + destruct (is_blank p); [|discriminate]. intros [= <-]. lia.
    + destruct (scan_value c l) eqn:E; simpl; [|discriminate].
      intros [= <-]. apply IH in E. lia.
Qed.

Lemma scan_value_no_comment (l : list byte) (p : byte) (n : nat) :
  scan_value p l = Some n -> Forall (fun c => is_comment c = false) (take n l).
Proof.
  revert p n. induction l as [|c l IH]; intros p n; simpl.
  - intros [= <-]. constructor.
  - destruct (is_comment c) eqn:Ec.
    + destruct (is_blank p); [|discriminate]. intros [= <-]. constructor.
    + destruct (scan_value c l) eqn:E; simpl; [|discriminate].
      intros [= <-]. simpl. constructor; eauto.
Qed.

Lemma sep_not_keych (c : byte) : is_keych c = false -> is_sep c = true.
Proof. unfold is_keych. now destruct (is_sep c). Qed.

Lemma blank_is_sep (c : byte) : is_blank c = true -> is_sep c = true.
Proof.
  unfold is_blank, is_sep. intros H. apply orb_true_iff in H as [H|H]; rewrite H.
  - now rewrite orb_true_r.
  - now rewrite !orb_true_r.
Qed.

Lemma trim_right_first (c : byte) (l : list byte) :
  is_blank c = false -> exists r, trim_right (c :: l) = c :: r.
Proof.
  intros H. simpl. destruct (trim_right l); rewrite ?H; eauto.
Qed.

(** ** One parameter line *)

Lemma link_param_spec (t Q R : list byte) (fsize : nat)
    (sects : list (option ConfreaderSection)) (table : list (option ConfreaderParam))
    (sidx pidx : nat) :
  nul_free t ->
  fsize = length (Q ++ t ++ 0 :: R) ->
  match parse_param t with
  | None =>
      link_param fsize (length Q) (mkLink (Q ++ t ++ 0 :: R) sects table sidx pidx) = None
  | Some (k, v) =>
      exists tz voff,
        length tz = S (length t) /\
        link_param fsize (length Q) (mkLink (Q ++ t ++ 0 :: R) sects table sidx pidx)
        = Some (mkLink (Q ++ tz ++ R)
                  (update_sect grow sidx (update_sect (first_param pidx) sidx sects))
                  (<[pidx := Some (mkParam (length Q) voff)]> table)
                  sidx (S pidx)) /\
        (forall X, cstr ((Q ++ tz) ++ X) (length Q) = k) /\
        (forall X, cstr ((Q ++ tz) ++ X) voff = v)
  end.
Proof.
  intros Hnul Hsize.
  unfold parse_param, link_param. cbn [lk_buf lk_sects lk_params lk_sectIdx lk_paramIdx].
  pose proof (span_skip is_keych t) as Ht.
  pose proof (span_nul_free is_keych t Hnul) as Hk.
  pose proof (skip_nul_free is_keych t Hnul) as Hrest.
  set (k := span_while is_keych t) in *.
  assert (Hlen_t : length t = (length k + length (skip_while is_keych t))%nat)
    by (rewrite <- Ht at 1; apply length_app).
  rewrite !length_app in Hsize. cbn [length] in Hsize.
  rewrite key_end_spec by (auto; lia). fold k.
  destruct (skip_while is_keych t) as [|s0 r] eqn:Erest; [reflexivity|].
  apply nul_free_cons in Hrest as [_ Hr]. cbn [length] in Hlen_t.
  (* the key is terminated *)
  assert (Hbuf1 : <[(length Q + length k)%nat := 0]> (Q ++ t ++ 0 :: R)
                  = (Q ++ k ++ [0]) ++ r ++ 0 :: R).
  { rewrite <- Ht, <- !app_assoc. rewrite (app_assoc Q k), <- length_app.
    change ((s0 :: r) ++ 0 :: R) with (s0 :: r ++ 0 :: R).
    rewrite insert_middle. rewrite <- !app_assoc. reflexivity. }
  rewrite Hbuf1.
  replace (S (length Q + length k)) with (length (Q ++ k ++ [0]))
    by (rewrite !length_app; simpl; lia).
  (* the separators are skipped *)
  pose proof (span_skip is_sep r) as Hr2.
  pose proof (span_all is_sep r) as Hseps.
  pose proof (skip_nul_free is_sep r Hr) as Hv.
  set (seps := span_while is_sep r) in *.
  assert (Hlen_r : length r = (length seps + length (skip_while is_sep r))%nat)
    by (rewrite <- Hr2 at 1; apply length_app).
  set (Pfx := (Q ++ k ++ [0]) ++ seps).
  assert (HPfx : length Pfx = (length Q + length k + 1 + length seps)%nat)
    by (unfold Pfx; rewrite !length_app; simpl; lia).
  assert (Hbuf2 : (Q ++ k ++ [0]) ++ r ++ 0 :: R = Pfx ++ skip_while is_sep r ++ 0 :: R).
  { unfold Pfx. rewrite <- Hr2 at 1. rewrite <- !app_assoc. reflexivity. }
  assert (Hskip : skip_sep ((Q ++ k ++ [0]) ++ r ++ 0 :: R) fsize (length (Q ++ k ++ [0]))
                  = length Pfx).
  { unfold skip_sep. rewrite <- Hr2 at 1. rewrite <- (app_assoc seps).
    rewrite skip_sep_from_spec; auto.
    - rewrite HPfx, !length_app. simpl. lia.
    - destruct (skip_while is_sep r) as [|c v'] eqn:Ev; [reflexivity|].
      simpl. eapply skip_head. exact Ev.
    - rewrite !length_app. simpl. lia. }
  rewrite Hskip, Hbuf2.
  destruct (skip_while is_sep r) as [|c v'] eqn:Ev.
  { simpl. now rewrite rd_middle. }
  set (v := c :: v') in *.
  assert (Hlen_v : length v = S (length v')) by reflexivity.
  assert (Hc_sep : is_sep c = false) by (eapply skip_head; exact Ev).
  assert (Hc_blank : is_blank c = false).
  { destruct (is_blank c) eqn:E; [|reflexivity]. apply blank_is_sep in E. congruence. }
  assert (Hrd : rd (Pfx ++ v ++ 0 :: R) (length Pfx) = c) by (unfold v; simpl; apply rd_middle).
  rewrite Hrd.
  assert (Hc0 : (c =? 0) = false).
  { apply Z.eqb_neq. apply nul_free_cons in Hv. tauto. }
  rewrite Hc0. simpl orb.
  destruct (is_comment c) eqn:Hc_com; [reflexivity|].
  (* the end of the value *)
  assert (HPfx_snoc : exists P0 prev, Pfx = P0 ++ [prev]).
  { unfold Pfx. destruct seps as [|x seps'] using rev_ind.
    - exists (Q ++ k), 0. now rewrite app_nil_r, <- app_assoc.
    - exists ((Q ++ k ++ [0]) ++ seps'), x. now rewrite <- !app_assoc. }
  destruct HPfx_snoc as (P0 & prev & HP0).
  assert (Hve : value_end (fsize - length Pfx) (Pfx ++ v ++ 0 :: R) (length Pfx)
                = option_map (fun n => (length Pfx + n)%nat) (scan_value 0 v)).
  { rewrite HP0. rewrite value_end_spec; auto.
    - unfold v. now rewrite (scan_value_first prev 0).
    - rewrite <- HP0, HPfx. lia. }
  rewrite Hve.
  destruct (scan_value 0 v) as [n|] eqn:Escan; [|reflexivity].
  cbn [option_map].
  pose proof (scan_value_le _ _ _ Escan) as Hn.
  (* the value is trimmed *)
  assert (Hn1 : exists n', n = S n').
  { unfold v in Escan. simpl in Escan. rewrite Hc_com in Escan.
    destruct (scan_value c v'); [|discriminate]. injection Escan as <-. eauto. }
  destruct Hn1 as (n' & ->).
  destruct (trim_right_first c (take n' v') Hc_blank) as (tr & Htr).
  assert (Htake : take (S n') v = c :: take n' v') by reflexivity.
  assert (Htrim : trim_back (Pfx ++ v ++ 0 :: R) (length Pfx + S n')
                  = (length Pfx + length (trim_right (take (S n') v)))%nat).
  { assert (Hl : length (take (S n') v) = S n') by (rewrite length_take; lia).
    pose proof (trim_back_spec (take (S n') v) Pfx (drop (S n') v ++ 0 :: R)) as H.
    rewrite Hl, (app_assoc (take (S n') v)), take_drop in H.
    apply H. rewrite Htake, Htr. discriminate. }
  rewrite Htrim.
  set (val := trim_right (take (S n') v)) in *.
  assert (Hm : (length val <= length v)%nat).
  { unfold val. pose proof (trim_right_length (take (S n') v)).
    rewrite length_take in H. lia. }
  rewrite insert_terminator by exact Hm.
  assert (Hval : take (length val) v = val).
  { unfold val. rewrite <- (trim_right_prefix (take (S n') v)) at 2.
    rewrite take_take. f_equal.
    pose proof (trim_right_length (take (S n') v)). rewrite length_take in H. lia. }
  rewrite Hval.
  exists (k ++ 0 :: seps ++ val ++ 0 :: drop (S (length val)) (v ++ [0])), (length Pfx).
  split; [|split; [|split]].
  - rewrite !length_app. cbn [length]. rewrite !length_app. cbn [length].
    rewrite length_drop, length_app. cbn [length]. lia.
  - do 2 f_equal. unfold Pfx. norm_app. reflexivity.
  - intros X. norm_app. rewrite cstr_app. apply cstring_of_app. exact Hk.
  - intros X.
    replace ((Q ++ k ++ 0 :: seps ++ val ++ 0 :: drop (S (length val)) (v ++ [0])) ++ X)
      with (Pfx ++ val ++ 0 :: drop (S (length val)) (v ++ [0]) ++ X)
      by (unfold Pfx; norm_app; reflexivity).
    rewrite cstr_app. apply cstring_of_app.
    rewrite <- Hval. apply take_nul_free. exact Hv.
Qed.

(** ** One header line *)

Lemma link_section_spec (t Q R : list byte) (fsize : nat)
    (sects : list (option ConfreaderSection)) (table : list (option ConfreaderParam))
    (sidx pidx : nat) :
  nul_free t ->
  fsize = length (Q ++ LBRACKET :: t ++ 0 :: R) ->
  match parse_header t with
  | None =>
      link_section fsize (length Q)
        (mkLink (Q ++ LBRACKET :: t ++ 0 :: R) sects table sidx pidx) = None
  | Some nm =>
      exists tz,
        length tz = S (S (length t)) /\
        link_section fsize (length Q)
          (mkLink (Q ++ LBRACKET :: t ++ 0 :: R) sects table sidx pidx)
        = Some (mkLink (Q ++ tz ++ R)
                  (<[S sidx := Some (mkSection 0 (Some (S (length Q))) None)]> sects)
                  table (S sidx) pidx) /\
        (forall X, cstr ((Q ++ tz) ++ X) (S (length Q)) = nm)
  end.
Proof.
  intros Hnul Hsize.
  unfold parse_header, link_section. cbn [lk_buf lk_sects lk_params lk_sectIdx lk_paramIdx].
  pose proof (span_skip not_rbracket t) as Ht.
  pose proof (span_nul_free not_rbracket t Hnul) as Hname.
  pose proof (skip_nul_free not_rbracket t Hnul) as Hrest.
  set (nm := span_while not_rbracket t) in *.
  assert (Hlen_t : length t = (length nm + length (skip_while not_rbracket t))%nat)
    by (rewrite <- Ht at 1; apply length_app).
  rewrite !length_app in Hsize. cbn [length] in Hsize. rewrite length_app in Hsize.
  cbn [length] in Hsize.
  rewrite (snoc_app Q LBRACKET), <- (length_snoc Q LBRACKET).
  rewrite close_bracket_spec by (auto; rewrite length_snoc; lia). fold nm.
  destruct (skip_while not_rbracket t) as [|b r] eqn:Erest; [reflexivity|].
  apply nul_free_cons in Hrest as [_ Hr]. cbn [length] in Hlen_t.
  pose proof (span_skip is_blank r) as Hr2.
  pose proof (span_all is_blank r) as Hws.
  set (ws := span_while is_blank r) in *.
  assert (Hlen_r : length r = (length ws + length (skip_while is_blank r))%nat)
    by (rewrite <- Hr2 at 1; apply length_app).
  set (Pfx := ((Q ++ [LBRACKET]) ++ nm ++ [0]) ++ ws).
  assert (HPfx : length Pfx = (length Q + 1 + length nm + 1 + length ws)%nat)
    by (unfold Pfx; rewrite !length_app; simpl; lia).
  assert (Hbuf : (Q ++ [LBRACKET]) ++ nm ++ 0 :: r ++ 0 :: R
                 = Pfx ++ skip_while is_blank r ++ 0 :: R).
  { unfold Pfx. rewrite <- Hr2 at 1. norm_app. reflexivity. }
  assert (Hskip : skip_blank ((Q ++ [LBRACKET]) ++ nm ++ 0 :: r ++ 0 :: R) fsize
                    (length (Q ++ [LBRACKET]) + length nm + 1) = length Pfx).
  { unfold skip_blank. rewrite Hbuf. unfold Pfx at 1.
    rewrite <- (app_assoc _ ws).
    replace (length (Q ++ [LBRACKET]) + length nm + 1)%nat
      with (length ((Q ++ [LBRACKET]) ++ nm ++ [0]))
      by (rewrite !length_app; simpl; lia).
    rewrite skip_blank_from_spec; auto.
    - rewrite HPfx, !length_app. simpl. lia.
    - destruct (skip_while is_blank r) as [|c v'] eqn:Ev; [reflexivity|].
      simpl. eapply skip_head. exact Ev.
    - rewrite !length_app. simpl. lia. }
  rewrite Hskip, Hbuf.
  assert (Hcstr : forall X,
            cstr ((Q ++ LBRACKET :: nm ++ 0 :: r ++ [0]) ++ X) (length (Q ++ [LBRACKET])) = nm).
  { intros X.
    replace ((Q ++ LBRACKET :: nm ++ 0 :: r ++ [0]) ++ X)
      with ((Q ++ [LBRACKET]) ++ nm ++ 0 :: r ++ [0] ++ X) by (norm_app; reflexivity).
    rewrite cstr_app. apply cstring_of_app. exact Hname. }
  assert (Hres : Pfx ++ skip_while is_blank r ++ 0 :: R
                 = Q ++ (LBRACKET :: nm ++ 0 :: r ++ [0]) ++ R).
  { rewrite <- Hbuf. norm_app. reflexivity. }
  assert (Hlen : length (LBRACKET :: nm ++ 0 :: r ++ [0]) = S (S (length t))).
  { cbn [length]. rewrite length_app. cbn [length]. rewrite length_app. simpl. lia. }
  destruct (skip_while is_blank r) as [|c v'] eqn:Ev.
  - simpl. rewrite rd_middle. simpl.
    eexists. split; [exact Hlen|]. split; [|exact Hcstr].
    do 2 f_equal. simpl in Hres. exact Hres.
  - assert (Hc0 : (c =? 0) = false).
    { apply Z.eqb_neq. pose proof (skip_nul_free is_blank r Hr) as H.
      rewrite Ev in H. apply nul_free_cons in H. tauto. }
    change (Pfx ++ (c :: v') ++ 0 :: R) with (Pfx ++ c :: (v' ++ 0 :: R)) in *.
    rewrite rd_middle, Hc0. unfold is_comment.
    destruct (c =? HASH) eqn:E1; simpl.
    + eexists. split; [exact Hlen|]. split; [|exact Hcstr].
      do 2 f_equal. exact Hres.
    + destruct (c =? SEMI) eqn:E2; simpl; [|reflexivity].
      eexists. split; [exact Hlen|]. split; [|exact Hcstr].
      do 2 f_equal. exact Hres.
Qed.

(** ** The representation is kept by the steps of the linker *)

Lemma reads_mono (P Y : list byte) (p : nat) (s : list byte) :
  reads P p s -> reads (P ++ Y) p s.
Proof. intros H X. rewrite <- app_assoc. apply H. Qed.

Lemma name_rep_mono (P Y : list byte) np nm : name_rep P np nm -> name_rep (P ++ Y) np nm.
Proof. destruct np, nm; simpl; auto using reads_mono. Qed.

Lemma entry_rep_mono (P Y : list byte) slot e : entry_rep P slot e -> entry_rep (P ++ Y) slot e.
Proof. intros (p & H1 & H2 & H3). exists p. auto using reads_mono. Qed.

Lemma sect_rep_mono (P Y : list byte) table base slot sec :
  sect_rep P table base slot sec -> sect_rep (P ++ Y) table base slot sec.
Proof.
  intros (s & H1 & H2 & H3 & H4 & H5). exists s.
  repeat split; auto using name_rep_mono, entry_rep_mono.
Qed.

Lemma Rep_mono (l : Link) d (P Y : list byte) : Rep l d P -> Rep l d (P ++ Y).
Proof.
  intros (H1 & H2 & H3 & H4). repeat split; auto.
  intros i sec Hi. apply sect_rep_mono. auto.
Qed.

Lemma Rep_buf (b b' : list byte) sects table sidx pidx d P :
  Rep (mkLink b sects table sidx pidx) d P -> Rep (mkLink b' sects table sidx pidx) d P.
Proof. intros H. exact H. Qed.

Lemma total_app (a b : list SpecSection) : total (a ++ b) = (total a + total b)%nat.
Proof. unfold total. now rewrite map_app, concat_app, length_app. Qed.

Lemma total_single (sec : SpecSection) : total [sec] = length (snd sec).
Proof. unfold total. simpl. now rewrite app_nil_r. Qed.

Lemma total_take_le (doc : list SpecSection) (i j : nat) :
  (i <= j)%nat -> (total (take i doc) <= total (take j doc))%nat.
Proof.
  intros Hij. replace j with (i + (j - i))%nat by lia.
  rewrite <- take_take_drop, total_app. lia.
Qed.

Lemma total_take_S (doc : list SpecSection) (i : nat) (sec : SpecSection) :
  doc !! i = Some sec ->
  total (take (S i) doc) = (total (take i doc) + length (snd sec))%nat.
Proof.
  intros H. rewrite (take_S_r _ _ _ H), total_app, total_single. reflexivity.
Qed.

Lemma update_sect_length f idx sects : length (update_sect f idx sects) = length sects.
Proof.
  unfold update_sect. destruct (sects !! idx) as [[s|]|]; auto.
  apply length_insert.
Qed.

Lemma update_sect_ne f idx sects i : i <> idx -> update_sect f idx sects !! i = sects !! i.
Proof.
  intros H. unfold update_sect. destruct (sects !! idx) as [[s|]|]; auto.
  apply list_lookup_insert_ne. auto.
Qed.

Lemma update_sect_eq f idx sects s :
  sects !! idx = Some (Some s) -> update_sect f idx sects !! idx = Some (Some (f s)).
Proof.
  intros H. unfold update_sect. rewrite H.
  apply list_lookup_insert_eq. eapply lookup_lt_Some. exact H.
Qed.

Lemma Rep_header b b' sects table sidx pidx d P (p : nat) (nm : list byte) :
  Rep (mkLink b sects table sidx pidx) d P ->
  (S sidx < length sects)%nat ->
  reads P p nm ->
  Rep (mkLink b' (<[S sidx := Some (mkSection 0 (Some p) None)]> sects) table (S sidx) pidx)
      (fst d ++ [snd d], (Some nm, [])) P.
Proof.
  intros (H1 & H2 & H3 & H4) Hcap Hreads.
  unfold Rep, close_doc in *.
  cbn [lk_sectIdx lk_paramIdx lk_sects lk_params fst snd] in *.
  set (doc := fst d ++ [snd d]) in *.
  assert (Hlen : length doc = S sidx) by (unfold doc; rewrite length_snoc; lia).
  repeat split.
  - rewrite Hlen. reflexivity.
  - rewrite total_app, total_single. simpl. lia.
  - intros i sec Hi.
    destruct (decide (i < length doc)%nat) as [Hlt|Hge].
    + rewrite lookup_app_l in Hi by exact Hlt.
      rewrite take_app_le by lia.
      rewrite list_lookup_insert_ne by lia.
      apply H3. exact Hi.
    + assert (i = length doc) as ->.
      { apply lookup_lt_Some in Hi. rewrite length_snoc in Hi. lia. }
      rewrite list_lookup_middle in Hi by reflexivity. injection Hi as <-.
      rewrite Hlen, list_lookup_insert_eq by lia.
      eexists. split; [reflexivity|]. cbn. repeat split; auto.
      intros j e Hj. rewrite lookup_nil in Hj. discriminate.
  - exact H4.
Qed.

Lemma Rep_param b b' sects table sidx pidx d P (kp vp : nat) (k v : list byte) :
  Rep (mkLink b sects table sidx pidx) d P ->
  (pidx < length table)%nat ->
  reads P kp k ->
  reads P vp v ->
  Rep (mkLink b'
         (update_sect grow sidx (update_sect (first_param pidx) sidx sects))
         (<[pidx := Some (mkParam kp vp)]> table) sidx (S pidx))
      (fst d, (fst (snd d), snd (snd d) ++ [(k, v)])) P.
Proof.
  intros (H1 & H2 & H3 & H4) Hcap Hk Hv.
  destruct d as [closed [nm es]]. unfold Rep, close_doc in *.
  cbn [lk_sectIdx lk_paramIdx lk_sects lk_params fst snd] in *.
  rewrite total_app, total_single in H2. cbn [snd] in H2.
  repeat split.
  - exact H1.
  - rewrite total_app, total_single. cbn [snd]. rewrite length_snoc. lia.
  - intros i sec Hi.
    destruct (decide (i < length closed)%nat) as [Hlt|Hge].
    + rewrite lookup_app_l in Hi by exact Hlt.
      rewrite take_app_le by lia.
      rewrite !update_sect_ne by lia.
      assert (Hold : (closed ++ [(nm, es)]) !! i = Some sec)
        by (rewrite lookup_app_l by exact Hlt; exact Hi).
      specialize (H3 i sec Hold). rewrite take_app_le in H3 by lia.
      destruct H3 as (s & E1 & E2 & E3 & E4 & E5).
      exists s. repeat split; auto.
      intros j e Hj.
      assert (total (take i closed) + j < pidx)%nat.
      { apply lookup_lt_Some in Hj.
        pose proof (total_take_S closed i sec Hi).
        pose proof (total_take_le closed (S i) (length closed) ltac:(lia)).
        rewrite firstn_all in H0. lia. }
      rewrite list_lookup_insert_ne by lia. auto.
    + assert (i = length closed) as ->.
      { apply lookup_lt_Some in Hi. rewrite length_snoc in Hi. lia. }
      rewrite list_lookup_middle in Hi by reflexivity. injection Hi as <-.
      specialize (H3 (length closed) (nm, es) (list_lookup_middle _ _ _ _ eq_refl)).
      rewrite take_app_le, firstn_all in * by lia.
      destruct H3 as (s & E1 & E2 & E3 & E4 & E5). cbn [fst snd] in *.
      rewrite <- H1 in *.
      erewrite update_sect_eq; [|erewrite update_sect_eq; [reflexivity|exact E1]].
      eexists. split; [reflexivity|]. cbn [fst snd].
      assert (Hbase : pidx = (total closed + length es)%nat) by lia.
      repeat split.
      * unfold grow, first_param. destruct (params s); cbn; rewrite length_snoc; lia.
      * unfold grow, first_param. destruct (params s); cbn; exact E3.
      * unfold grow, first_param.
        destruct es as [|e0 es']; rewrite E4; cbn.
        -- simpl in Hbase. f_equal. lia.
        -- exact E4.
      * intros j e Hj.
        destruct (decide (j < length es)%nat) as [Hj'|Hj'].
        -- rewrite lookup_app_l in Hj by exact Hj'.
           rewrite list_lookup_insert_ne by lia. auto.
        -- assert (j = length es) as ->.
           { apply lookup_lt_Some in Hj. rewrite length_snoc in Hj. lia. }
           rewrite list_lookup_middle in Hj by reflexivity. injection Hj as <-.
           rewrite <- Hbase, list_lookup_insert_eq by exact Hcap.
           eexists. split; [reflexivity|]. cbn. auto.
  - intros j p Hj.
    destruct (decide (j = pidx)) as [->|Hne]; [lia|].
    rewrite list_lookup_insert_ne in Hj by auto.
    apply H4 in Hj. lia.
Qed.

(** ** One line of pass 2 *)

Lemma cstring_of_nul_free (z : list byte) : nul_free (cstring_of z).
Proof.
  induction z as [|c z IH]; simpl; [constructor|].
  destruct (c =? 0) eqn:E; [constructor|].
  constructor; [now apply Z.eqb_neq|exact IH].
Qed.

Lemma cstring_split (z : list byte) : exists junk, z ++ [0] = cstring_of z ++ 0 :: junk.
Proof.
  induction z as [|c z (junk & IH)]; simpl.
  - exists []. reflexivity.
  - destruct (c =? 0) eqn:E.
    + apply Z.eqb_eq in E. subst c. exists (z ++ [0]). reflexivity.
    + exists junk. simpl. now rewrite IH.
Qed.

Lemma seg_shape (l : list byte) :
  exists junk, seg l = span_while is_blank l ++ line_text l ++ 0 :: junk.
Proof.
  unfold seg, line_text.
  destruct (cstring_split (map nul_eol (skip_while is_blank l))) as (junk & Hj).
  exists junk. rewrite <- Hj.
  rewrite <- (span_skip is_blank l) at 1.
  rewrite map_app, map_nul_eol_blanks by apply span_all.
  now rewrite <- app_assoc.
Qed.

Lemma length_seg (l : list byte) : length (seg l) = (length l + 1)%nat.
Proof. unfold seg. rewrite length_app, length_map. reflexivity. Qed.

Lemma not_comment_split (c : byte) :
  is_comment c = false -> negb (c =? HASH) && negb (c =? SEMI) = true.
Proof.
  unfold is_comment. intros H. apply orb_false_iff in H as [H1 H2].
  now rewrite H1, H2.
Qed.

Lemma comment_split (c : byte) :
  is_comment c = true -> negb (c =? HASH) && negb (c =? SEMI) = false.
Proof.
  unfold is_comment. intros H.
  destruct (c =? HASH); [reflexivity|]. simpl in *. now rewrite H.
Qed.

(** The body of the linking loop on a line with text [t], against the
    linker on texts. *)
Lemma link_line_step (t Q R : list byte) (fsize : nat)
    (sects : list (option ConfreaderSection)) (table : list (option ConfreaderParam))
    (sidx pidx : nat) (d : list SpecSection * SpecSection) :
  nul_free t ->
  fsize = length (Q ++ t ++ 0 :: R) ->
  Rep (mkLink (Q ++ t ++ 0 :: R) sects table sidx pidx) d Q ->
  (is_header_text t = true -> (S sidx < length sects)%nat) ->
  (is_param_text t = true -> (pidx < length table)%nat) ->
  match link_text d t with
  | None => link_line fsize (length Q) (mkLink (Q ++ t ++ 0 :: R) sects table sidx pidx) = None
  | Some d' =>
      exists tz l',
        length tz = S (length t) /\
        link_line fsize (length Q) (mkLink (Q ++ t ++ 0 :: R) sects table sidx pidx) = Some l' /\
        lk_buf l' = Q ++ tz ++ R /\
        Rep l' d' (Q ++ tz) /\
        length (lk_sects l') = length sects /\
        length (lk_params l') = length table /\
        lk_sectIdx l' = (if is_header_text t then S sidx else sidx) /\
        lk_paramIdx l' = (if is_param_text t then S pidx else pidx)
  end.
Proof.
  intros Hnul Hsize HRep Hcs Hcp.
  unfold link_line, link_text. cbn [lk_buf].
  destruct t as [|c t'].
  - simpl. rewrite rd_middle. simpl.
    exists [0], (mkLink (Q ++ 0 :: R) sects table sidx pidx).
    split; [reflexivity|]. split; [reflexivity|]. split; [reflexivity|].
    split; [apply Rep_mono; exact HRep|]. auto.
  - apply nul_free_cons in Hnul as [Hc Hnul].
    change ((c :: t') ++ 0 :: R) with (c :: t' ++ 0 :: R) in *.
    rewrite rd_middle.
    cbn [is_header_text is_param_text] in *.
    destruct (c =? LBRACKET) eqn:Elb.
    + apply Z.eqb_eq in Elb. subst c.
      pose proof (link_section_spec t' Q R fsize sects table sidx pidx Hnul Hsize) as H.
      destruct (parse_header t') as [nm|]; [|exact H].
      destruct H as (tz & Hlen & Hlink & Hreads).
      exists tz. eexists. split; [exact Hlen|]. split; [exact Hlink|].
      cbn [lk_buf lk_sects lk_params lk_sectIdx lk_paramIdx].
      split; [reflexivity|]. split; [|split; [|split; [|split]]]; auto.
      * eapply Rep_header; [apply Rep_mono; exact HRep|auto|exact Hreads].
      * apply length_insert.
    + cbn [negb andb] in *. destruct (is_comment c) eqn:Ecom.
      * rewrite (comment_split c Ecom). cbn [andb].
        exists (c :: t' ++ [0]), (mkLink (Q ++ c :: t' ++ 0 :: R) sects table sidx pidx).
        split; [cbn [length]; rewrite length_app; simpl; lia|].
        split; [reflexivity|].
        split; [cbn [lk_buf]; norm_app; reflexivity|].
        split; [apply Rep_mono; exact HRep|]. auto.
      * rewrite (not_comment_split c Ecom). apply Z.eqb_neq in Hc. rewrite Hc.
        cbn [negb andb].
        assert (Hnul' : nul_free (c :: t')) by (constructor; [now apply Z.eqb_neq|exact Hnul]).
        pose proof (link_param_spec (c :: t') Q R fsize sects table sidx pidx Hnul' Hsize) as H.
        change ((c :: t') ++ 0 :: R) with (c :: t' ++ 0 :: R) in H.
        destruct (parse_param (c :: t')) as [[k v]|]; [|exact H].
        destruct H as (tz & voff & Hlen & Hlink & Hk & Hv).
        exists tz. eexists. split; [exact Hlen|]. split; [exact Hlink|].
        cbn [lk_buf lk_sects lk_params lk_sectIdx lk_paramIdx].
        split; [reflexivity|]. split; [|split; [|split; [|split]]]; auto.
        -- eapply Rep_param; [apply Rep_mono; exact HRep|auto|exact Hk|exact Hv].
        -- rewrite !update_sect_length. reflexivity.
        -- apply length_insert.
Qed.

(** ** The linking loop *)

Lemma header_text_first_byte (l : list byte) :
  is_header_text (line_text l) = (first_byte l =? LBRACKET).
Proof.
  unfold line_text, first_byte, is_header_text.
  destruct (skip_while is_blank l) as [|c r]; [reflexivity|]. simpl.
  unfold nul_eol.
  destruct (c =? CR) eqn:E1; simpl.
  - apply Z.eqb_eq in E1. subst c. reflexivity.
  - destruct (c =? LF) eqn:E2; simpl.
    + apply Z.eqb_eq in E2. subst c. reflexivity.
    + destruct (c =? 0) eqn:E3; [|reflexivity].
      apply Z.eqb_eq in E3. subst c. reflexivity.
Qed.

Lemma count_sects_ge (ls : list (list byte)) (n : nat) : (n <= count_sects n ls)%nat.
Proof.
  revert n. induction ls as [|l ls IH]; intros n; simpl; [lia|].
  unfold bump_sects. destruct (first_byte l =? LBRACKET).
  - specialize (IH (S n)). lia.
  - apply IH.
Qed.

Lemma link_lines_spec (ls : list (list byte)) :
  forall (P : list byte) (l : Link) (d : list SpecSection * SpecSection)
         (done lines : list nat) (fsize pc : nat) (l' : Link),
  lk_buf l = P ++ concat (map seg ls) ->
  fsize = length (lk_buf l) ->
  lines = done ++ line_starts (length P) ls ->
  Rep l d P ->
  (count_sects (S (lk_sectIdx l)) ls <= length (lk_sects l))%nat ->
  length (lk_params l) = pc ->
  link_lines (length ls) fsize pc lines (length done) l = inl l' ->
  exists ls1 ls2 d' P',
    ls = ls1 ++ ls2 /\
    link_texts d (map line_text ls1) = Some d' /\
    Rep l' d' P' /\
    lk_buf l' = P' ++ concat (map seg ls2) /\
    (ls2 = [] \/ (pc <= lk_paramIdx l')%nat) /\
    (S (lk_sectIdx l') <= length (lk_sects l'))%nat /\
    length (lk_params l') = pc /\
    length (lk_sects l') = length (lk_sects l).
Proof.
  induction ls as [|l0 ls IH];
    intros P l d done lines fsize pc l' Hbuf Hsize Hlines HRep Hcap Hpc Hrun.
  - simpl in Hrun. injection Hrun as <-.
    exists [], [], d, P. simpl in *.
    split; [reflexivity|]. split; [reflexivity|]. split; [exact HRep|].
    split; [exact Hbuf|]. split; [now left|]. auto.
  - cbn [length link_lines] in Hrun.
    destruct (pc <=? lk_paramIdx l)%nat eqn:Efull.
    + injection Hrun as <-. apply Nat.leb_le in Efull.
      exists [], (l0 :: ls), d, P.
      split; [reflexivity|]. split; [reflexivity|]. split; [exact HRep|].
      split; [exact Hbuf|]. split; [now right|].
      split; [|auto]. pose proof (count_sects_ge (l0 :: ls) (S (lk_sectIdx l))). lia.
    + apply Nat.leb_gt in Efull.
      destruct (seg_shape l0) as (junk & Hseg).
      set (ws := span_while is_blank l0) in *.
      set (t := line_text l0) in *.
      assert (Hstart : default 0%nat (lines !! length done) = length (P ++ ws)).
      { rewrite Hlines. cbn [line_starts]. rewrite list_lookup_middle by reflexivity.
        simpl. now rewrite length_app. }
      rewrite Hstart in Hrun.
      destruct l as [buf sects table sidx pidx].
      cbn [lk_buf lk_sects lk_params lk_sectIdx lk_paramIdx] in *.
      assert (Hbuf' : buf = (P ++ ws) ++ t ++ 0 :: (junk ++ concat (map seg ls))).
      { rewrite Hbuf. cbn [map concat]. rewrite Hseg. norm_app. reflexivity. }
      rewrite Hbuf' in Hrun.
      assert (Hnul : nul_free t) by apply cstring_of_nul_free.
      assert (Hsize' : fsize = length ((P ++ ws) ++ t ++ 0 :: junk ++ concat (map seg ls)))
        by (rewrite <- Hbuf'; exact Hsize).
      assert (Hhdr : is_header_text t = (first_byte l0 =? LBRACKET))
        by apply header_text_first_byte.
      cbn [count_sects] in Hcap. unfold bump_sects in Hcap. rewrite <- Hhdr in Hcap.
      pose proof (link_line_step t (P ++ ws) (junk ++ concat (map seg ls)) fsize
                    sects table sidx pidx d Hnul Hsize') as Hstep.
      destruct (link_text d t) as [d1|] eqn:Etext.
      * destruct Hstep as (tz & l1 & Hlen & Hline & Hbuf1 & HRep1 & Hls & Hlp & Hsi & Hpi).
        -- apply Rep_mono. exact HRep.
        -- intros Hh. rewrite Hh in Hcap.
           pose proof (count_sects_ge ls (S (S sidx))). lia.
        -- intros _. lia.
        -- rewrite Hline in Hrun.
           replace (S (length done)) with (length (done ++ [length (P ++ ws)]))
             in Hrun by (rewrite length_snoc; reflexivity).
           assert (Hseg_len : length ((P ++ ws) ++ tz ++ junk) = (length P + length l0 + 1)%nat).
           { pose proof (length_seg l0) as Hl. rewrite Hseg in Hl.
             rewrite !length_app in *. cbn [length] in *. lia. }
           destruct (IH ((P ++ ws) ++ tz ++ junk) l1 d1 (done ++ [length (P ++ ws)])
                       lines fsize pc l') as (ls1 & ls2 & d' & P' & H1 & H2 & H3 & H4 & H5 & H6 & H7 & H8).
           ++ rewrite Hbuf1. norm_app. reflexivity.
           ++ rewrite Hbuf1, Hsize'. rewrite !length_app. cbn [length].
              rewrite !length_app. lia.
           ++ rewrite Hlines. cbn [line_starts]. rewrite Hseg_len.
              rewrite <- app_assoc. simpl. now rewrite length_app.
           ++ replace ((P ++ ws) ++ tz ++ junk) with (((P ++ ws) ++ tz) ++ junk)
                by (norm_app; reflexivity).
              apply Rep_mono. exact HRep1.
           ++ rewrite Hsi, Hls. destruct (is_header_text t); exact Hcap.
           ++ rewrite Hlp. exact Hpc.
           ++ exact Hrun.
           ++ exists (l0 :: ls1), ls2, d', P'.
              split; [rewrite H1; reflexivity|].
              split; [cbn [map link_texts]; fold t; rewrite Etext; exact H2|].
              split; [exact H3|]. split; [exact H4|]. split; [exact H5|].
              split; [exact H6|]. split; [exact H7|]. rewrite H8. exact Hls.
      * rewrite Hstep in Hrun; [discriminate| | |].
        -- apply Rep_mono. exact HRep.
        -- intros Hh. rewrite Hh in Hcap.
           pose proof (count_sects_ge ls (S (S sidx))). lia.
        -- intros _. lia.
Qed.

(** ** The linker on texts: what it stores *)

Lemma upto_comment_scan (l : list byte) (p : byte) (n : nat) :
  scan_value p l = Some n -> upto_comment p l = take n l.
Proof.
  revert p n. induction l as [|c l IH]; intros p n; simpl.
  - intros [= <-]. reflexivity.
  - destruct (is_comment c) eqn:Ec; simpl.
    + destruct (is_blank p); [|discriminate]. intros [= <-]. reflexivity.
    + destruct (scan_value c l) as [m|] eqn:E; simpl; [|discriminate].
      intros [= <-]. simpl. f_equal. apply IH. exact E.
Qed.

Lemma upto_comment_first (p p' c : byte) (l : list byte) :
  is_comment c = false -> upto_comment p (c :: l) = upto_comment p' (c :: l).
Proof. intros H. simpl. now rewrite H. Qed.

Lemma skip_sep_cons (s0 : byte) (r : list byte) :
  is_sep s0 = true -> skip_while is_sep (s0 :: r) = skip_while is_sep r.
Proof. intros H. simpl. now rewrite H. Qed.

(** The key and the value [link_param] stores are the key and the value of
    the specification. *)
Lemma parse_param_spec (t k v : list byte) :
  parse_param t = Some (k, v) -> k = spec_key t /\ v = spec_value t.
Proof.
  unfold parse_param, spec_key, spec_value.
  destruct (skip_while is_keych t) as [|s0 r] eqn:Erest; [discriminate|].
  assert (Hs0 : is_sep s0 = true) by (apply sep_not_keych; eapply skip_head; exact Erest).
  rewrite (skip_sep_cons s0 r Hs0).
  destruct (skip_while is_sep r) as [|c v'] eqn:Ev; [discriminate|].
  destruct (is_comment c) eqn:Ec; [discriminate|].
  destruct (scan_value 0 (c :: v')) as [n|] eqn:Escan; [|discriminate].
  intros [= <- <-]. split; [reflexivity|].
  rewrite (upto_comment_first _ 0 c v' Ec).
  now rewrite (upto_comment_scan _ _ _ Escan).
Qed.

Lemma trim_right_sub (l : list byte) (P : byte -> Prop) :
  Forall P l -> Forall P (trim_right l).
Proof.
  intros H. rewrite <- (trim_right_prefix l). now apply Forall_take.
Qed.

Lemma trim_right_last (l : list byte) :
  trim_right l <> [] -> is_blank (List.last (trim_right l) 0) = false.
Proof.
  induction l as [|c l IH]; simpl; [congruence|].
  destruct (trim_right l) as [|d r] eqn:E.
  - destruct (is_blank c) eqn:Ec; [congruence|]. intros _. exact Ec.
  - intros _. change (List.last (c :: d :: r) 0) with (List.last (d :: r) 0).
    apply IH. discriminate.
Qed.

Lemma Forall_last (P : byte -> Prop) (l : list byte) (dflt : byte) :
  l <> [] -> Forall P l -> P (List.last l dflt).
Proof.
  intros Hne H. induction H as [|c l Hc Hl IH]; [congruence|].
  destruct l as [|d l']; [exact Hc|].
  change (List.last (c :: d :: l') dflt) with (List.last (d :: l') dflt).
  apply IH. discriminate.
Qed.

(** Every value [link_param] stores is a [good_value]. *)
Lemma parse_param_good (t k v : list byte) :
  nul_free t -> parse_param t = Some (k, v) -> good_value v.
Proof.
  intros Hnul. unfold parse_param.
  pose proof (skip_nul_free is_keych t Hnul) as Hrest.
  destruct (skip_while is_keych t) as [|s0 r] eqn:Erest; [discriminate|].
  apply nul_free_cons in Hrest as [_ Hr].
  pose proof (skip_nul_free is_sep r Hr) as Hv.
  destruct (skip_while is_sep r) as [|c v'] eqn:Ev; [discriminate|].
  assert (Hc_blank : is_blank c = false).
  { destruct (is_blank c) eqn:E; [|reflexivity]. apply blank_is_sep in E.
    apply skip_head in Ev. congruence. }
  destruct (is_comment c) eqn:Ec; [discriminate|].
  destruct (scan_value 0 (c :: v')) as [n|] eqn:Escan; [|discriminate].
  intros [= <- <-].
  pose proof (scan_value_no_comment _ _ _ Escan) as Hnc.
  assert (Hn : exists n', n = S n').
  { simpl in Escan. rewrite Ec in Escan.
    destruct (scan_value c v'); [|discriminate]. injection Escan as <-. eauto. }
  destruct Hn as (n' & ->).
  change (take (S n') (c :: v')) with (c :: take n' v') in *.
  destruct (trim_right_first c (take n' v') Hc_blank) as (tr & Htr).
  assert (Hplain : Forall (fun x => is_comment x = false /\ x <> 0) (trim_right (c :: take n' v'))).
  { apply trim_right_sub. apply Forall_and. split; [exact Hnc|].
    change (c :: take n' v') with (take (S n') (c :: v')). apply Forall_take. exact Hv. }
  assert (Hne : trim_right (c :: take n' v') <> []) by (rewrite Htr; discriminate).
  pose proof (trim_right_last _ Hne) as Hlast.
  pose proof (Forall_last _ _ 0 Hne Hplain) as [Hl1 Hl2].
  split; [exact Hne|]. split.
  - rewrite Htr. simpl. unfold plain. rewrite Hc_blank, Ec.
    apply nul_free_cons in Hv as [Hc0 _]. apply Z.eqb_neq in Hc0. now rewrite Hc0.
  - unfold plain. rewrite Hlast, Hl1. apply Z.eqb_neq in Hl2. now rewrite Hl2.
Qed.

Lemma parse_header_spec (t nm : list byte) : parse_header t = Some nm -> nm = spec_name t.
Proof.
  unfold parse_header, spec_name.
  destruct (skip_while not_rbracket t) as [|b r]; [discriminate|].
  destruct (skip_while is_blank r) as [|c r']; [now intros [= <-]|].
  destruct (is_comment c); [now intros [= <-]|discriminate].
Qed.

(** A successful step of the linker is a step of the specification. *)
Lemma link_text_add_line d t d' : link_text d t = Some d' -> d' = add_line d t.
Proof.
  unfold link_text, add_line. destruct t as [|c t']; [now intros [= <-]|].
  destruct (c =? LBRACKET).
  - destruct (parse_header t') as [nm|] eqn:E; [|discriminate].
    intros [= <-]. now rewrite (parse_header_spec _ _ E).
  - destruct (is_comment c); [now intros [= <-]|].
    destruct (parse_param (c :: t')) as [[k v]|] eqn:E; [|discriminate].
    intros [= <-]. destruct (parse_param_spec _ _ _ E) as [-> ->]. reflexivity.
Qed.

Lemma link_texts_fold ts : forall d d',
  link_texts d ts = Some d' -> d' = fold_left add_line ts d.
Proof.
  induction ts as [|t ts IH]; intros d d'; simpl; [now intros [= <-]|].
  destruct (link_text d t) as [d1|] eqn:E; [|discriminate].
  intros H. apply IH in H. now rewrite <- (link_text_add_line _ _ _ E).
Qed.

Lemma good_doc_app (a b : list SpecSection) : good_doc (a ++ b) <-> good_doc a /\ good_doc b.
Proof. apply Forall_app. Qed.

Lemma link_text_good d t d' :
  nul_free t -> link_text d t = Some d' ->
  good_doc (close_doc d) -> named_tail (close_doc d) ->
  good_doc (close_doc d') /\ named_tail (close_doc d').
Proof.
  intros Hnul. unfold link_text, close_doc.
  destruct d as [closed [nm es]]. cbn [fst snd].
  destruct t as [|c t']; [now intros [= <-]|].
  destruct (c =? LBRACKET).
  - destruct (parse_header t') as [n|]; [|discriminate].
    intros [= <-] Hg Hn. cbn [fst snd]. split.
    + apply good_doc_app. split; [exact Hg|]. repeat constructor.
    + unfold named_tail in *.
      destruct closed as [|s0 closed']; simpl in *.
      * repeat constructor. discriminate.
      * apply Forall_app. split; [exact Hn|]. repeat constructor. discriminate.
  - destruct (is_comment c); [now intros [= <-]|].
    destruct (parse_param (c :: t')) as [[k v]|] eqn:E; [|discriminate].
    intros [= <-] Hg Hn. cbn [fst snd].
    apply good_doc_app in Hg as [Hg1 Hg2]. split.
    + apply good_doc_app. split; [exact Hg1|].
      inversion Hg2 as [|? ? Hes _]; subst. constructor; [|constructor].
      cbn [snd] in *. apply Forall_app. split; [exact Hes|].
      constructor; [|constructor]. cbn [snd]. eapply parse_param_good; eauto.
    + unfold named_tail in *.
      destruct closed as [|s0 closed']; simpl in *; [constructor|].
      apply Forall_app in Hn as [Hn1 Hn2]. apply Forall_app. split; [exact Hn1|].
      inversion Hn2; subst. constructor; auto.
Qed.

Lemma link_texts_good ts : forall d d',
  Forall nul_free ts -> link_texts d ts = Some d' ->
  good_doc (close_doc d) -> named_tail (close_doc d) ->
  good_doc (close_doc d') /\ named_tail (close_doc d').
Proof.
  induction ts as [|t ts IH]; intros d d' Hts; simpl.
  - intros [= <-]. auto.
  - inversion Hts as [|? ? Ht Hts']; subst.
    destruct (link_text d t) as [d1|] eqn:E; [|discriminate].
    intros H Hg Hn. destruct (link_text_good _ _ _ Ht E Hg Hn).
    eapply IH; eauto.
Qed.

(** ** A successful parse, end to end *)

Lemma crlf_bad_split (l : list byte) :
  crlf_ok l = false ->
  exists pre rest, l = pre ++ CR :: rest /\ crlf_ok pre = true /\ hd 0 rest <> LF.
Proof.
  induction l as [|c l IH]; simpl; [discriminate|].
  destruct (c =? CR) eqn:Ec.
  - apply Z.eqb_eq in Ec. subst c.
    destruct l as [|d l'].
    + intros _. exists [], []. repeat split. discriminate.
    + destruct (d =? LF) eqn:Ed; simpl.
      * intros H. destruct (IH H) as (pre & rest & Hl & Hpre & Hrest).
        exists (CR :: pre), rest. split; [now rewrite Hl|]. split; [|exact Hrest].
        destruct pre as [|p pre']; simpl in Hl.
        -- injection Hl as -> _. discriminate.
        -- injection Hl as <- _. simpl. rewrite Ed. exact Hpre.
      * intros _. exists [], (d :: l'). repeat split. simpl.
        now apply Z.eqb_neq.
  - intros H. destruct (IH H) as (pre & rest & Hl & Hpre & Hrest).
    exists (c :: pre), rest. split; [now rewrite Hl|]. split; [|exact Hrest].
    simpl. now rewrite Ec.
Qed.

Lemma snoc_split {A} (l a b : list A) (x : A) :
  l ++ [x] = a ++ b -> b <> [] -> exists b', b = b' ++ [x] /\ l = a ++ b'.
Proof.
  intros H Hb. destruct b as [|y b0] using rev_ind; [congruence|].
  rewrite app_assoc in H. apply app_inj_tail in H as [H1 H2]. subst.
  eauto.
Qed.

(** Pass 1 fails on every input with a carriage return that no line feed
    follows. *)
Lemma split_lines_fail_iff (content : list byte) :
  crlf_ok (content ++ [LF]) = false ->
  let buf := content ++ [LF] in
  exists sp,
    split_lines (length buf) (length buf)
      (mkSplit buf (replicate (count_lf buf) 0%nat) 0 0 1) 0 = SplitFail sp.
Proof.
  intros Hbad buf.
  destruct (crlf_bad_split _ Hbad) as (pre & rest & Hl & Hpre & Hrest).
  destruct rest as [|c rest'].
  { exfalso. symmetry in Hl. apply app_inj_tail in Hl as [_ Hl]. discriminate. }
  simpl in Hrest.
  destruct rest' as [|c' rest''] using rev_ind.
  { exfalso. symmetry in Hl.
    change (pre ++ [CR; c]) with (pre ++ [CR] ++ [c]) in Hl.
    rewrite app_assoc in Hl. apply app_inj_tail in Hl as [_ Hl]. congruence. }
  clear IHrest''.
  assert (Hc : content = pre ++ CR :: c :: rest'' /\ c' = LF).
  { change (pre ++ CR :: c :: rest'' ++ [c']) with (pre ++ (CR :: c :: rest'') ++ [c']) in Hl.
    rewrite app_assoc in Hl. apply app_inj_tail in Hl as [H1 H2]. auto. }
  destruct Hc as [Hc ->].
  destruct (split_lines_fail pre rest'' c Hrest Hpre) as (sp & Hsp & _).
  exists sp. subst buf. rewrite Hc. exact Hsp.
Qed.

Lemma map_nul_eol_flat (ls : list (list byte)) :
  map nul_eol (flat ls) = concat (map seg ls).
Proof.
  induction ls as [|l ls IH]; [reflexivity|].
  rewrite flat_cons, map_app. cbn [map concat]. rewrite IH.
  unfold seg. now rewrite <- app_assoc.
Qed.

Lemma Rep_initial (buf : list byte) (sc pc : nat) :
  (1 <= sc)%nat ->
  Rep (mkLink buf (<[0%nat := Some (mkSection 0 None None)]> (replicate sc None))
         (replicate pc None) 0 0)
      ([], (None, [])) [].
Proof.
  intros Hsc. unfold Rep, close_doc.
  cbn [lk_sectIdx lk_paramIdx lk_sects lk_params fst snd].
  split; [reflexivity|]. split; [reflexivity|]. split.
  - intros i sec Hi. destruct i as [|i]; [|discriminate].
    injection Hi as <-. rewrite list_lookup_insert_eq by (rewrite length_replicate; lia).
    eexists. split; [reflexivity|]. cbn. repeat split; auto.
    intros j e Hj. discriminate.
  - intros j p Hj. apply lookup_replicate in Hj as [Hj _]. discriminate.
Qed.

(** The state a successful [link_buffer] leaves. *)
Lemma link_buffer_ok (w : World) (fsize : nat) (sp : Split) (s : State) :
  fst (link_buffer w fsize sp s) = CONFREADER_OK ->
  exists l',
    link_lines (confreader_lineCount s) fsize (sp_paramCount sp) (sp_lines sp) 0
      (mkLink (sp_buf sp)
         (<[0%nat := Some (mkSection 0 None None)]> (replicate (sp_sectCount sp) None))
         (replicate (sp_paramCount sp) None) 0 0) = inl l' /\
    let s' := snd (link_buffer w fsize sp s) in
    confreader_fileBuf s' = Some (lk_buf l') /\
    confreaderSects s' = Some (lk_sects l') /\
    confreader_params s' = Some (lk_params l') /\
    confreaderSectCount s' = sp_sectCount sp /\
    confreader_paramCount s' = sp_paramCount sp /\
    confreader_lines s' = None /\
    confreaderErrorNum s' = CONFREADER_OK.
Proof.
  destruct s as [fb ln lc pa pc en el se sc hp].
  unfold link_buffer, malloc. cbn [confreader_lineCount set_fileBuf set_lines set_paramCount set_sectCount].
  destruct (w_malloc w BParams); [|destruct fb, ln, pa, se; discriminate].
  cbn [set_heap set_params heap_live].
  destruct (w_malloc w BSects); [|destruct fb, ln, pa, se; discriminate].
  cbn [set_heap set_sects heap_live confreader_lineCount].
  destruct (link_lines _ _ _ _ _ _) as [l'|line] eqn:E.
  - intros _. exists l'. split; [reflexivity|]. cbn. auto 10.
  - intros H. exfalso. revert H. cbn. discriminate.
Qed.

(** After a successful parse of a file that is not empty, the tables
    represent what the linker on texts makes of the lines [ls1] it went
    through; the lines [ls2] it did not reach hold no parameter line it
    counted. *)
Lemma parse_success_rep (w : World) (s : State) (content : list byte) :
  w_file w = Contents content ->
  content <> [] ->
  fst (confreaderParseFile w s) = CONFREADER_OK ->
  exists ls1 ls2 d' P' l',
    raw_lines content = ls1 ++ ls2 /\
    link_texts ([], (None, [])) (map line_text ls1) = Some d' /\
    Rep l' d' P' /\
    lk_buf l' = P' ++ concat (map seg ls2) /\
    (ls2 = [] \/ (count_params1 0 (raw_lines content) <= lk_paramIdx l')%nat) /\
    (S (lk_sectIdx l') <= length (lk_sects l'))%nat /\
    length (lk_params l') = count_params1 0 (raw_lines content) /\
    crlf_ok (content ++ [LF]) = true /\
    let s' := snd (confreaderParseFile w s) in
    confreader_fileBuf s' = Some (lk_buf l') /\
    confreaderSects s' = Some (lk_sects l') /\
    confreader_params s' = Some (lk_params l') /\
    confreaderSectCount s' = length (lk_sects l') /\
    confreaderErrorNum s' = CONFREADER_OK.
Proof.
  intros Hfile Hne Hok.
  destruct (confreader_fileBuf s) as [b|] eqn:Hbuf.
  { rewrite (parse_busy w s b Hbuf) in Hok. discriminate. }
  destruct (w_malloc w BFileBuf) eqn:Hm1.
  2:{ exfalso. revert Hok. unfold confreaderParseFile.
      destruct s as [fb ln lc pa pc en el se sc hp]. simpl in Hbuf. subst fb.
      cbn [set_errorLineNum confreader_fileBuf]. rewrite Hfile.
      destruct content; [congruence|]. cbn [length Nat.eqb].
      unfold malloc. cbn [confreaderInit]. rewrite Hm1. discriminate. }
  destruct (w_malloc w BLines) eqn:Hm2.
  2:{ exfalso. revert Hok. unfold confreaderParseFile.
      destruct s as [fb ln lc pa pc en el se sc hp]. simpl in Hbuf. subst fb.
      cbn [set_errorLineNum confreader_fileBuf]. rewrite Hfile.
      destruct content; [congruence|]. cbn [length Nat.eqb].
      unfold malloc. cbn [confreaderInit]. rewrite Hm1.
      unfold split_buffer, malloc. rewrite Hm2. discriminate. }
  destruct (parse_reaches_split w s content Hfile Hne Hm1 Hm2 Hbuf)
    as (s1 & Hparse & Hlc & _).
  rewrite Hparse in *. clear Hparse.
  destruct (crlf_ok (content ++ [LF])) eqn:Hcr.
  2:{ exfalso. destruct (split_lines_fail_iff content Hcr) as (sp & Hsp).
      cbn zeta in Hsp. rewrite Hsp in Hok.
      destruct (parse_error_fields (sp_lineIdx sp)
                  (set_fileBuf (Some (sp_buf sp))
                     (set_lines (Some (sp_lines sp))
                        (set_paramCount (sp_paramCount sp)
                           (set_sectCount (sp_sectCount sp) s1))))) as [H _].
      rewrite H in Hok. discriminate. }
  pose proof (split_lines_ok content Hcr) as Hsplit. cbn zeta in Hsplit.
  rewrite Hsplit in *. clear Hsplit.
  destruct (link_buffer_ok _ _ _ _ Hok) as (l' & Hrun & Hst).
  cbn [sp_buf sp_lines sp_paramCount sp_sectCount] in *.
  pose proof (raw_lines_flat content) as Hflat.
  pose proof (raw_lines_lf_free content) as Hlf.
  set (ls := raw_lines content) in *.
  rewrite Hlc, Hflat, count_lf_flat in Hrun by exact Hlf.
  rewrite map_nul_eol_flat in Hrun.
  assert (Hsc : (1 <= count_sects 1 ls)%nat) by apply count_sects_ge.
  pose proof (link_lines_spec ls []
                (mkLink (concat (map seg ls))
                   (<[0%nat := Some (mkSection 0 None None)]>
                      (replicate (count_sects 1 ls) None))
                   (replicate (count_params1 0 ls) None) 0 0)
                ([], (None, [])) [] (line_starts 0 ls)
                (length (flat ls)) (count_params1 0 ls) l') as Hspec.
  cbn [lk_buf lk_sects lk_params lk_sectIdx lk_paramIdx length app] in Hspec.
  destruct Hspec as (ls1 & ls2 & d' & P' & H1 & H2 & H3 & H4 & H5 & H6 & H7 & H8).
  - reflexivity.
  - rewrite <- map_nul_eol_flat. now rewrite length_map.
  - reflexivity.
  - apply Rep_initial. exact Hsc.
  - rewrite length_insert, length_replicate. lia.
  - apply length_replicate.
  - exact Hrun.
  - exists ls1, ls2, d', P', l'.
    rewrite length_insert, length_replicate in H8.
    destruct Hst as (S1 & S2 & S3 & S4 & S5 & S6 & S7).
    split; [exact H1|]. split; [exact H2|]. split; [exact H3|]. split; [exact H4|].
    split; [exact H5|]. split; [exact H6|]. split; [exact H7|]. split; [reflexivity|].
    cbn zeta. rewrite H8. auto 10.
Qed.

(** ** Lookup in the tables against lookup in the document *)

Lemma find_param_spec (buf P X : list byte) (table : list (option ConfreaderParam))
    (k : list byte) (es : list (list byte * list byte)) (base : nat) (bopt : option nat) :
  buf = P ++ X ->
  (es <> [] -> bopt = Some base) ->
  (forall j e, es !! j = Some e -> entry_rep P (table !! (base + j)%nat) e) ->
  forall n j0, (j0 + n = length es)%nat ->
  match lookup_key k (drop j0 es) with
  | Some v => exists vp, find_param buf table k bopt n j0 = Defined (Some vp) /\
                         cstr buf vp = v
  | None => find_param buf table k bopt n j0 = Defined None
  end.
Proof.
  intros Hbuf Hb Hes. induction n as [|n IH]; intros j0 Hlen.
  - rewrite drop_ge by lia. reflexivity.
  - assert (Hlt : (j0 < length es)%nat) by lia.
    destruct (lookup_lt_is_Some_2 es j0 Hlt) as [[k' v'] Hj].
    rewrite (drop_S _ _ _ Hj). cbn [lookup_key find_param].
    assert (Hbo : bopt = Some base) by (apply Hb; intros ->; discriminate).
    subst bopt.
    destruct (Hes _ _ Hj) as (p & Hslot & Hk & Hv). rewrite Hslot.
    cbn [fst snd] in *. rewrite Hbuf, (Hk X), <- Hbuf.
    destruct (strcasecmp_eq k k').
    + exists (value p). split; [reflexivity|]. rewrite Hbuf. apply Hv.
    + apply IH. lia.
Qed.

Lemma find_param_slot (buf : list byte) (table : list (option ConfreaderParam))
    (k : list byte) (bopt : option nat) (n j0 vp : nat) :
  find_param buf table k bopt n j0 = Defined (Some vp) ->
  exists i p, table !! i = Some (Some p) /\ value p = vp.
Proof.
  revert j0. induction n as [|n IH]; intros j0; simpl; [discriminate|].
  destruct bopt as [b|]; [|discriminate].
  destruct (table !! (b + j0)%nat) as [[p|]|] eqn:E; try discriminate.
  destruct (strcasecmp_eq k (cstr buf (key p))).
  - intros [= <-]. eauto.
  - apply IH.
Qed.

Lemma lookup_sect_app (sec : list byte) (a b : list SpecSection) :
  lookup_sect sec (a ++ b)
  = match lookup_sect sec a with
    | Some x => Some x
    | None => lookup_sect sec b
    end.
Proof.
  induction a as [|[[n|] es] a IH]; simpl; auto.
  destruct (strcasecmp_eq sec n); auto.
Qed.

Lemma find_sect_spec (buf P X : list byte) (sects : list (option ConfreaderSection))
    (table : list (option ConfreaderParam)) (sec : list byte) (doc : list SpecSection) :
  buf = P ++ X ->
  doc_rep P sects table doc ->
  named_tail doc ->
  forall n i0, (1 <= i0)%nat -> (length doc <= i0 + n)%nat ->
  match lookup_sect sec (drop i0 doc) with
  | Some sp =>
      exists i si, find_sect buf sects sec n i0 = Defined (Some si) /\
                   doc !! i = Some sp /\
                   sect_rep P table (total (take i doc)) (Some (Some si)) sp
  | None => True
  end.
Proof.
  intros Hbuf Hrep Hnamed. induction n as [|n IH]; intros i0 Hi0 Hlen.
  - rewrite drop_ge by lia. exact I.
  - destruct (doc !! i0) as [[nm es]|] eqn:Hi.
    2:{ rewrite drop_ge by (apply lookup_ge_None; exact Hi). exact I. }
    rewrite (drop_S _ _ _ Hi). cbn [lookup_sect find_sect].
    assert (Hnm : nm <> None).
    { unfold named_tail in Hnamed. rewrite Forall_lookup in Hnamed.
      destruct i0 as [|i1]; [lia|].
      assert (Ht : tail doc !! i1 = Some (nm, es)).
      { destruct doc; [discriminate|]. exact Hi. }
      exact (Hnamed _ _ Ht). }
    destruct nm as [n0|]; [|congruence].
    pose proof (Hrep _ _ Hi) as Hsr.
    destruct Hsr as (s & Hslot & Hsz & Hname & Hpar & Hent).
    rewrite Hslot. cbn [fst] in Hname.
    destruct (name s) as [p|] eqn:Ename; [|contradiction].
    cbn [name_rep] in Hname. rewrite Hbuf, (Hname X), <- Hbuf.
    destruct (strcasecmp_eq sec n0).
    + exists i0, s. split; [reflexivity|]. split; [exact Hi|].
      exists s. rewrite Ename. repeat split; auto.
    + apply IH; lia.
Qed.

Lemma strcasecmp_eq_refl (a : list byte) : strcasecmp_eq a a = true.
Proof. induction a as [|c a IH]; simpl; [reflexivity|]. now rewrite Z.eqb_refl. Qed.

Lemma strcasecmp_eq_sym (a b : list byte) : strcasecmp_eq a b = strcasecmp_eq b a.
Proof.
  revert b. induction a as [|c a IH]; intros [|d b]; simpl; auto.
  now rewrite IH, Z.eqb_sym.
Qed.

Lemma strcasecmp_eq_trans (a b c : list byte) :
  strcasecmp_eq a b = true -> strcasecmp_eq b c = true -> strcasecmp_eq a c = true.
Proof.
  revert b c. induction a as [|x a IH]; intros [|y b] [|z c]; simpl; auto; try discriminate.
  intros H1 H2. apply andb_true_iff in H1 as [H1 H1'], H2 as [H2 H2'].
  apply Z.eqb_eq in H1, H2. rewrite H1, H2, Z.eqb_refl. simpl. eauto.
Qed.

(** The search of [confreaderFind] on tables that represent [doc]. *)
Lemma find_value_spec (buf P X : list byte) (s : State)
    (sects : list (option ConfreaderSection)) (table : list (option ConfreaderParam))
    (doc : list SpecSection) (k : list byte) (section : option (list byte)) (v : list byte) :
  buf = P ++ X ->
  confreaderSects s = Some sects ->
  confreader_params s = Some table ->
  (length doc <= confreaderSectCount s)%nat ->
  doc_rep P sects table doc ->
  named_tail doc ->
  spec_find doc k section = Some v ->
  exists vp, find_value buf s k section = Defined (Some vp) /\ cstr buf vp = v.
Proof.
  intros Hbuf Hs Ht Hcount Hrep Hnamed Hfind.
  unfold find_value. rewrite Hs, Ht.
  destruct section as [sec|]; cbn [spec_find] in Hfind.
  - destruct doc as [|sec0 rest]; [discriminate|]. cbn [tail] in Hfind.
    pose proof (find_sect_spec buf P X sects table sec (sec0 :: rest) Hbuf Hrep Hnamed
                  (confreaderSectCount s - 1) 1 ltac:(lia)) as Hsect.
    cbn [drop] in Hsect. rewrite drop_0 in Hsect.
    destruct (lookup_sect sec rest) as [[nm es]|]; [|discriminate].
    destruct Hsect as (i & si & Hfs & Hi & Hsr); [simpl in *; lia|].
    rewrite Hfs.
    destruct Hsr as (s' & [= <-] & Hsz & Hname & Hpar & Hent). cbn [fst snd] in *.
    pose proof (find_param_spec buf P X table k es (total (take i (sec0 :: rest)))
                  (params si) Hbuf) as Hfp.
    rewrite Hsz.
    assert (Hb : es <> [] -> params si = Some (total (take i (sec0 :: rest)))).
    { intros Hne. rewrite Hpar. destruct es; congruence. }
    specialize (Hfp Hb Hent (length es) 0%nat ltac:(lia)).
    rewrite drop_0, Hfind in Hfp. exact Hfp.
  - destruct doc as [|[nm0 es0] rest]; [discriminate|].
    destruct (Hrep 0%nat (nm0, es0) eq_refl) as (s0 & Hslot & Hsz & Hname & Hpar & Hent).
    rewrite Hslot. cbn [fst snd take total] in *.
    pose proof (find_param_spec buf P X table k es0 0 (params s0) Hbuf) as Hfp.
    rewrite Hsz.
    assert (Hb : es0 <> [] -> params s0 = Some 0%nat).
    { intros Hne. rewrite Hpar. destruct es0; [congruence|reflexivity]. }
    change (total []) with 0%nat in Hent.
    specialize (Hfp Hb Hent (length es0) 0%nat ltac:(lia)).
    rewrite drop_0, Hfind in Hfp. exact Hfp.
Qed.

(** ** The tables against the document of the specification *)

Lemma cstring_nul_eol (t : list byte) :
  nul_free t -> cstring_of (map nul_eol t) = span_while not_eol t.
Proof.
  induction 1 as [|c t Hc _ IH]; simpl; [reflexivity|].
  assert (Hn : nul_eol c = if not_eol c then c else 0).
  { unfold nul_eol, not_eol. destruct (c =? CR), (c =? LF); reflexivity. }
  rewrite Hn. destruct (not_eol c); [|reflexivity].
  apply Z.eqb_neq in Hc. rewrite Hc. now rewrite IH.
Qed.

Lemma line_text_content (l : list byte) : nul_free l -> line_text l = line_content l.
Proof.
  intros H. unfold line_text, line_content.
  apply cstring_nul_eol. now apply skip_nul_free.
Qed.

Lemma flat_nul_free (ls : list (list byte)) : nul_free (flat ls) -> Forall nul_free ls.
Proof.
  induction ls as [|l ls IH]; [constructor|].
  rewrite flat_cons. intros H. apply nul_free_app in H as [H1 H2].
  apply nul_free_cons in H2 as [_ H2]. constructor; auto.
Qed.

Lemma raw_lines_nul_free (content : list byte) :
  nul_free content -> Forall nul_free (raw_lines content).
Proof.
  intros H. apply flat_nul_free. rewrite <- raw_lines_flat.
  apply nul_free_app. split; [exact H|]. repeat constructor. discriminate.
Qed.

Lemma map_line_text_content (ls : list (list byte)) :
  Forall nul_free ls -> map line_text ls = map line_content ls.
Proof.
  induction 1 as [|l ls Hl _ IH]; simpl; [reflexivity|].
  now rewrite IH, line_text_content.
Qed.

Lemma bump_params1_text (l : list byte) (n : nat) :
  nul_free l ->
  bump_params1 l n = if is_param_text (line_text l) then S n else n.
Proof.
  intros Hnul. unfold bump_params1, first_byte, line_text, is_param_text.
  pose proof (skip_nul_free is_blank l Hnul) as Ht.
  destruct (skip_while is_blank l) as [|c r]; [reflexivity|].
  apply nul_free_cons in Ht as [Hc _]. apply Z.eqb_neq in Hc.
  simpl. unfold nul_eol, starts_param1, is_comment.
  destruct (c =? CR) eqn:E1; simpl.
  - apply Z.eqb_eq in E1. subst c. reflexivity.
  - destruct (c =? LF) eqn:E2; simpl.
    + apply Z.eqb_eq in E2. subst c. reflexivity.
    + rewrite Hc. destruct (c =? LBRACKET); simpl; [reflexivity|].
      destruct (c =? HASH); simpl; [reflexivity|].
      destruct (c =? SEMI); reflexivity.
Qed.

Lemma count_params1_texts (ls : list (list byte)) (n : nat) :
  Forall nul_free ls ->
  count_params1 n ls = (n + count_param_texts (map line_text ls))%nat.
Proof.
  intros H. revert n. induction H as [|l ls Hl _ IH]; intros n; simpl; [lia|].
  rewrite IH, bump_params1_text by exact Hl.
  destruct (is_param_text (line_text l)); lia.
Qed.

Lemma count_param_texts_app (a b : list (list byte)) :
  count_param_texts (a ++ b) = (count_param_texts a + count_param_texts b)%nat.
Proof. induction a as [|t a IH]; simpl; [reflexivity|]. rewrite IH. lia. Qed.

Lemma total_close_doc d : total (close_doc d) = (total (fst d) + length (snd (snd d)))%nat.
Proof. unfold close_doc. now rewrite total_app, total_single. Qed.

Lemma link_text_total d t d' :
  link_text d t = Some d' ->
  total (close_doc d') = (total (close_doc d) + if is_param_text t then 1 else 0)%nat.
Proof.
  unfold link_text, is_param_text. destruct d as [closed [nm es]].
  destruct t as [|c t']; [intros [= <-]; lia|].
  destruct (c =? LBRACKET); simpl.
  - destruct (parse_header t'); [|discriminate]. intros [= <-].
    rewrite !total_close_doc. cbn [fst snd]. rewrite total_app, total_single.
    simpl. lia.
  - destruct (is_comment c); simpl; [intros [= <-]; lia|].
    destruct (parse_param (c :: t')); [|discriminate]. intros [= <-].
    rewrite !total_close_doc. cbn [fst snd]. rewrite length_snoc. lia.
Qed.

Lemma link_texts_total ts : forall d d',
  link_texts d ts = Some d' ->
  total (close_doc d') = (total (close_doc d) + count_param_texts ts)%nat.
Proof.
  induction ts as [|t ts IH]; intros d d'; simpl; [intros [= <-]; lia|].
  destruct (link_text d t) as [d1|] eqn:E; [|discriminate].
  intros H. rewrite (IH _ _ H), (link_text_total _ _ _ E). lia.
Qed.

(** Lines without a parameter line add sections without parameters only. *)
Lemma fold_no_params ts : forall d,
  count_param_texts ts = 0%nat ->
  exists extra,
    close_doc (fold_left add_line ts d) = close_doc d ++ extra /\
    Forall (fun sec : SpecSection => snd sec = []) extra.
Proof.
  induction ts as [|t ts IH]; intros d Hc; simpl.
  - exists []. now rewrite app_nil_r.
  - simpl in Hc. unfold add_line at 2. unfold is_param_text in Hc.
    destruct t as [|c t'].
    + apply IH. lia.
    + destruct (c =? LBRACKET); simpl in Hc.
      * destruct (IH (fst d ++ [snd d], (Some (spec_name t'), [])) ltac:(lia))
          as (extra & He & Hx).
        exists ((Some (spec_name t'), []) :: extra). split.
        -- rewrite He. unfold close_doc. cbn [fst snd]. now rewrite <- app_assoc.
        -- constructor; auto.
      * destruct (is_comment c); simpl in Hc; [|lia]. apply IH. lia.
Qed.

Lemma spec_find_app_empty (doc extra : list SpecSection) (k : list byte)
    (section : option (list byte)) (v : list byte) :
  doc <> [] ->
  Forall (fun sec : SpecSection => snd sec = []) extra ->
  spec_find (doc ++ extra) k section = Some v ->
  spec_find doc k section = Some v.
Proof.
  intros Hne Hx. destruct doc as [|sec0 rest]; [congruence|].
  destruct section as [sec|]; simpl; [|auto].
  rewrite lookup_sect_app.
  destruct (lookup_sect sec rest) as [[nm es]|]; [auto|].
  destruct (lookup_sect sec extra) as [[nm es]|] eqn:E; [|discriminate].
  assert (es = []) as ->; [|discriminate].
  clear - E Hx. induction Hx as [|[[n|] es'] extra Hs _ IH]; simpl in E; try discriminate; auto.
  destruct (strcasecmp_eq sec n); auto. injection E as <- <-. exact Hs.
Qed.

(** After a successful parse of a file without NUL bytes, the tables
    represent the document of the specification, up to sections without
    parameters that follow the last parameter line. *)
Lemma parse_success_doc (w : World) (s : State) (content : list byte) :
  w_file w = Contents content ->
  content <> [] ->
  nul_free content ->
  fst (confreaderParseFile w s) = CONFREADER_OK ->
  exists d' P' X l' extra,
    spec_doc content = close_doc d' ++ extra /\
    Forall (fun sec : SpecSection => snd sec = []) extra /\
    Rep l' d' P' /\
    lk_buf l' = P' ++ X /\
    good_doc (close_doc d') /\
    named_tail (close_doc d') /\
    (S (lk_sectIdx l') <= length (lk_sects l'))%nat /\
    let s' := snd (confreaderParseFile w s) in
    confreader_fileBuf s' = Some (lk_buf l') /\
    confreaderSects s' = Some (lk_sects l') /\
    confreader_params s' = Some (lk_params l') /\
    confreaderSectCount s' = length (lk_sects l') /\
    confreaderErrorNum s' = CONFREADER_OK.
Proof.
  intros Hfile Hne Hnul Hok.
  destruct (parse_success_rep w s content Hfile Hne Hok)
    as (ls1 & ls2 & d' & P' & l' & H1 & H2 & H3 & H4 & H5 & H6 & H7 & H8 & Hst).
  pose proof (raw_lines_nul_free content Hnul) as Hraw.
  rewrite H1 in Hraw. apply Forall_app in Hraw as [Hraw1 Hraw2].
  assert (Hts1 : Forall nul_free (map line_text ls1)).
  { apply Forall_forall. intros t Ht. apply list_elem_of_fmap in Ht as (l & -> & _).
    apply cstring_of_nul_free. }
  destruct (link_texts_good _ _ _ Hts1 H2) as [Hgood Hnamed].
  { repeat constructor. }
  { constructor. }
  assert (Hcount : count_param_texts (map line_text ls2) = 0%nat).
  { destruct H5 as [-> | H5]; [reflexivity|].
    destruct H3 as (_ & Hp & _). rewrite Hp in H5.
    rewrite (link_texts_total _ _ _ H2) in H5.
    rewrite H1, count_params1_texts in H5 by (apply Forall_app; auto).
    rewrite map_app, count_param_texts_app in H5.
    change (total (close_doc ([], (None, [])))) with 0%nat in H5. lia. }
  destruct (fold_no_params (map line_text ls2) d' Hcount) as (extra & He & Hx).
  exists d', P', (concat (map seg ls2)), l', extra.
  split.
  { unfold spec_doc. rewrite H1, map_app, fold_left_app.
    rewrite <- !map_line_text_content by auto.
    rewrite <- (link_texts_fold _ _ _ H2). exact He. }
  split; [exact Hx|]. split; [exact H3|]. split; [exact H4|].
  split; [exact Hgood|]. split; [exact Hnamed|]. split; [exact H6|].
  exact Hst.
Qed.

(** ** Further facts about a successful parse *)

(** A parse succeeds on an empty file, or on a file that was read. *)
Lemma parse_ok_contents (w : World) (s : State) :
  fst (confreaderParseFile w s) = CONFREADER_OK ->
  confreader_fileBuf s = None /\
  (st_size_of (w_file w) = Some 0%nat \/
   exists content, w_file w = Contents content /\ content <> []).
Proof.
  intros Hok.
  destruct (confreader_fileBuf s) as [b|] eqn:Hbuf.
  { rewrite (parse_busy w s b Hbuf) in Hok. discriminate. }
  split; [reflexivity|].
  destruct s as [fb ln lc pa pc en el se sc hp]. simpl in Hbuf. subst fb.
  unfold confreaderParseFile in Hok. cbn [set_errorLineNum confreader_fileBuf] in Hok.
  destruct (w_file w) as [| |n|content] eqn:Hfile; try discriminate Hok.
  - destruct n as [|n]; [now left|].
    exfalso. revert Hok. cbn [Nat.eqb]. unfold malloc.
    destruct (w_malloc w BFileBuf); discriminate.
  - destruct content as [|c content]; [now left|].
    right. eexists. split; [reflexivity|discriminate].
Qed.

(** The live blocks after a successful parse: the buffer and the two
    tables; the line array has been freed. *)
Lemma parse_ok_heap (w : World) (s : State) (content : list byte) :
  w_file w = Contents content ->
  content <> [] ->
  fst (confreaderParseFile w s) = CONFREADER_OK ->
  heap_live (snd (confreaderParseFile w s))
  = BSects :: BParams :: BFileBuf :: heap_live s.
Proof.
  intros Hfile Hne Hok.
  destruct (parse_ok_contents w s Hok) as [Hbuf _].
  destruct s as [fb ln lc pa pc en el se sc hp]. simpl in Hbuf. subst fb.
  revert Hok. unfold confreaderParseFile. cbn [set_errorLineNum confreader_fileBuf].
  rewrite Hfile. destruct content as [|c content]; [congruence|].
  cbn [length Nat.eqb]. unfold malloc. cbn [confreaderInit].
  destruct (w_malloc w BFileBuf); [|discriminate].
  unfold split_buffer, malloc.
  destruct (w_malloc w BLines); [|discriminate].
  destruct (split_lines _ _ _ _) as [sp|sp]; [|discriminate].
  unfold link_buffer, malloc.
  destruct (w_malloc w BParams); [|discriminate].
  destruct (w_malloc w BSects); [|discriminate].
  destruct (link_lines _ _ _ _ _ _) as [l|line]; [|discriminate].
  intros _. reflexivity.
Qed.

(** Every parameter of a document has an index in the parameter table. *)
Lemma total_index (doc : list SpecSection) (j : nat) :
  (j < total doc)%nat ->
  exists i sec j' e,
    doc !! i = Some sec /\ snd sec !! j' = Some e /\ j = (total (take i doc) + j')%nat.
Proof.
  induction doc as [|x doc IH] using rev_ind; [unfold total; simpl; lia|].
  rewrite total_app, total_single. intros Hj.
  destruct (decide (j < total doc)%nat) as [Hlt|Hge].
  - destruct (IH Hlt) as (i & sec & j' & e & H1 & H2 & H3).
    exists i, sec, j', e. pose proof (lookup_lt_Some _ _ _ H1).
    rewrite lookup_app_l, take_app_le by lia. auto.
  - destruct (lookup_lt_is_Some_2 (snd x) (j - total doc) ltac:(lia)) as [e He].
    exists (length doc), x, (j - total doc)%nat, e.
    rewrite list_lookup_middle, take_app_length by reflexivity.
    split; [reflexivity|]. split; [exact He|]. lia.
Qed.

(** A record of the parameter table of tables that represent [d] designates
    a parameter of [d]. *)
Lemma Rep_slot (l : Link) d (P X : list byte) (j : nat) (p : ConfreaderParam) :
  Rep l d P ->
  lk_params l !! j = Some (Some p) ->
  exists i sec j' e,
    close_doc d !! i = Some sec /\ snd sec !! j' = Some e /\
    cstr (P ++ X) (key p) = fst e /\ cstr (P ++ X) (value p) = snd e.
Proof.
  intros (H1 & H2 & H3 & H4) Hj.
  pose proof (H4 _ _ Hj) as Hlt. rewrite H2 in Hlt.
  destruct (total_index _ _ Hlt) as (i & sec & j' & e & Hi & He & Hidx).
  destruct (H3 _ _ Hi) as (s & _ & _ & _ & _ & Hent).
  destruct (Hent _ _ He) as (p' & Hslot & Hk & Hv).
  rewrite <- Hidx, Hj in Hslot. injection Hslot as <-.
  exists i, sec, j', e. auto.
Qed.

Lemma find_slot (k : list byte) (section : option (list byte)) (s st : State) (vp : nat) :
  confreaderFind k section s = (Defined (Some vp), st) ->
  exists buf table i p,
    confreader_fileBuf s = Some buf /\ confreader_params s = Some table /\
    table !! i = Some (Some p) /\ value p = vp /\ st = set_errorNum CONFREADER_OK s.
Proof.
  unfold confreaderFind, find_value.
  destruct (confreader_fileBuf s) as [buf|]; [|discriminate].
  destruct (confreaderSects s) as [sects|]; [|discriminate].
  destruct (confreader_params s) as [table|]; [|discriminate].
  destruct section as [sec|].
  - destruct (find_sect buf sects sec _ 1) as [[si|]|]; try discriminate.
    destruct (find_param buf table k (params si) (size si) 0) as [[v|]|] eqn:E; try discriminate.
    intros [= <- <-]. destruct (find_param_slot _ _ _ _ _ _ _ E) as (i & p & H1 & H2).
    exists buf, table, i, p. auto.
  - destruct (sects !! 0%nat) as [[s0|]|]; try discriminate.
    destruct (find_param buf table k (params s0) (size s0) 0) as [[v|]|] eqn:E; try discriminate.
    intros [= <- <-]. destruct (find_param_slot _ _ _ _ _ _ _ E) as (i & p & H1 & H2).
    exists buf, table, i, p. auto.
Qed.

Lemma char_at_hd (val : list byte) : char_at val 0 = hd 0 val.
Proof. now destruct val. Qed.

Lemma good_doc_entry (doc : list SpecSection) i sec j e :
  good_doc doc -> doc !! i = Some sec -> snd sec !! j = Some e -> good_value (snd e).
Proof.
  intros Hg Hi Hj. unfold good_doc in Hg. rewrite Forall_lookup in Hg.
  specialize (Hg _ _ Hi). rewrite Forall_lookup in Hg. exact (Hg _ _ Hj).
Qed.

(** Every value stored by a successful parse is a [good_value]. *)
Lemma parse_values_good (w : World) (s : State) (table : list (option ConfreaderParam))
    (j : nat) (p : ConfreaderParam) :
  fst (confreaderParseFile w s) = CONFREADER_OK ->
  confreader_params (snd (confreaderParseFile w s)) = Some table ->
  table !! j = Some (Some p) ->
  good_value (string_at (snd (confreaderParseFile w s)) (value p)).
Proof.
  intros Hok Htable Hj.
  destruct (parse_ok_contents w s Hok) as [Hbuf [Hsz|(content & Hfile & Hne)]].
  - exfalso. destruct (parse_outcome w s Hbuf) as [(_ & _ & [[_ Hp]|[Hn _]])|[He _]].
    + destruct Hp as (_ & _ & Hp & _). rewrite Hp in Htable. discriminate.
    + contradiction.
    + rewrite He in Hok. discriminate.
  - destruct (parse_success_rep w s content Hfile Hne Hok)
      as (ls1 & ls2 & d' & P' & l' & H1 & H2 & H3 & H4 & H5 & H6 & H7 & H8 & Hst).
    cbn zeta in Hst. destruct Hst as (S1 & S2 & S3 & S4 & S5).
    rewrite S3 in Htable. injection Htable as <-.
    unfold string_at. rewrite S1, H4.
    destruct (Rep_slot l' d' P' (concat (map seg ls2)) j p H3 Hj)
      as (i & sec & j' & e & Hi & He & _ & Hv).
    rewrite Hv.
    assert (Hts1 : Forall nul_free (map line_text ls1)).
    { apply Forall_forall. intros t Ht. apply list_elem_of_fmap in Ht as (l & -> & _).
      apply cstring_of_nul_free. }
    destruct (link_texts_good _ _ _ Hts1 H2) as [Hgood _].
    { repeat constructor. }
    { constructor. }
    eapply good_doc_entry; eauto.
Qed.

(** The search without a section, found or not. *)
Lemma find_unscoped_spec (buf P X : list byte) (s : State)
    (sects : list (option ConfreaderSection)) (table : list (option ConfreaderParam))
    (nm0 : option (list byte)) (es0 : list (list byte * list byte))
    (rest : list SpecSection) (k : list byte) :
  buf = P ++ X ->
  confreaderSects s = Some sects ->
  confreader_params s = Some table ->
  doc_rep P sects table ((nm0, es0) :: rest) ->
  match lookup_key k es0 with
  | Some v => exists vp, find_value buf s k None = Defined (Some vp) /\ cstr buf vp = v
  | None => find_value buf s k None = Defined None
  end.
Proof.
  intros Hbuf Hs Ht Hrep. unfold find_value. rewrite Hs, Ht.
  destruct (Hrep 0%nat (nm0, es0) eq_refl) as (s0 & Hslot & Hsz & Hname & Hpar & Hent).
  rewrite Hslot. cbn [fst snd take total] in *.
  change (total []) with 0%nat in Hent.
  pose proof (find_param_spec buf P X table k es0 0 (params s0) Hbuf) as Hfp.
  rewrite Hsz.
  assert (Hb : es0 <> [] -> params s0 = Some 0%nat).
  { intros Hne. rewrite Hpar. destruct es0; [congruence|reflexivity]. }
  specialize (Hfp Hb Hent (length es0) 0%nat ltac:(lia)).
  rewrite drop_0 in Hfp. exact Hfp.
Qed.

(** The search in a section that is linked, found or not. *)
Lemma find_scoped_spec (buf P X : list byte) (s : State)
    (sects : list (option ConfreaderSection)) (table : list (option ConfreaderParam))
    (doc : list SpecSection) (k sec : list byte)
    (nm : option (list byte)) (es : list (list byte * list byte)) :
  buf = P ++ X ->
  confreaderSects s = Some sects ->
  confreader_params s = Some table ->
  (length doc <= confreaderSectCount s)%nat ->
  doc_rep P sects table doc ->
  named_tail doc ->
  lookup_sect sec (tail doc) = Some (nm, es) ->
  match lookup_key k es with
  | Some v => exists vp, find_value buf s k (Some sec) = Defined (Some vp) /\ cstr buf vp = v
  | None => find_value buf s k (Some sec) = Defined None
  end.
Proof.
  intros Hbuf Hs Ht Hcount Hrep Hnamed Hsect.
  unfold find_value. rewrite Hs, Ht.
  destruct doc as [|sec0 rest]; [discriminate|]. cbn [tail] in Hsect.
  pose proof (find_sect_spec buf P X sects table sec (sec0 :: rest) Hbuf Hrep Hnamed
                (confreaderSectCount s - 1) 1 ltac:(lia)) as Hfs.
  cbn [drop] in Hfs. rewrite drop_0, Hsect in Hfs.
  destruct Hfs as (i & si & Hfs & Hi & Hsr); [simpl in *; lia|].
  rewrite Hfs.
  destruct Hsr as (s' & [= <-] & Hsz & Hname & Hpar & Hent). cbn [fst snd] in *.
  pose proof (find_param_spec buf P X table k es (total (take i (sec0 :: rest)))
                (params si) Hbuf) as Hfp.
  rewrite Hsz.
  assert (Hb : es <> [] -> params si = Some (total (take i (sec0 :: rest)))).
  { intros Hne. rewrite Hpar. destruct es; congruence. }
  specialize (Hfp Hb Hent (length es) 0%nat ltac:(lia)).
  rewrite drop_0 in Hfp.
  destruct (lookup_key k es); [exact Hfp|]. now rewrite Hfp.
Qed.

Lemma getString_not_found (k : list byte) (section : option (list byte)) (dflt : list byte)
    (s : State) (buf : list byte) :
  confreader_fileBuf s = Some buf ->
  find_value buf s k section = Defined None ->
  confreaderGetString k section dflt s
  = (Defined dflt, set_errorNum CONFREADER_ENOPARAM s).
Proof.
  intros Hb Hf. unfold confreaderGetString, confreaderFind. now rewrite Hb, Hf.
Qed.

Lemma lookup_sect_entries (sec : list byte) (extra : list SpecSection) nm es :
  Forall (fun x : SpecSection => snd x = []) extra ->
  lookup_sect sec extra = Some (nm, es) -> es = [].
Proof.
  induction 1 as [|[[n|] es'] extra Hs _ IH]; simpl; try discriminate; auto.
  destruct (strcasecmp_eq sec n); auto. intros [= <- <-]. exact Hs.
Qed.

Lemma lookup_sect_hit (sec : list byte) (rest : list SpecSection) (j : nat)
    (nm : list byte) (es : list (list byte * list byte)) :
  rest !! j = Some (Some nm, es) ->
  strcasecmp_eq sec nm = true ->
  exists sp, lookup_sect sec rest = Some sp.
Proof.
  revert j. induction rest as [|[[n|] es'] rest IH]; intros j Hj Heq; [discriminate| |].
  - simpl. destruct (strcasecmp_eq sec n) eqn:E; [eauto|].
    destruct j as [|j]; [|eapply IH; eauto].
    injection Hj as -> ->. congruence.
  - simpl. destruct j as [|j]; [discriminate|]. eapply IH; eauto.
Qed.

(** The state after the successful parse of an empty file. *)
Lemma parse_ok_empty (w : World) (s : State) :
  st_size_of (w_file w) = Some 0%nat ->
  confreader_fileBuf s = None ->
  pristine (snd (confreaderParseFile w s)) /\
  heap_live (snd (confreaderParseFile w s)) = heap_live s.
Proof.
  intros Hsz Hbuf. unfold confreaderParseFile, pristine.
  destruct s as [fb ln lc pa pc en el se sc hp]. simpl in Hbuf. subst fb. simpl.
  destruct (w_file w) as [| |n|content]; simpl in Hsz; try discriminate.
  - injection Hsz as ->. simpl. auto 10.
  - injection Hsz as Hlen. rewrite Hlen. simpl. auto 10.
Qed.

(** ** The parser writes terminators only *)

Lemma zeroed_refl (b : list byte) : zeroed b b.
Proof. split; auto. Qed.

Lemma zeroed_trans (a b c : list byte) : zeroed a b -> zeroed b c -> zeroed a c.
Proof.
  intros [H1 H2] [H3 H4]. split; [congruence|].
  intros i. destruct (H4 i) as [H|H]; [|now right].
  rewrite H. apply H2.
Qed.

Lemma zeroed_insert (b : list byte) (i : nat) : zeroed b (<[i := 0]> b).
Proof.
  split; [apply length_insert|].
  intros j. unfold rd.
  destruct (decide (i = j)) as [<-|Hne].
  - destruct (decide (i < length b)%nat) as [Hlt|Hge].
    + right. now rewrite list_lookup_insert_eq.
    + left. now rewrite list_insert_ge by lia.
  - left. now rewrite list_lookup_insert_ne.
Qed.

Lemma zeroed_insert_r (a b : list byte) (i : nat) : zeroed a b -> zeroed a (<[i := 0]> b).
Proof. intros H. eapply zeroed_trans; [exact H|apply zeroed_insert]. Qed.

Lemma scan_eol_zeroed (fuel : nat) (b : list byte) (i : nat) :
  match scan_eol fuel b i with
  | EolDone b' _ => zeroed b b'
  | EolBadCr b' => zeroed b b'
  end.
Proof.
  revert i. induction fuel as [|fuel IH]; intros i; simpl; [apply zeroed_refl|].
  destruct (rd b i =? CR).
  - destruct (negb _); [apply zeroed_insert|].
    apply zeroed_insert_r, zeroed_insert.
  - destruct (rd b i =? LF); [apply zeroed_insert|]. apply IH.
Qed.

Lemma split_lines_zeroed (fuel fsize : nat) (s : Split) (i : nat) :
  match split_lines fuel fsize s i with
  | SplitDone sp => zeroed (sp_buf s) (sp_buf sp)
  | SplitFail sp => zeroed (sp_buf s) (sp_buf sp)
  end.
Proof.
  revert s i. induction fuel as [|fuel IH]; intros s i; simpl; [apply zeroed_refl|].
  destruct (fsize <=? i)%nat; [apply zeroed_refl|].
  pose proof (scan_eol_zeroed (fsize - skip_blank (sp_buf s) fsize i) (sp_buf s)
                (skip_blank (sp_buf s) fsize i)) as Hs.
  destruct (scan_eol _ _ _) as [b' i'|b']; [|exact Hs].
  match goal with |- context [split_lines fuel fsize ?s' ?j] =>
    pose proof (IH s' j) as H; destruct (split_lines fuel fsize s' j) end;
    cbn [sp_buf] in H; eapply zeroed_trans; eauto.
Qed.

Lemma close_bracket_zeroed (fuel : nat) (b : list byte) (i : nat) b' i' :
  close_bracket fuel b i = Some (b', i') -> zeroed b b'.
Proof.
  revert i. induction fuel as [|fuel IH]; intros i; simpl.
  - intros [= <- _]. apply zeroed_refl.
  - destruct (rd b i =? RBRACKET); [intros [= <- _]; apply zeroed_insert|].
    destruct (rd b i =? 0); [discriminate|]. apply IH.
Qed.

Lemma link_line_zeroed (fsize i : nat) (l l' : Link) :
  link_line fsize i l = Some l' -> zeroed (lk_buf l) (lk_buf l').
Proof.
  unfold link_line.
  destruct (rd (lk_buf l) i =? LBRACKET).
  - unfold link_section.
    destruct (close_bracket _ _ _) as [[b' i']|] eqn:E; [|discriminate].
    destruct (negb _ && negb _ && negb _); [discriminate|].
    intros [= <-]. cbn [lk_buf]. eapply close_bracket_zeroed; eauto.
  - destruct (negb _ && negb _ && negb _); [|intros [= <-]; apply zeroed_refl].
    unfold link_param.
    destruct (key_end _ _ _) as [j|]; [|discriminate].
    destruct (_ || _); [discriminate|].
    destruct (value_end _ _ _) as [j'|]; [|discriminate].
    intros [= <-]. cbn [lk_buf]. apply zeroed_insert_r, zeroed_insert.
Qed.

Lemma link_lines_zeroed (fuel fsize pc : nat) (lines : list nat) :
  forall (lineIdx : nat) (l l' : Link),
  link_lines fuel fsize pc lines lineIdx l = inl l' -> zeroed (lk_buf l) (lk_buf l').
Proof.
  induction fuel as [|fuel IH]; intros lineIdx l l'; simpl.
  - intros [= <-]. apply zeroed_refl.
  - destruct (pc <=? lk_paramIdx l)%nat; [intros [= <-]; apply zeroed_refl|].
    destruct (link_line _ _ _) as [l1|] eqn:E; [|discriminate].
    intros H. eapply zeroed_trans; [eapply link_line_zeroed; eauto|eapply IH; eauto].
Qed.

(** The two passes of a successful parse. *)
Lemma parse_ok_run (w : World) (s : State) (content : list byte) :
  w_file w = Contents content ->
  content <> [] ->
  fst (confreaderParseFile w s) = CONFREADER_OK ->
  let buf := content ++ [LF] in
  exists sp l',
    split_lines (length buf) (length buf)
      (mkSplit buf (replicate (count_lf buf) 0%nat) 0 0 1) 0 = SplitDone sp /\
    link_lines (count_lf buf) (length buf) (sp_paramCount sp) (sp_lines sp) 0
      (mkLink (sp_buf sp)
         (<[0%nat := Some (mkSection 0 None None)]> (replicate (sp_sectCount sp) None))
         (replicate (sp_paramCount sp) None) 0 0) = inl l' /\
    confreader_fileBuf (snd (confreaderParseFile w s)) = Some (lk_buf l') /\
    confreader_lineCount (snd (confreaderParseFile w s)) = count_lf buf /\
    confreader_paramCount (snd (confreaderParseFile w s)) = sp_paramCount sp /\
    confreaderSectCount (snd (confreaderParseFile w s)) = sp_sectCount sp.
Proof.
  intros Hfile Hne Hok buf.
  destruct (parse_ok_contents w s Hok) as [Hbuf _].
  destruct (w_malloc w BFileBuf) eqn:Hm1.
  2:{ exfalso. revert Hok. unfold confreaderParseFile.
      destruct s as [fb ln lc pa pc en el se sc hp]. simpl in Hbuf. subst fb.
      cbn [set_errorLineNum confreader_fileBuf]. rewrite Hfile.
      destruct content; [congruence|]. cbn [length Nat.eqb].
      unfold malloc. cbn [confreaderInit]. rewrite Hm1. discriminate. }
  destruct (w_malloc w BLines) eqn:Hm2.
  2:{ exfalso. revert Hok. unfold confreaderParseFile.
      destruct s as [fb ln lc pa pc en el se sc hp]. simpl in Hbuf. subst fb.
      cbn [set_errorLineNum confreader_fileBuf]. rewrite Hfile.
      destruct content; [congruence|]. cbn [length Nat.eqb].
      unfold malloc. cbn [confreaderInit]. rewrite Hm1.
      unfold split_buffer, malloc. rewrite Hm2. discriminate. }
  destruct (parse_reaches_split w s content Hfile Hne Hm1 Hm2 Hbuf)
    as (s1 & Hparse & Hlc & _).
  rewrite Hparse in *. clear Hparse. fold buf in Hok |- *.
  destruct (split_lines (length buf) (length buf) _ 0) as [sp|sp] eqn:Esplit.
  2:{ exfalso.
      destruct (parse_error_fields (sp_lineIdx sp)
                  (set_fileBuf (Some (sp_buf sp))
                     (set_lines (Some (sp_lines sp))
                        (set_paramCount (sp_paramCount sp)
                           (set_sectCount (sp_sectCount sp) s1))))) as [H _].
      rewrite H in Hok. discriminate. }
  destruct (link_buffer_ok _ _ _ _ Hok) as (l' & Hrun & Hst).
  cbn zeta in Hst. destruct Hst as (S1 & S2 & S3 & S4 & S5 & S6 & S7).
  exists sp, l'. rewrite Hlc in Hrun. fold buf in Hrun.
  split; [reflexivity|]. split; [exact Hrun|]. split; [exact S1|].
  split; [|auto].
  (* the line count is kept by the linker *)
  clear - Hlc Hok. revert Hok.
  destruct s1 as [fb ln lc pa pc en el se sc hp]. simpl in Hlc. subst lc.
  unfold link_buffer, malloc. cbn [set_fileBuf set_lines set_paramCount set_sectCount].
  destruct (w_malloc w BParams); [|destruct fb, ln, pa, se; discriminate].
  cbn [set_heap set_params heap_live].
  destruct (w_malloc w BSects); [|destruct fb, ln, pa, se; discriminate].
  cbn [set_heap set_sects heap_live confreader_lineCount].
  destruct (link_lines _ _ _ _ _ _) as [l'|line] eqn:E.
  - intros _. reflexivity.
  - intros H. exfalso. revert H. cbn. discriminate.
Qed.

(** ** Comparison without case *)

Lemma strcasecmp_eq_lower (a b : list byte) :
  strcasecmp_eq a b = true <-> map tolower a = map tolower b.
Proof.
  revert b. induction a as [|x a IH]; intros [|y b]; simpl;
    try (split; discriminate).
  - split; auto.
  - rewrite andb_true_iff, Z.eqb_eq, IH. split.
    + intros [H1 H2]. now rewrite H1, H2.
    + intros H. injection H as H1 H2. auto.
Qed.

Lemma strcasecmp_eq_congr (a a' b : list byte) :
  map tolower a = map tolower a' -> strcasecmp_eq a b = strcasecmp_eq a' b.
Proof.
  intros H. apply eq_true_iff_eq. rewrite !strcasecmp_eq_lower. now rewrite H.
Qed.

Lemma find_param_congr (buf : list byte) (table : list (option ConfreaderParam))
    (k k' : list byte) (base : option nat) (n j : nat) :
  map tolower k = map tolower k' ->
  find_param buf table k base n j = find_param buf table k' base n j.
Proof.
  intros H. revert j. induction n as [|n IH]; intros j; simpl; [reflexivity|].
  destruct base as [b|]; [|reflexivity].
  destruct (table !! (b + j)%nat) as [[p|]|]; try reflexivity.
  rewrite (strcasecmp_eq_congr k k' _ H). now rewrite IH.
Qed.

Lemma find_sect_congr (buf : list byte) (sects : list (option ConfreaderSection))
    (sec sec' : list byte) (n i : nat) :
  map tolower sec = map tolower sec' ->
  find_sect buf sects sec n i = find_sect buf sects sec' n i.
Proof.
  intros H. revert i. induction n as [|n IH]; intros i; simpl; [reflexivity|].
  destruct (sects !! i) as [[x|]|]; try reflexivity.
  destruct (name x) as [p|]; [|reflexivity].
  rewrite (strcasecmp_eq_congr sec sec' _ H). now rewrite IH.
Qed.

Lemma confreaderFind_congr (k k' : list byte) (section section' : option (list byte))
    (s : State) :
  map tolower k = map tolower k' ->
  fmap (M := option) (map tolower) section = fmap (map tolower) section' ->
  confreaderFind k section s = confreaderFind k' section' s.
Proof.
  intros Hk Hs. unfold confreaderFind.
  destruct (confreader_fileBuf s) as [buf|]; [|reflexivity].
  assert (Hv : find_value buf s k section = find_value buf s k' section').
  { unfold find_value.
    destruct (confreaderSects s) as [sects|]; [|reflexivity].
    destruct (confreader_params s) as [table|]; [|reflexivity].
    destruct section as [sec|], section' as [sec'|]; simpl in Hs; try discriminate.
    - injection Hs as Hs. rewrite (find_sect_congr buf sects sec sec' _ _ Hs).
      destruct (find_sect _ _ _ _ _) as [[si|]|]; try reflexivity.
      now apply find_param_congr.
    - destruct (sects !! 0%nat) as [[s0|]|]; try reflexivity.
      now apply find_param_congr. }
  now rewrite Hv.
Qed.

Lemma confreaderHasSection_congr (sec sec' : list byte) (s : State) :
  map tolower sec = map tolower sec' ->
  confreaderHasSection sec s = confreaderHasSection sec' s.
Proof.
  intros H. unfold confreaderHasSection, has_sect.
  destruct (confreaderSectCount s - 1)%nat as [|n]; [reflexivity|].
  destruct (confreader_fileBuf s) as [buf|]; [|reflexivity].
  destruct (confreaderSects s) as [sects|]; [|reflexivity].
  now rewrite (find_sect_congr buf sects sec sec' _ _ H).
Qed.

(** ** Numbers *)

Lemma decimal_digits (ds : list byte) (acc : Z) :
  forallb is_digit ds = true ->
  decimal acc ds = fold_left (fun a c => 10 * a + (c - 48)) ds acc.
Proof.
  revert acc. induction ds as [|c ds IH]; intros acc; simpl; [reflexivity|].
  rewrite andb_true_iff. intros [Hc Hds]. rewrite Hc. now apply IH.
Qed.

Lemma is_digit_range (c : byte) : is_digit c = true -> 48 <= c <= 57.
Proof. unfold is_digit. rewrite andb_true_iff, !Z.leb_le. auto. Qed.

Lemma skip_space_digit (c : byte) (r : list byte) :
  is_digit c = true \/ c = MINUS -> skip_space (c :: r) = c :: r.
Proof.
  intros H. simpl.
  assert (Hs : isspace c = false).
  { unfold isspace. destruct H as [H| ->]; [|reflexivity].
    apply is_digit_range in H.
    apply orb_false_iff. split; [apply Z.eqb_neq; lia|].
    apply andb_false_iff. right. apply Z.leb_gt. lia. }
  now rewrite Hs.
Qed.

Lemma int_check_signed (neg : bool) (ds : list byte) :
  ds <> [] -> forallb is_digit ds = true ->
  int_check ((if neg then [MINUS] else []) ++ ds) = true.
Proof.
  intros Hne Hds. unfold int_check. destruct neg; cbn [app].
  - cbn [char_at lookup list_lookup default tail]. simpl.
    now rewrite digits_only_forallb.
  - destruct ds as [|c r]; [congruence|]. simpl in Hds.
    apply andb_true_iff in Hds as [Hc Hr].
    unfold char_at. cbn. rewrite Hc. cbn. now rewrite digits_only_forallb.
Qed.

Lemma strtol_signed (neg : bool) (ds : list byte) :
  ds <> [] -> forallb is_digit ds = true ->
  strtol ((if neg then [MINUS] else []) ++ ds)
  = clamp_long (if neg then - digits_value ds else digits_value ds).
Proof.
  intros Hne Hds. unfold strtol, digits_value. f_equal. destruct neg; cbn [app].
  - rewrite skip_space_digit by now right. rewrite Z.eqb_refl.
    now rewrite decimal_digits.
  - destruct ds as [|c r]; [congruence|].
    pose proof Hds as Hds'. simpl in Hds'. apply andb_true_iff in Hds' as [Hc Hr].
    rewrite skip_space_digit by now left.
    pose proof (is_digit_range c Hc) as Hrg.
    replace (c =? MINUS) with false by (symmetry; apply Z.eqb_neq; unfold MINUS; lia).
    replace (c =? 43) with false by (symmetry; apply Z.eqb_neq; lia).
    now rewrite decimal_digits.
Qed.

Lemma int_of_long_small (z : Z) :
  - 2 ^ 31 <= z < 2 ^ 31 -> int_of_long (clamp_long z) = z.
Proof.
  intros H. unfold int_of_long, clamp_long, LONG_MAX, LONG_MIN.
  assert (H31 : 2 ^ 31 = 2147483648) by reflexivity.
  assert (H32 : 2 ^ 32 = 4294967296) by reflexivity.
  assert (H63 : 2 ^ 63 = 9223372036854775808) by reflexivity.
  rewrite H31, H32, H63 in *.
  rewrite Z.min_r by lia. rewrite Z.max_r by lia.
  rewrite Z.mod_small by lia. lia.
Qed.

(** ** Truth values *)

Lemma char_at_nul_free (val : list byte) (k : nat) :
  nul_free val -> (char_at val k =? 0) = (length val <=? k)%nat.
Proof.
  intros Hn. unfold char_at.
  destruct (val !! k) as [c|] eqn:E; simpl.
  - pose proof (lookup_lt_Some _ _ _ E) as Hlt.
    rewrite (proj1 (Forall_lookup _ _) Hn k c E) || idtac.
    replace (length val <=? k)%nat with false by (symmetry; apply Nat.leb_gt; lia).
    apply Z.eqb_neq. exact (proj1 (Forall_lookup _ _) Hn k c E).
  - apply lookup_ge_None in E.
    replace (length val <=? k)%nat with true by (symmetry; apply Nat.leb_le; lia).
    reflexivity.
Qed.

Lemma one_char (val : list byte) (c : byte) :
  nul_free val -> c <> 0 ->
  (char_at val 0 =? c) && (char_at val 1 =? 0) = bool_decide (val = [c]).
Proof.
  intros Hn Hc. rewrite (char_at_nul_free val 1 Hn).
  destruct val as [|x [|y r]].
  - change (char_at [] 0) with 0. change (length (@nil Z) <=? 1)%nat with true.
    rewrite bool_decide_eq_false_2 by discriminate.
    replace (0 =? c) with false by (symmetry; apply Z.eqb_neq; lia). reflexivity.
  - change (char_at [x] 0) with x. change (length [x] <=? 1)%nat with true.
    rewrite andb_true_r. destruct (x =? c) eqn:E.
    + apply Z.eqb_eq in E. subst. now rewrite bool_decide_eq_true_2.
    + apply Z.eqb_neq in E. rewrite bool_decide_eq_false_2; [reflexivity|congruence].
  - change (length (x :: y :: r) <=? 1)%nat with false.
    rewrite andb_false_r. rewrite bool_decide_eq_false_2; [reflexivity|discriminate].
Qed.

Lemma strcasecmp_eq_word (val : list byte) (word : list byte) :
  map tolower word = word ->
  strcasecmp_eq val word = bool_decide (map tolower val = word).
Proof.
  intros Hw. apply eq_true_iff_eq.
  rewrite strcasecmp_eq_lower, Hw, bool_decide_eq_true. reflexivity.
Qed.

Lemma string_at_nul_free (s : State) (p : nat) : nul_free (string_at s p).
Proof.
  unfold string_at. destruct (confreader_fileBuf s); [apply cstring_of_nul_free|constructor].
Qed.

Lemma getBool_test (val : list byte) :
  nul_free val ->
  (if strcasecmp_eq val (bytes "yes") || strcasecmp_eq val (bytes "true")
      || ((char_at val 0 =? 49) && (char_at val 1 =? 0))
   then Some 1
   else if strcasecmp_eq val (bytes "no") || strcasecmp_eq val (bytes "false")
           || ((char_at val 0 =? 48) && (char_at val 1 =? 0))
   then Some 0 else None) = bool_of_text val.
Proof.
  intros Hn. unfold bool_of_text.
  rewrite !(strcasecmp_eq_word val) by reflexivity.
  rewrite (one_char val 49 Hn) by discriminate.
  rewrite (one_char val 48 Hn) by discriminate.
  reflexivity.
Qed.

(** ** Accessors on a reader that holds nothing *)

Lemma find_unloaded (k : list byte) (section : option (list byte)) (s : State) :
  confreader_fileBuf s = None ->
  confreaderFind k section s = (Defined None, set_errorNum CONFREADER_ENOPARAM s).
Proof. intros H. unfold confreaderFind. now rewrite H. Qed.

(** ** The verdict of the linking loop *)

Lemma link_lines_run (ls : list (list byte)) :
  forall (P : list byte) (l : Link) (d : list SpecSection * SpecSection)
         (done lines : list nat) (fsize pc : nat),
  lk_buf l = P ++ concat (map seg ls) ->
  fsize = length (lk_buf l) ->
  lines = done ++ line_starts (length P) ls ->
  Rep l d P ->
  (count_sects (S (lk_sectIdx l)) ls <= length (lk_sects l))%nat ->
  length (lk_params l) = pc ->
  match link_lines (length ls) fsize pc lines (length done) l with
  | inl _ => exists d', link_run pc d (lk_paramIdx l) (length done) (map line_text ls) = inl d'
  | inr n => link_run pc d (lk_paramIdx l) (length done) (map line_text ls) = inr n
  end.
Proof.
  induction ls as [|l0 ls IH];
    intros P l d done lines fsize pc Hbuf Hsize Hlines HRep Hcap Hpc.
  - simpl. eauto.
  - cbn [length link_lines map link_run].
    destruct (pc <=? lk_paramIdx l)%nat eqn:Efull; [eauto|].
    apply Nat.leb_gt in Efull.
    destruct (seg_shape l0) as (junk & Hseg).
    set (ws := span_while is_blank l0) in *.
    set (t := line_text l0) in *.
    assert (Hstart : default 0%nat (lines !! length done) = length (P ++ ws)).
    { rewrite Hlines. cbn [line_starts]. rewrite list_lookup_middle by reflexivity.
      simpl. now rewrite length_app. }
    rewrite Hstart.
    destruct l as [buf sects table sidx pidx].
    cbn [lk_buf lk_sects lk_params lk_sectIdx lk_paramIdx] in *.
    assert (Hbuf' : buf = (P ++ ws) ++ t ++ 0 :: (junk ++ concat (map seg ls))).
    { rewrite Hbuf. cbn [map concat]. rewrite Hseg. norm_app. reflexivity. }
    rewrite Hbuf'.
    assert (Hnul : nul_free t) by apply cstring_of_nul_free.
    assert (Hsize' : fsize = length ((P ++ ws) ++ t ++ 0 :: junk ++ concat (map seg ls)))
      by (rewrite <- Hbuf'; exact Hsize).
    assert (Hhdr : is_header_text t = (first_byte l0 =? LBRACKET))
      by apply header_text_first_byte.
    cbn [count_sects] in Hcap. unfold bump_sects in Hcap. rewrite <- Hhdr in Hcap.
    rewrite Hbuf' in HRep.
    pose proof (link_line_step t (P ++ ws) (junk ++ concat (map seg ls)) fsize
                  sects table sidx pidx d Hnul Hsize') as Hstep.
    assert (HRep' : Rep (mkLink ((P ++ ws) ++ t ++ 0 :: junk ++ concat (map seg ls))
                           sects table sidx pidx) d (P ++ ws))
      by (apply Rep_mono; exact HRep).
    assert (Hcs : is_header_text t = true -> (S sidx < length sects)%nat).
    { intros Hh. rewrite Hh in Hcap.
      pose proof (count_sects_ge ls (S (S sidx))). lia. }
    assert (Hcp : is_param_text t = true -> (pidx < length table)%nat) by (intros _; lia).
    specialize (Hstep HRep' Hcs Hcp).
    rewrite Nat.add_1_r.
    destruct (link_text d t) as [d1|] eqn:Etext.
    + destruct Hstep as (tz & l1 & Hlen & Hline & Hbuf1 & HRep1 & Hls & Hlp & Hsi & Hpi).
      rewrite Hline.
      assert (Hseg_len : length ((P ++ ws) ++ tz ++ junk) = (length P + length l0 + 1)%nat).
      { pose proof (length_seg l0) as Hl. rewrite Hseg in Hl.
        rewrite !length_app in *. cbn [length] in *. lia. }
      specialize (IH ((P ++ ws) ++ tz ++ junk) l1 d1 (done ++ [length (P ++ ws)])
                    lines fsize pc).
      rewrite (length_snoc done), Hpi in IH. apply IH.
      * rewrite Hbuf1. norm_app. reflexivity.
      * rewrite Hbuf1, Hsize'. rewrite !length_app. cbn [length].
        rewrite !length_app. lia.
      * rewrite Hlines. cbn [line_starts]. rewrite Hseg_len.
        rewrite <- app_assoc. simpl. now rewrite length_app.
      * replace ((P ++ ws) ++ tz ++ junk) with (((P ++ ws) ++ tz) ++ junk)
          by (norm_app; reflexivity).
        apply Rep_mono. exact HRep1.
      * rewrite Hsi, Hls. destruct (is_header_text t); exact Hcap.
      * rewrite Hlp. exact Hpc.
    + rewrite Hstep. reflexivity.
Qed.

Lemma rejected_spec d (t : list byte) : link_text d t = None <-> rejected t = true.
Proof.
  unfold link_text, rejected. destruct t as [|c t']; [split; discriminate|].
  destruct (c =? LBRACKET).
  - destruct (parse_header t'); split; congruence.
  - destruct (is_comment c); [split; discriminate|].
    destruct (parse_param (c :: t')); split; congruence.
Qed.

Lemma link_texts_accepted (ts : list (list byte)) : forall d,
  forallb (fun t => negb (rejected t)) ts = true -> exists d', link_texts d ts = Some d'.
Proof.
  induction ts as [|t ts IH]; intros d; simpl; [eauto|].
  rewrite andb_true_iff. intros [Ht Hts].
  destruct (link_text d t) as [d1|] eqn:E.
  - now apply IH.
  - apply rejected_spec in E. rewrite E in Ht. discriminate.
Qed.

Lemma link_run_reject (ts1 : list (list byte)) :
  forall d (pidx n : nat) d' (t0 : list byte) (ts2 : list (list byte)) (pc : nat),
  link_texts d ts1 = Some d' ->
  link_text d' t0 = None ->
  (pidx + count_param_texts ts1 < pc)%nat ->
  link_run pc d pidx n (ts1 ++ t0 :: ts2) = inr (S (n + length ts1)).
Proof.
  induction ts1 as [|t ts1 IH]; intros d pidx n d' t0 ts2 pc; cbn [app link_run link_texts
    count_param_texts length].
  - intros [= <-] H0 Hlt.
    replace (pc <=? pidx)%nat with false by (symmetry; apply Nat.leb_gt; lia).
    rewrite H0. f_equal. lia.
  - destruct (link_text d t) as [d1|] eqn:E; [|discriminate].
    intros H1 H0 Hlt.
    replace (pc <=? pidx)%nat with false
      by (symmetry; apply Nat.leb_gt; lia).
    rewrite (IH d1 _ (S n) d' t0 ts2 pc H1 H0).
    + f_equal. lia.
    + destruct (is_param_text t); lia.
Qed.

Lemma link_run_accept (ts1 : list (list byte)) :
  forall d (pidx n : nat) d' (ts2 : list (list byte)) (pc : nat),
  link_texts d ts1 = Some d' ->
  ts2 = [] \/ (pc <= pidx + count_param_texts ts1)%nat ->
  exists d'', link_run pc d pidx n (ts1 ++ ts2) = inl d''.
Proof.
  induction ts1 as [|t ts1 IH]; intros d pidx n d' ts2 pc; cbn [app link_run link_texts
    count_param_texts].
  - intros _ [->|Hle]; [simpl; eauto|].
    destruct ts2 as [|t2 ts2]; [simpl; eauto|]. simpl.
    replace (pc <=? pidx)%nat with true by (symmetry; apply Nat.leb_le; lia). eauto.
  - destruct (link_text d t) as [d1|] eqn:E; [|discriminate].
    intros H1 Hcase. destruct (pc <=? pidx)%nat; [eauto|].
    apply (IH d1 _ (S n) d' ts2 pc H1).
    destruct Hcase as [->|Hle]; [now left|right].
    destruct (is_param_text t); lia.
Qed.

Lemma count_param_texts_none (ts : list (list byte)) :
  forallb (fun t => negb (is_param_text t)) ts = true -> count_param_texts ts = 0%nat.
Proof.
  induction ts as [|t ts IH]; simpl; [reflexivity|].
  rewrite andb_true_iff. intros [Ht Hts]. rewrite IH by exact Hts.
  destruct (is_param_text t); [discriminate|reflexivity].
Qed.

Lemma count_param_texts_some (ts : list (list byte)) :
  existsb is_param_text ts = true -> (0 < count_param_texts ts)%nat.
Proof.
  induction ts as [|t ts IH]; simpl; [discriminate|].
  destruct (is_param_text t); simpl; [lia|]. intros H. specialize (IH H). lia.
Qed.

(** The verdict of [link_buffer] when its two allocations succeed. *)
Lemma link_buffer_verdict (w : World) (fsize : nat) (sp : Split) (s : State) :
  w_malloc w BParams = true ->
  w_malloc w BSects = true ->
  let r := link_buffer w fsize sp s in
  match link_lines (confreader_lineCount s) fsize (sp_paramCount sp) (sp_lines sp) 0
          (mkLink (sp_buf sp)
             (<[0%nat := Some (mkSection 0 None None)]> (replicate (sp_sectCount sp) None))
             (replicate (sp_paramCount sp) None) 0 0) with
  | inl _ => fst r = CONFREADER_OK
  | inr n => fst r = CONFREADER_ERROR /\
             confreaderErrorNum (snd r) = CONFREADER_EPARSINGFILE /\
             confreaderErrorLineNum (snd r) = n
  end.
Proof.
  intros Hm3 Hm4.
  destruct s as [fb ln lc pa pc en el se sc hp].
  unfold link_buffer, malloc.
  cbn [confreader_lineCount set_fileBuf set_lines set_paramCount set_sectCount].
  rewrite Hm3. cbn [set_heap set_params heap_live]. rewrite Hm4.
  cbn [set_heap set_sects heap_live confreader_lineCount].
  destruct (link_lines _ _ _ _ _ _) as [l'|line] eqn:E; cbn zeta.
  - reflexivity.
  - apply parse_error_fields.
Qed.

(** The verdict of a parse of a file without a stray carriage return, when
    every allocation succeeds: that of the linking loop on the lines. *)
Lemma parse_verdict (w : World) (s : State) (content : list byte) :
  w_file w = Contents content ->
  content <> [] ->
  (forall b, w_malloc w b = true) ->
  confreader_fileBuf s = None ->
  crlf_ok (content ++ [LF]) = true ->
  let r := confreaderParseFile w s in
  match link_run (count_params1 0 (raw_lines content)) ([], (None, [])) 0 0
          (map line_text (raw_lines content)) with
  | inl _ => fst r = CONFREADER_OK
  | inr n => fst r = CONFREADER_ERROR /\
             confreaderErrorNum (snd r) = CONFREADER_EPARSINGFILE /\
             confreaderErrorLineNum (snd r) = n
  end.
Proof.
  intros Hfile Hne Hm Hbuf Hcr.
  destruct (parse_reaches_split w s content Hfile Hne (Hm _) (Hm _) Hbuf)
    as (s1 & Hparse & Hlc & _).
  cbn zeta. rewrite Hparse. clear Hparse.
  pose proof (split_lines_ok content Hcr) as Hsplit. cbn zeta in Hsplit.
  rewrite Hsplit. clear Hsplit.
  pose proof (link_buffer_verdict w (length (content ++ [LF]))
                (mkSplit (map nul_eol (content ++ [LF])) (line_starts 0 (raw_lines content))
                   (length (raw_lines content)) (count_params1 0 (raw_lines content))
                   (count_sects 1 (raw_lines content))) s1 (Hm _) (Hm _)) as Hv.
  cbn zeta in Hv. cbn [sp_buf sp_lines sp_paramCount sp_sectCount] in Hv.
  pose proof (raw_lines_flat content) as Hflat.
  pose proof (raw_lines_lf_free content) as Hlf.
  set (ls := raw_lines content) in *.
  rewrite Hlc, Hflat, count_lf_flat in Hv by exact Hlf.
  rewrite map_nul_eol_flat in Hv.
  rewrite Hflat. rewrite map_nul_eol_flat.
  assert (Hsc : (1 <= count_sects 1 ls)%nat) by apply count_sects_ge.
  pose proof (link_lines_run ls []
                (mkLink (concat (map seg ls))
                   (<[0%nat := Some (mkSection 0 None None)]>
                      (replicate (count_sects 1 ls) None))
                   (replicate (count_params1 0 ls) None) 0 0)
                ([], (None, [])) [] (line_starts 0 ls)
                (length (flat ls)) (count_params1 0 ls)) as Hrun.
  cbn [lk_buf lk_sects lk_params lk_sectIdx lk_paramIdx length app] in Hrun.
  specialize (Hrun eq_refl).
  assert (Hlen : length (flat ls) = length (concat (map seg ls)))
    by (rewrite <- map_nul_eol_flat; now rewrite length_map).
  specialize (Hrun Hlen eq_refl (Rep_initial _ _ _ Hsc)).
  rewrite length_insert, !length_replicate in Hrun.
  specialize (Hrun (Nat.le_refl _) eq_refl).
  destruct (link_lines _ _ _ _ _ _) as [l'|n].
  - destruct Hrun as (d' & ->). exact Hv.
  - rewrite Hrun. exact Hv.
Qed.

Lemma forallb_fmap {A B} (p : B -> bool) (g : A -> B) (l : list A) :
  forallb p (map g l) = forallb (fun x => p (g x)) l.
Proof. induction l as [|x l IH]; simpl; [reflexivity|]. now rewrite IH. Qed.

Lemma existsb_fmap {A B} (p : B -> bool) (g : A -> B) (l : list A) :
  existsb p (map g l) = existsb (fun x => p (g x)) l.
Proof. induction l as [|x l IH]; simpl; [reflexivity|]. now rewrite IH. Qed.

Lemma parse_empty_ok (w : World) (s : State) :
  w_file w = Contents [] ->
  confreader_fileBuf s = None ->
  fst (confreaderParseFile w s) = CONFREADER_OK.
Proof.
  intros Hfile Hbuf. unfold confreaderParseFile.
  destruct s as [fb ln lc pa pc en el se sc hp]. simpl in Hbuf. subst fb.
  cbn [set_errorLineNum confreader_fileBuf]. rewrite Hfile. reflexivity.
Qed.

(** ** Keys *)

Lemma link_text_entries (Q : list byte * list byte -> Prop) d t d' :
  (forall e, parse_param t = Some e -> Q e) ->
  link_text d t = Some d' ->
  entries_all Q (close_doc d) -> entries_all Q (close_doc d').
Proof.
  intros HQ. unfold link_text, close_doc, entries_all.
  destruct d as [closed [nm es]]. cbn [fst snd].
  destruct t as [|c t']; [now intros [= <-]|].
  destruct (c =? LBRACKET).
  - destruct (parse_header t') as [n|]; [|discriminate].
    intros [= <-] Hg. cbn [fst snd].
    apply Forall_app. split; [exact Hg|]. repeat constructor.
  - destruct (is_comment c); [now intros [= <-]|].
    destruct (parse_param (c :: t')) as [e|] eqn:E; [|discriminate].
    intros [= <-] Hg. cbn [fst snd].
    apply Forall_app in Hg as [Hg1 Hg2].
    apply Forall_app. split; [exact Hg1|].
    inversion Hg2 as [|? ? Hes _]; subst. constructor; [|constructor].
    cbn [snd] in *. apply Forall_app. split; [exact Hes|].
    constructor; [|constructor]. now apply HQ.
Qed.

Lemma link_texts_entries (Q : list byte * list byte -> Prop) ts : forall d d',
  (forall t e, parse_param t = Some e -> Q e) ->
  link_texts d ts = Some d' ->
  entries_all Q (close_doc d) -> entries_all Q (close_doc d').
Proof.
  induction ts as [|t ts IH]; intros d d' HQ; simpl.
  - now intros [= <-].
  - destruct (link_text d t) as [d1|] eqn:E; [|discriminate].
    intros H Hg. apply (IH d1 d' HQ H).
    eapply link_text_entries; eauto.
Qed.

Lemma parse_param_key (t : list byte) (e : list byte * list byte) :
  parse_param t = Some e -> forallb is_keych (fst e) = true.
Proof.
  unfold parse_param.
  destruct (skip_while is_keych t) as [|s0 r]; [discriminate|].
  destruct (skip_while is_sep r) as [|c v']; [discriminate|].
  destruct (is_comment c); [discriminate|].
  destruct (scan_value 0 (c :: v')); [|discriminate].
  intros [= <-]. cbn [fst].
  pose proof (span_all is_keych t) as H.
  induction H as [|x l Hx _ IH]; simpl; [reflexivity|]. now rewrite Hx.
Qed.

(** Every key stored by a successful parse is free of separators. *)
Lemma parse_keys_plain (w : World) (s : State) (table : list (option ConfreaderParam))
    (j : nat) (p : ConfreaderParam) :
  fst (confreaderParseFile w s) = CONFREADER_OK ->
  confreader_params (snd (confreaderParseFile w s)) = Some table ->
  table !! j = Some (Some p) ->
  forallb is_keych (string_at (snd (confreaderParseFile w s)) (key p)) = true.
Proof.
  intros Hok Htable Hj.
  destruct (parse_ok_contents w s Hok) as [Hbuf [Hsz|(content & Hfile & Hne)]].
  - exfalso. destruct (parse_outcome w s Hbuf) as [(_ & _ & [[_ Hp]|[Hn _]])|[He _]].
    + destruct Hp as (_ & _ & Hp & _). rewrite Hp in Htable. discriminate.
    + contradiction.
    + rewrite He in Hok. discriminate.
  - destruct (parse_success_rep w s content Hfile Hne Hok)
      as (ls1 & ls2 & d' & P' & l' & H1 & H2 & H3 & H4 & H5 & H6 & H7 & H8 & Hst).
    cbn zeta in Hst. destruct Hst as (S1 & S2 & S3 & S4 & S5).
    rewrite S3 in Htable. injection Htable as <-.
    unfold string_at. rewrite S1, H4.
    destruct (Rep_slot l' d' P' (concat (map seg ls2)) j p H3 Hj)
      as (i & sec & j' & e & Hi & He & Hk & _).
    rewrite Hk.
    pose proof (link_texts_entries (fun e => forallb is_keych (fst e) = true)
                  _ _ _ parse_param_key H2) as Hall.
    assert (Hinit : entries_all (fun e => forallb is_keych (fst e) = true)
                      (close_doc ([], (None, []))))
      by (repeat constructor).
    specialize (Hall Hinit). unfold entries_all in Hall.
    rewrite Forall_lookup in Hall. specialize (Hall _ _ Hi).
    rewrite Forall_lookup in Hall. exact (Hall _ _ He).
Qed.

(** * Further properties of the reader *)

(** ** Stored values *)

(** After a successful parse, the value of every parameter record is not
    empty, and neither its first nor its last byte is a blank, a comment
    marker or a terminator; [confreaderGetChar] on a parameter that is
    found returns that first byte. *)
Theorem stored_values_are_trimmed (w : World) (s : State) :
  fst (confreaderParseFile w s) = CONFREADER_OK ->
  let s' := snd (confreaderParseFile w s) in
  (forall table j p,
     confreader_params s' = Some table -> table !! j = Some (Some p) ->
     good_value (string_at s' (value p))) /\
  (forall k section vp st dflt,
     confreaderFind k section s' = (Defined (Some vp), st) ->
     good_value (string_at s' vp) /\
     fst (confreaderGetChar k section dflt s') = Defined (hd 0 (string_at s' vp)) /\
     plain (hd 0 (string_at s' vp)) = true).
Proof.
  intros Hok s'. split.
  - intros table j p Ht Hj. exact (parse_values_good w s table j p Hok Ht Hj).
  - intros k section vp st dflt Hfind.
    destruct (find_slot _ _ _ _ _ Hfind) as (buf & table & i & p & _ & Ht & Hi & <- & _).
    pose proof (parse_values_good w s table i p Hok Ht Hi) as Hgood.
    split; [exact Hgood|]. split.
    + unfold confreaderGetChar. fold s'. rewrite Hfind. cbn [fst].
      now rewrite char_at_hd.
    + apply Hgood.
Qed.

Lemma stored_values_are_trimmed_witness :
  let s' := load (bytes "A =  hello world  # note" ++ [LF]) in
  (forall table j p,
     confreader_params s' = Some table -> table !! j = Some (Some p) ->
     good_value (string_at s' (value p))) /\
  (forall k section vp st dflt,
     confreaderFind k section s' = (Defined (Some vp), st) ->
     good_value (string_at s' vp) /\
     fst (confreaderGetChar k section dflt s') = Defined (hd 0 (string_at s' vp)) /\
     plain (hd 0 (string_at s' vp)) = true).
Proof.
  apply (stored_values_are_trimmed
           (world_of (bytes "A =  hello world  # note" ++ [LF])) initial_state).
  vm_compute. reflexivity.
Defined.

(** ** Round trip *)

Lemma getString_of_find (k : list byte) (section : option (list byte)) (dflt : list byte)
    (s : State) (buf : list byte) (vp : nat) :
  confreader_fileBuf s = Some buf ->
  find_value buf s k section = Defined (Some vp) ->
  confreaderGetString k section dflt s
  = (Defined (cstr buf vp), set_errorNum CONFREADER_OK s).
Proof.
  intros Hb Hf. unfold confreaderGetString, confreaderFind, string_at.
  now rewrite Hb, Hf.
Qed.

(** After a successful parse of a file without NUL bytes, a lookup returns
    the value of the first parameter whose key matches, in the first
    section whose name matches (without case); that value is the substring
    of the parameter line between the run of separators after the key and
    the next comment marker that follows a blank, or the line end, without
    its trailing blanks. *)
Theorem find_returns_first_match (w : World) (s : State) (content k v dflt : list byte)
    (section : option (list byte)) :
  w_file w = Contents content ->
  nul_free content ->
  fst (confreaderParseFile w s) = CONFREADER_OK ->
  spec_find (spec_doc content) k section = Some v ->
  let s' := snd (confreaderParseFile w s) in
  confreaderGetString k section dflt s' = (Defined v, set_errorNum CONFREADER_OK s').
Proof.
  intros Hfile Hnul Hok Hfind s'.
  destruct content as [|c0 content0] eqn:Hc.
  { exfalso. revert Hfind. destruct section; vm_compute; discriminate. }
  rewrite <- Hc in *. assert (Hne : content <> []) by (rewrite Hc; discriminate).
  clear Hc.
  destruct (parse_success_doc w s content Hfile Hne Hnul Hok)
    as (d' & P' & X & l' & extra & Hdoc & Hx & HRep & Hbuf & Hgood & Hnamed & Hcap & Hst).
  cbn zeta in Hst. destruct Hst as (S1 & S2 & S3 & S4 & S5).
  rewrite Hdoc in Hfind.
  apply spec_find_app_empty in Hfind; [|unfold close_doc; destruct (fst d'); discriminate|exact Hx].
  destruct HRep as (R1 & R2 & R3 & R4).
  destruct (find_value_spec (lk_buf l') P' X s' (lk_sects l') (lk_params l')
              (close_doc d') k section v Hbuf S2 S3) as (vp & Hfv & Hstr); auto.
  { unfold s'. rewrite S4. unfold close_doc. rewrite length_snoc. lia. }
  rewrite (getString_of_find k section dflt s' (lk_buf l') vp S1 Hfv).
  now rewrite Hstr.
Qed.

Lemma find_returns_first_match_witness :
  let content := bytes "a = 1" ++ [LF] ++ bytes "[Sect]" ++ [LF]
                 ++ bytes "Key = first value  ; note" ++ [CR; LF]
                 ++ bytes "KEY = second" ++ [LF] in
  let s' := load content in
  confreaderGetString (bytes "key") (Some (bytes "SECT")) [] s'
  = (Defined (bytes "first value"), set_errorNum CONFREADER_OK s').
Proof.
  apply (find_returns_first_match
           (world_of (bytes "a = 1" ++ [LF] ++ bytes "[Sect]" ++ [LF]
                      ++ bytes "Key = first value  ; note" ++ [CR; LF]
                      ++ bytes "KEY = second" ++ [LF]))
           initial_state _ (bytes "key") (bytes "first value") []
           (Some (bytes "SECT")) eq_refl).
  - vm_compute. repeat (constructor; [discriminate|]). constructor.
  - vm_compute. reflexivity.
  - vm_compute. reflexivity.
Defined.

(** ** Scope of a lookup *)

(** After a successful parse of a file without NUL bytes, a lookup without
    a section searches the parameters before the first header and nothing
    else: it returns the value of the first of them whose key matches, and
    the default with [CONFREADER_ENOPARAM] when none matches, whatever the
    named sections hold. *)
Theorem unscoped_lookup_stays_before_first_header (w : World) (s : State)
    (content k dflt : list byte) :
  w_file w = Contents content ->
  nul_free content ->
  fst (confreaderParseFile w s) = CONFREADER_OK ->
  let s' := snd (confreaderParseFile w s) in
  confreaderGetString k None dflt s'
  = match lookup_key k (snd (hd (None, []) (spec_doc content))) with
    | Some v => (Defined v, set_errorNum CONFREADER_OK s')
    | None => (Defined dflt, set_errorNum CONFREADER_ENOPARAM s')
    end.
Proof.
  intros Hfile Hnul Hok s'.
  destruct content as [|c0 content0] eqn:Hc.
  { destruct (parse_ok_contents w s Hok) as [Hbuf _].
    destruct (parse_outcome w s Hbuf) as [(_ & _ & [[_ Hp]|[Hn _]])|[He _]].
    - destruct Hp as (Hp & _). fold s' in Hp.
      unfold confreaderGetString, confreaderFind. rewrite Hp. reflexivity.
    - rewrite Hfile in Hn. simpl in Hn. congruence.
    - rewrite He in Hok. discriminate. }
  rewrite <- Hc in *. assert (Hne : content <> []) by (rewrite Hc; discriminate).
  clear Hc.
  destruct (parse_success_doc w s content Hfile Hne Hnul Hok)
    as (d' & P' & X & l' & extra & Hdoc & Hx & HRep & Hbuf & Hgood & Hnamed & Hcap & Hst).
  cbn zeta in Hst. destruct Hst as (S1 & S2 & S3 & S4 & S5).
  destruct HRep as (R1 & R2 & R3 & R4).
  rewrite Hdoc.
  destruct (close_doc d') as [|[nm0 es0] rest] eqn:Ed.
  { unfold close_doc in Ed. destruct (fst d'); discriminate. }
  cbn [app hd snd].
  pose proof (find_unscoped_spec (lk_buf l') P' X s' (lk_sects l') (lk_params l')
                nm0 es0 rest k Hbuf S2 S3 R3) as Hf.
  destruct (lookup_key k es0) as [v|].
  - destruct Hf as (vp & Hfv & Hstr).
    rewrite (getString_of_find k None dflt s' (lk_buf l') vp S1 Hfv). now rewrite Hstr.
  - apply (getString_not_found k None dflt s' (lk_buf l') S1 Hf).
Qed.

Lemma unscoped_lookup_stays_before_first_header_witness :
  let content := bytes "a = 1" ++ [LF] ++ bytes "[Sect]" ++ [LF] ++ bytes "b = 2" ++ [LF] in
  let s' := load content in
  confreaderGetString (bytes "b") None (bytes "none") s'
  = match lookup_key (bytes "b") (snd (hd (None, []) (spec_doc content))) with
    | Some v => (Defined v, set_errorNum CONFREADER_OK s')
    | None => (Defined (bytes "none"), set_errorNum CONFREADER_ENOPARAM s')
    end.
Proof.
  apply (unscoped_lookup_stays_before_first_header
           (world_of (bytes "a = 1" ++ [LF] ++ bytes "[Sect]" ++ [LF] ++ bytes "b = 2" ++ [LF]))
           initial_state _ (bytes "b") (bytes "none") eq_refl).
  - vm_compute. repeat (constructor; [discriminate|]). constructor.
  - vm_compute. reflexivity.
Defined.

(** After a successful parse of a file without NUL bytes, a lookup in a
    section that holds a parameter searches the first section whose name
    matches and nothing else: it returns the value of its first parameter
    whose key matches, and the default with [CONFREADER_ENOPARAM] when none
    matches, whatever the other sections hold. *)
Theorem scoped_lookup_stays_in_first_matching_section (w : World) (s : State)
    (content k sec dflt : list byte) (nm : option (list byte))
    (es : list (list byte * list byte)) :
  w_file w = Contents content ->
  nul_free content ->
  fst (confreaderParseFile w s) = CONFREADER_OK ->
  lookup_sect sec (tail (spec_doc content)) = Some (nm, es) ->
  es <> [] ->
  let s' := snd (confreaderParseFile w s) in
  confreaderGetString k (Some sec) dflt s'
  = match lookup_key k es with
    | Some v => (Defined v, set_errorNum CONFREADER_OK s')
    | None => (Defined dflt, set_errorNum CONFREADER_ENOPARAM s')
    end.
Proof.
  intros Hfile Hnul Hok Hsect Hes s'.
  destruct content as [|c0 content0] eqn:Hc.
  { exfalso. revert Hsect. vm_compute. discriminate. }
  rewrite <- Hc in *. assert (Hne : content <> []) by (rewrite Hc; discriminate).
  clear Hc.
  destruct (parse_success_doc w s content Hfile Hne Hnul Hok)
    as (d' & P' & X & l' & extra & Hdoc & Hx & HRep & Hbuf & Hgood & Hnamed & Hcap & Hst).
  cbn zeta in Hst. destruct Hst as (S1 & S2 & S3 & S4 & S5).
  destruct HRep as (R1 & R2 & R3 & R4).
  rewrite Hdoc in Hsect.
  assert (Hsect' : lookup_sect sec (tail (close_doc d')) = Some (nm, es)).
  { destruct (close_doc d') as [|sec0 rest] eqn:Ed.
    { unfold close_doc in Ed. destruct (fst d'); discriminate. }
    cbn [app tail] in *. rewrite lookup_sect_app in Hsect.
    destruct (lookup_sect sec rest); [exact Hsect|].
    apply (lookup_sect_entries _ _ _ _ Hx) in Hsect. congruence. }
  pose proof (find_scoped_spec (lk_buf l') P' X s' (lk_sects l') (lk_params l')
                (close_doc d') k sec nm es Hbuf S2 S3) as Hf.
  specialize (Hf ltac:(unfold s'; rewrite S4; unfold close_doc; rewrite length_snoc; lia)
                 R3 Hnamed Hsect').
  destruct (lookup_key k es) as [v|].
  - destruct Hf as (vp & Hfv & Hstr).
    rewrite (getString_of_find k (Some sec) dflt s' (lk_buf l') vp S1 Hfv). now rewrite Hstr.
  - apply (getString_not_found k (Some sec) dflt s' (lk_buf l') S1 Hf).
Qed.

Lemma scoped_lookup_stays_in_first_matching_section_witness :
  let content := bytes "a = 1" ++ [LF] ++ bytes "[Sect]" ++ [LF] ++ bytes "b = 2" ++ [LF]
                 ++ bytes "[Other]" ++ [LF] ++ bytes "a = 3" ++ [LF] in
  let s' := load content in
  confreaderGetString (bytes "a") (Some (bytes "sect")) (bytes "none") s'
  = match lookup_key (bytes "a") [(bytes "b", bytes "2")] with
    | Some v => (Defined v, set_errorNum CONFREADER_OK s')
    | None => (Defined (bytes "none"), set_errorNum CONFREADER_ENOPARAM s')
    end.
Proof.
  apply (scoped_lookup_stays_in_first_matching_section
           (world_of (bytes "a = 1" ++ [LF] ++ bytes "[Sect]" ++ [LF] ++ bytes "b = 2" ++ [LF]
                      ++ bytes "[Other]" ++ [LF] ++ bytes "a = 3" ++ [LF]))
           initial_state _ (bytes "a") (bytes "sect") (bytes "none")
           (Some (bytes "Sect")) [(bytes "b", bytes "2")] eq_refl).
  - vm_compute. repeat (constructor; [discriminate|]). constructor.
  - vm_compute. reflexivity.
  - vm_compute. reflexivity.
  - discriminate.
Defined.

(** ** Sections *)

(** After a successful parse of a file without NUL bytes, every header that
    comes before a parameter line is a section [confreaderHasSection]
    finds, under any spelling of its name that differs in letter case
    only. *)
Theorem hasSection_finds_headers_before_a_parameter (w : World) (s : State)
    (content sec nm : list byte) (i i' : nat)
    (es es' : list (list byte * list byte)) (nm' : option (list byte)) :
  w_file w = Contents content ->
  nul_free content ->
  fst (confreaderParseFile w s) = CONFREADER_OK ->
  (1 <= i <= i')%nat ->
  spec_doc content !! i = Some (Some nm, es) ->
  spec_doc content !! i' = Some (nm', es') ->
  es' <> [] ->
  strcasecmp_eq sec nm = true ->
  let s' := snd (confreaderParseFile w s) in
  confreaderHasSection sec s' = (Defined true, s').
Proof.
  intros Hfile Hnul Hok Hi Hsec Hsec' Hes Heq s'.
  destruct content as [|c0 content0] eqn:Hc.
  { exfalso. revert Hsec. destruct i as [|[|i]]; [lia| |]; vm_compute; discriminate. }
  rewrite <- Hc in *. assert (Hne : content <> []) by (rewrite Hc; discriminate).
  clear Hc.
  destruct (parse_success_doc w s content Hfile Hne Hnul Hok)
    as (d' & P' & X & l' & extra & Hdoc & Hx & HRep & Hbuf & Hgood & Hnamed & Hcap & Hst).
  cbn zeta in Hst. destruct Hst as (S1 & S2 & S3 & S4 & S5).
  destruct HRep as (R1 & R2 & R3 & R4).
  rewrite Hdoc in Hsec, Hsec'.
  set (doc := close_doc d') in *.
  assert (Hlen : length doc = S (lk_sectIdx l'))
    by (unfold doc, close_doc; rewrite length_snoc; lia).
  assert (Hi' : (i' < length doc)%nat).
  { destruct (decide (i' < length doc)%nat) as [H|H]; [exact H|].
    rewrite lookup_app_r in Hsec' by lia.
    rewrite Forall_lookup in Hx. apply Hx in Hsec'. simpl in Hsec'. congruence. }
  rewrite lookup_app_l in Hsec by lia.
  destruct doc as [|sec0 rest] eqn:Ed; [simpl in Hlen; lia|].
  destruct i as [|j]; [lia|]. cbn [lookup] in Hsec.
  change ((sec0 :: rest) !! S j) with (rest !! j) in Hsec.
  destruct (lookup_sect_hit sec rest j nm es Hsec Heq) as (sp & Hsp).
  pose proof (find_sect_spec (lk_buf l') P' X (lk_sects l') (lk_params l') sec
                (sec0 :: rest) Hbuf R3 Hnamed (confreaderSectCount s' - 1) 1 ltac:(lia)) as Hfs.
  cbn [drop] in Hfs. rewrite drop_0, Hsp in Hfs.
  destruct Hfs as (i0 & si & Hfs & _).
  { unfold s'. rewrite S4. simpl in Hlen. simpl. lia. }
  unfold confreaderHasSection, has_sect.
  assert (Hcount : exists n, (confreaderSectCount s' - 1)%nat = S n).
  { unfold s'. rewrite S4. simpl in *. apply lookup_lt_Some in Hsec.
    exists (length (lk_sects l') - 2)%nat. lia. }
  destruct Hcount as (n & Hn). rewrite Hn in *.
  unfold s' in *. rewrite S1, S2, Hfs. reflexivity.
Qed.

Lemma hasSection_finds_headers_before_a_parameter_witness :
  let content := bytes "[First]" ++ [LF] ++ bytes "[Second]" ++ [LF] ++ bytes "b = 2" ++ [LF]
                 ++ bytes "[Last]" ++ [LF] in
  let s' := load content in
  confreaderHasSection (bytes "FIRST") s' = (Defined true, s').
Proof.
  apply (hasSection_finds_headers_before_a_parameter
           (world_of (bytes "[First]" ++ [LF] ++ bytes "[Second]" ++ [LF] ++ bytes "b = 2" ++ [LF]
                      ++ bytes "[Last]" ++ [LF]))
           initial_state _ (bytes "FIRST") (bytes "First") 1 2 []
           [(bytes "b", bytes "2")] (Some (bytes "Second")) eq_refl).
  - vm_compute. repeat (constructor; [discriminate|]). constructor.
  - vm_compute. reflexivity.
  - lia.
  - vm_compute. reflexivity.
  - vm_compute. reflexivity.
  - discriminate.
  - vm_compute. reflexivity.
Defined.

(** ** Release *)

(** [confreaderClear] after a successful parse frees the buffer and both
    tables: no pointer and no live block of the parse is left, and the
    reader accepts the next load. *)
Theorem clear_releases_a_loaded_document (w : World) (s : State) :
  fst (confreaderParseFile w s) = CONFREADER_OK ->
  let s2 := confreaderClear (snd (confreaderParseFile w s)) in
  pristine s2 /\
  heap_live s2 = heap_live s /\
  (forall w', confreaderErrorNum (snd (confreaderParseFile w' s2)) <> CONFREADER_EBUSY).
Proof.
  intros Hok s2.
  assert (H : pristine s2 /\ heap_live s2 = heap_live s).
  { destruct (parse_ok_contents w s Hok) as [Hbuf [Hsz|(content & Hfile & Hne)]].
    - destruct (parse_ok_empty w s Hsz Hbuf) as [Hp Hh].
      subst s2. destruct (snd (confreaderParseFile w s)) as [fb ln lc pa pc en el se sc hp].
      destruct Hp as (H1 & H2 & H3 & H4 & H5). simpl in *. subst.
      unfold pristine. simpl. auto 10.
    - pose proof (parse_ok_heap w s content Hfile Hne Hok) as Hh.
      destruct (parse_outcome w s Hbuf) as [(_ & _ & [[Hz _]|[_ Hl]])|[He _]].
      + rewrite Hfile in Hz. simpl in Hz. destruct content; [congruence|discriminate].
      + subst s2. destruct (snd (confreaderParseFile w s)) as [fb ln lc pa pc en el se sc hp].
        destruct Hl as ([b Hb] & [t1 Ht1] & [t2 Ht2] & Hln). simpl in *. subst.
        unfold pristine. simpl. auto 10.
      + rewrite He in Hok. discriminate. }
  destruct H as [Hp Hh]. split; [exact Hp|]. split; [exact Hh|].
  intros w'. destruct Hp as (H1 & _).
  destruct (parse_outcome w' s2 H1) as [(_ & E & _)|(_ & E & _)].
  - rewrite E. discriminate.
  - intros E'. rewrite E' in E. destruct E as [E|[E|E]]; discriminate E.
Qed.

Lemma clear_releases_a_loaded_document_witness :
  let w := world_of (bytes "[S]" ++ [LF] ++ bytes "a = 1" ++ [LF]) in
  let s2 := confreaderClear (snd (confreaderParseFile w initial_state)) in
  pristine s2 /\
  heap_live s2 = heap_live initial_state /\
  (forall w', confreaderErrorNum (snd (confreaderParseFile w' s2)) <> CONFREADER_EBUSY).
Proof.
  apply (clear_releases_a_loaded_document
           (world_of (bytes "[S]" ++ [LF] ++ bytes "a = 1" ++ [LF])) initial_state).
  vm_compute. reflexivity.
Defined.

(** ** What the parser writes *)

(** A successful parse of a non-empty file keeps the file's bytes, followed
    by the line feed the reader appends, in a buffer of one byte more than
    the file; it overwrites bytes of that buffer with the terminator and
    writes nothing else: every byte of the buffer is the byte of the file
    at that offset or 0. *)
Theorem parser_only_writes_terminators (w : World) (s : State) (content : list byte) :
  w_file w = Contents content ->
  content <> [] ->
  fst (confreaderParseFile w s) = CONFREADER_OK ->
  exists buf,
    confreader_fileBuf (snd (confreaderParseFile w s)) = Some buf /\
    length buf = S (length content) /\
    forall i, rd buf i = rd (content ++ [LF]) i \/ rd buf i = 0.
Proof.
  intros Hfile Hne Hok.
  destruct (parse_ok_run w s content Hfile Hne Hok) as (sp & l' & Hsplit & Hlink & Hbuf & _).
  exists (lk_buf l'). split; [exact Hbuf|].
  pose proof (split_lines_zeroed (length (content ++ [LF])) (length (content ++ [LF]))
                (mkSplit (content ++ [LF])
                   (replicate (count_lf (content ++ [LF])) 0%nat) 0 0 1) 0) as H1.
  rewrite Hsplit in H1. cbn [sp_buf] in H1.
  pose proof (link_lines_zeroed _ _ _ _ _ _ _ Hlink) as H2. cbn [lk_buf] in H2.
  destruct (zeroed_trans _ _ _ H1 H2) as [Hlen Hrd].
  split; [|exact Hrd].
  rewrite Hlen, length_app. simpl. lia.
Qed.

Lemma parser_only_writes_terminators_witness :
  exists buf,
    confreader_fileBuf (load (bytes "[s] # one" ++ [CR; LF] ++ bytes "k = v")) = Some buf /\
    length buf = S (length (bytes "[s] # one" ++ [CR; LF] ++ bytes "k = v")) /\
    forall i, rd buf i = rd ((bytes "[s] # one" ++ [CR; LF] ++ bytes "k = v") ++ [LF]) i
              \/ rd buf i = 0.
Proof.
  apply (parser_only_writes_terminators
           (world_of (bytes "[s] # one" ++ [CR; LF] ++ bytes "k = v")) initial_state _ eq_refl).
  - discriminate.
  - vm_compute. reflexivity.
Defined.

(** ** Letter case *)

(** Lookups compare keys and section names without regard to the case of
    ASCII letters: two keys, and two section names, that are equal once
    their upper-case letters are lowered give the same result and the same
    error code, in every state of the reader. *)
Theorem lookup_ignores_case (k k' sec sec' : list byte) (s : State) :
  map tolower k = map tolower k' ->
  map tolower sec = map tolower sec' ->
  confreaderFind k None s = confreaderFind k' None s /\
  confreaderFind k (Some sec) s = confreaderFind k' (Some sec') s /\
  confreaderHasSection sec s = confreaderHasSection sec' s /\
  (forall dflt, confreaderGetString k (Some sec) dflt s
                = confreaderGetString k' (Some sec') dflt s).
Proof.
  intros Hk Hs.
  assert (H1 : confreaderFind k (Some sec) s = confreaderFind k' (Some sec') s).
  { apply confreaderFind_congr; [exact Hk|]. simpl. now rewrite Hs. }
  split; [now apply confreaderFind_congr|]. split; [exact H1|].
  split; [now apply confreaderHasSection_congr|].
  intros dflt. unfold confreaderGetString. now rewrite H1.
Qed.

Lemma lookup_ignores_case_witness :
  let s := load (bytes "[Net]" ++ [LF] ++ bytes "Port = 80" ++ [LF]) in
  confreaderFind (bytes "PORT") None s = confreaderFind (bytes "port") None s /\
  confreaderFind (bytes "PORT") (Some (bytes "net")) s
  = confreaderFind (bytes "port") (Some (bytes "NET")) s /\
  confreaderHasSection (bytes "net") s = confreaderHasSection (bytes "NET") s /\
  (forall dflt, confreaderGetString (bytes "PORT") (Some (bytes "net")) dflt s
                = confreaderGetString (bytes "port") (Some (bytes "NET")) dflt s).
Proof.
  apply (lookup_ignores_case (bytes "PORT") (bytes "port") (bytes "net") (bytes "NET")
           (load (bytes "[Net]" ++ [LF] ++ bytes "Port = 80" ++ [LF]))).
  - vm_compute. reflexivity.
  - vm_compute. reflexivity.
Defined.

(** ** Typed accessors *)

(** [confreaderGetInt] on a parameter whose value is a non-empty string of
    decimal digits, with or without a minus sign in front, returns the
    number the string denotes when it fits a 32-bit [int], and reports no
    error. *)
Theorem getInt_reads_decimal (k : list byte) (section : option (list byte)) (dflt : Z)
    (s s' : State) (v : nat) (neg : bool) (ds : list byte) :
  confreaderFind k section s = (Defined (Some v), s') ->
  string_at s v = (if neg then [MINUS] else []) ++ ds ->
  ds <> [] ->
  forallb is_digit ds = true ->
  - 2 ^ 31 <= (if neg then - digits_value ds else digits_value ds) < 2 ^ 31 ->
  confreaderGetInt k section dflt s
  = (Defined (if neg then - digits_value ds else digits_value ds), s').
Proof.
  intros Hfind Hval Hne Hds Hrange. unfold confreaderGetInt.
  rewrite Hfind. cbn zeta. rewrite Hval.
  rewrite (int_check_signed neg ds Hne Hds).
  rewrite (strtol_signed neg ds Hne Hds).
  now rewrite (int_of_long_small _ Hrange).
Qed.

Lemma getInt_reads_decimal_witness :
  let s := load (bytes "n = -2048 # size" ++ [LF]) in
  confreaderGetInt (bytes "N") None 7 s = (Defined (- digits_value (bytes "2048")),
                                           set_errorNum CONFREADER_OK s).
Proof.
  apply (getInt_reads_decimal (bytes "N") None 7
           (load (bytes "n = -2048 # size" ++ [LF]))
           (set_errorNum CONFREADER_OK (load (bytes "n = -2048 # size" ++ [LF])))
           4%nat true (bytes "2048")).
  - vm_compute. reflexivity.
  - vm_compute. reflexivity.
  - discriminate.
  - vm_compute. reflexivity.
  - split; [discriminate|reflexivity].
Defined.

(** [confreaderGetInt] on a parameter whose value is empty, or has a byte
    that is not a decimal digit anywhere but for a minus sign in front,
    returns the default and sets [CONFREADER_EINVVAL]: white space, a plus
    sign, a decimal point or a letter in the value makes it so. *)
Theorem getInt_rejects_other_text (k : list byte) (section : option (list byte)) (dflt : Z)
    (s s' : State) (v : nat) :
  confreaderFind k section s = (Defined (Some v), s') ->
  string_at s v = [] \/ forallb is_digit (unsigned_part (string_at s v)) = false ->
  confreaderGetInt k section dflt s
  = (Defined dflt, set_errorNum CONFREADER_EINVVAL s').
Proof.
  intros Hfind Hbad. unfold confreaderGetInt. rewrite Hfind. cbn zeta.
  assert (Hc : int_check (string_at s v) = false).
  { unfold int_check. destruct (string_at s v) as [|c r]; [reflexivity|].
    destruct Hbad as [Hbad|Hbad]; [discriminate|].
    change (char_at (c :: r) 0) with c. cbn [tail].
    rewrite digits_only_forallb. unfold unsigned_part in Hbad.
    destruct (c =? MINUS) eqn:Em.
    - rewrite andb_false_r. exact Hbad.
    - simpl in Hbad. destruct (is_digit c); [exact Hbad|reflexivity]. }
  now rewrite Hc.
Qed.

Lemma getInt_rejects_other_text_witness :
  let s := load (bytes "n = +12" ++ [LF]) in
  confreaderGetInt (bytes "n") None 7 s
  = (Defined 7, set_errorNum CONFREADER_EINVVAL (set_errorNum CONFREADER_OK s)).
Proof.
  apply (getInt_rejects_other_text (bytes "n") None 7 (load (bytes "n = +12" ++ [LF]))
           (set_errorNum CONFREADER_OK (load (bytes "n = +12" ++ [LF]))) 4%nat).
  - vm_compute. reflexivity.
  - right. vm_compute. reflexivity.
Defined.

(** [confreaderGetBool] on a parameter that is found returns 1 when the
    value is [yes] or [true] in any letter case or the single character
    [1], 0 when it is [no] or [false] in any letter case or the single
    character [0], and otherwise the default with [CONFREADER_EINVVAL]. *)
Theorem getBool_reads_words (k : list byte) (section : option (list byte)) (dflt : Z)
    (s s' : State) (v : nat) :
  confreaderFind k section s = (Defined (Some v), s') ->
  confreaderGetBool k section dflt s
  = match bool_of_text (string_at s v) with
    | Some b => (Defined b, s')
    | None => (Defined dflt, set_errorNum CONFREADER_EINVVAL s')
    end.
Proof.
  intros Hfind. unfold confreaderGetBool. rewrite Hfind. cbn zeta.
  rewrite <- (getBool_test (string_at s v) (string_at_nul_free s v)).
  destruct (_ || _ || _); [reflexivity|].
  destruct (_ || _ || _); reflexivity.
Qed.

Lemma getBool_reads_words_witness :
  let s := load (bytes "on = TrUe" ++ [LF]) in
  confreaderGetBool (bytes "on") None 5 s
  = match bool_of_text (string_at s 5) with
    | Some b => (Defined b, set_errorNum CONFREADER_OK s)
    | None => (Defined 5, set_errorNum CONFREADER_EINVVAL (set_errorNum CONFREADER_OK s))
    end.
Proof.
  intros s.
  apply (getBool_reads_words (bytes "on") None 5 s (set_errorNum CONFREADER_OK s) 5%nat).
  vm_compute. reflexivity.
Defined.

(** ** A reader that holds nothing *)

(** After a call of [confreaderParseFile] that fails on a reader that held
    no document, or that reads an empty file, every accessor is safe to
    call: it touches no table, returns its default (0 for
    [confreaderHas] and [confreaderHasSection]) and sets
    [CONFREADER_ENOPARAM] ([CONFREADER_ENOSECT] for
    [confreaderHasSection]). *)
Theorem accessors_fall_back_when_nothing_is_loaded (w : World) (s : State)
    (k sec : list byte) (section : option (list byte)) :
  confreader_fileBuf s = None ->
  fst (confreaderParseFile w s) = CONFREADER_ERROR \/ st_size_of (w_file w) = Some 0%nat ->
  let s' := snd (confreaderParseFile w s) in
  let miss := set_errorNum CONFREADER_ENOPARAM s' in
  (forall d, confreaderGetString k section d s' = (Defined d, miss)) /\
  (forall d, confreaderGetChar k section d s' = (Defined d, miss)) /\
  (forall d, confreaderGetInt k section d s' = (Defined d, miss)) /\
  (forall d, confreaderGetBool k section d s' = (Defined d, miss)) /\
  confreaderHas k section s' = (Defined false, miss) /\
  confreaderHasSection sec s' = (Defined false, set_errorNum CONFREADER_ENOSECT s').
Proof.
  intros Hbuf Hcase s' miss.
  assert (Hp : pristine s').
  { destruct Hcase as [Herr|Hsz].
    - destruct (parse_outcome w s Hbuf) as [(Hok & _)|(_ & _ & Hp & _)]; [|exact Hp].
      rewrite Herr in Hok. discriminate.
    - exact (proj1 (parse_ok_empty w s Hsz Hbuf)). }
  destruct Hp as (Hfb & _ & _ & _ & Hsc).
  pose proof (find_unloaded k section s' Hfb) as Hfind. fold miss in Hfind.
  unfold confreaderGetString, confreaderGetChar, confreaderGetInt, confreaderGetBool,
    confreaderHas.
  rewrite Hfind.
  repeat (split; [reflexivity|]).
  unfold confreaderHasSection, has_sect. now rewrite Hsc.
Qed.

Lemma accessors_fall_back_when_nothing_is_loaded_witness :
  let s' := snd (confreaderParseFile (mkWorld OpenFails (fun _ => true)) initial_state) in
  let miss := set_errorNum CONFREADER_ENOPARAM s' in
  (forall d, confreaderGetString (bytes "k") (Some (bytes "sec")) d s' = (Defined d, miss)) /\
  (forall d, confreaderGetChar (bytes "k") (Some (bytes "sec")) d s' = (Defined d, miss)) /\
  (forall d, confreaderGetInt (bytes "k") (Some (bytes "sec")) d s' = (Defined d, miss)) /\
  (forall d, confreaderGetBool (bytes "k") (Some (bytes "sec")) d s' = (Defined d, miss)) /\
  confreaderHas (bytes "k") (Some (bytes "sec")) s' = (Defined false, miss) /\
  confreaderHasSection (bytes "sec") s' = (Defined false, set_errorNum CONFREADER_ENOSECT s').
Proof.
  apply (accessors_fall_back_when_nothing_is_loaded
           (mkWorld OpenFails (fun _ => true)) initial_state
           (bytes "k") (bytes "sec") (Some (bytes "sec"))).
  - reflexivity.
  - left. vm_compute. reflexivity.
Defined.

(** ** Syntax errors *)

(** When every allocation succeeds and the file has no NUL byte and no
    stray carriage return, a line the linker rejects (a header without a
    closing bracket or with text other than a comment after it, a
    parameter line without a separator or without a value, or with a
    comment marker that no blank precedes) makes the parse fail with
    [CONFREADER_EPARSINGFILE] and its 1-based line number, provided that
    the lines before it are accepted and that it is a parameter line or a
    parameter line follows it; nothing is left allocated. *)
Theorem linker_reports_first_rejected_line (w : World) (s : State) (content : list byte)
    (ls1 : list (list byte)) (l0 : list byte) (ls2 : list (list byte)) :
  w_file w = Contents content ->
  (forall b, w_malloc w b = true) ->
  confreader_fileBuf s = None ->
  nul_free content ->
  crlf_ok (content ++ [LF]) = true ->
  raw_lines content = ls1 ++ l0 :: ls2 ->
  forallb (fun l => negb (rejected (line_content l))) ls1 = true ->
  rejected (line_content l0) = true ->
  existsb (fun l => is_param_text (line_content l)) (l0 :: ls2) = true ->
  let r := confreaderParseFile w s in
  fst r = CONFREADER_ERROR /\
  confreaderErrorNum (snd r) = CONFREADER_EPARSINGFILE /\
  confreaderErrorLineNum (snd r) = S (length ls1) /\
  pristine (snd r) /\ heap_live (snd r) = heap_live s.
Proof.
  intros Hfile Hm Hbuf Hnul Hcr Hlines Hacc Hrej Hpar r.
  assert (Hne : content <> []).
  { intros ->. change (raw_lines []) with [@nil byte] in Hlines.
    destruct ls1 as [|a ls1]; simpl in Hlines.
    - injection Hlines as <- _. discriminate.
    - injection Hlines as _ H. now apply app_cons_not_nil in H. }
  pose proof (parse_verdict w s content Hfile Hne Hm Hbuf Hcr) as Hv. cbn zeta in Hv.
  pose proof (raw_lines_nul_free content Hnul) as Hnf.
  rewrite (count_params1_texts _ 0 Hnf), (map_line_text_content _ Hnf) in Hv.
  rewrite Hlines in Hv. rewrite map_app in Hv. cbn [map] in Hv.
  rewrite <- (forallb_fmap (fun t => negb (rejected t)) line_content) in Hacc.
  destruct (link_texts_accepted _ ([], (None, [])) Hacc) as (d' & Hd').
  rewrite (link_run_reject _ _ 0 0 d' _ _ _ Hd') in Hv.
  - rewrite length_map in Hv. destruct Hv as (V1 & V2 & V3).
    fold r in V1, V2, V3. split; [exact V1|]. split; [exact V2|]. split; [exact V3|].
    destruct (parse_outcome w s Hbuf) as [(Hok & _)|(_ & _ & Hp & Hh)].
    + fold r in Hok. rewrite V1 in Hok. discriminate.
    + split; [exact Hp|exact Hh].
  - now apply rejected_spec.
  - rewrite count_param_texts_app.
    rewrite <- (existsb_fmap is_param_text line_content) in Hpar.
    apply count_param_texts_some in Hpar. cbn [map] in Hpar. lia.
Qed.

Lemma linker_reports_first_rejected_line_witness :
  let r := confreaderParseFile
             (world_of (bytes "a = 1" ++ [LF] ++ bytes "[net" ++ [LF] ++ bytes "b = 2"))
             initial_state in
  fst r = CONFREADER_ERROR /\
  confreaderErrorNum (snd r) = CONFREADER_EPARSINGFILE /\
  confreaderErrorLineNum (snd r) = 2%nat /\
  pristine (snd r) /\ heap_live (snd r) = heap_live initial_state.
Proof.
  apply (linker_reports_first_rejected_line
           (world_of (bytes "a = 1" ++ [LF] ++ bytes "[net" ++ [LF] ++ bytes "b = 2"))
           initial_state _ [bytes "a = 1"] (bytes "[net") [bytes "b = 2"] eq_refl).
  - reflexivity.
  - reflexivity.
  - vm_compute. repeat (constructor; [discriminate|]). constructor.
  - vm_compute. reflexivity.
  - vm_compute. reflexivity.
  - vm_compute. reflexivity.
  - vm_compute. reflexivity.
  - vm_compute. reflexivity.
Defined.

(** When every allocation succeeds and the file has no NUL byte and no
    stray carriage return, the parse succeeds as soon as the lines up to
    the last parameter line are accepted: the lines after the last
    parameter line are not checked, and a malformed header among them is
    not reported. *)
Theorem lines_after_last_parameter_are_not_checked (w : World) (s : State)
    (content : list byte) (ls1 ls2 : list (list byte)) :
  w_file w = Contents content ->
  (forall b, w_malloc w b = true) ->
  confreader_fileBuf s = None ->
  nul_free content ->
  crlf_ok (content ++ [LF]) = true ->
  raw_lines content = ls1 ++ ls2 ->
  forallb (fun l => negb (rejected (line_content l))) ls1 = true ->
  forallb (fun l => negb (is_param_text (line_content l))) ls2 = true ->
  fst (confreaderParseFile w s) = CONFREADER_OK.
Proof.
  intros Hfile Hm Hbuf Hnul Hcr Hlines Hacc Hnone.
  destruct content as [|c0 content0] eqn:Hc.
  { now apply parse_empty_ok. }
  rewrite <- Hc in *. assert (Hne : content <> []) by (rewrite Hc; discriminate).
  clear Hc.
  pose proof (parse_verdict w s content Hfile Hne Hm Hbuf Hcr) as Hv. cbn zeta in Hv.
  pose proof (raw_lines_nul_free content Hnul) as Hnf.
  rewrite (count_params1_texts _ 0 Hnf), (map_line_text_content _ Hnf) in Hv.
  rewrite Hlines in Hv. rewrite map_app in Hv.
  rewrite <- (forallb_fmap (fun t => negb (rejected t)) line_content) in Hacc.
  destruct (link_texts_accepted _ ([], (None, [])) Hacc) as (d' & Hd').
  destruct (link_run_accept (map line_content ls1) ([], (None, [])) 0 0 d'
              (map line_content ls2)
              (0 + count_param_texts (map line_content ls1 ++ map line_content ls2)) Hd')
    as (d'' & Hrun).
  - right. rewrite count_param_texts_app.
    rewrite <- (forallb_fmap (fun t => negb (is_param_text t)) line_content) in Hnone.
    rewrite (count_param_texts_none _ Hnone). lia.
  - rewrite Hrun in Hv. exact Hv.
Qed.

Lemma lines_after_last_parameter_are_not_checked_witness :
  fst (confreaderParseFile
         (world_of (bytes "a = 1" ++ [LF] ++ bytes "[net" ++ [LF] ++ bytes "# end"))
         initial_state) = CONFREADER_OK.
Proof.
  apply (lines_after_last_parameter_are_not_checked
           (world_of (bytes "a = 1" ++ [LF] ++ bytes "[net" ++ [LF] ++ bytes "# end"))
           initial_state _ [bytes "a = 1"] [bytes "[net"; bytes "# end"] eq_refl).
  - reflexivity.
  - reflexivity.
  - vm_compute. repeat (constructor; [discriminate|]). constructor.
  - vm_compute. reflexivity.
  - vm_compute. reflexivity.
  - vm_compute. reflexivity.
  - vm_compute. reflexivity.
Defined.

(** ** Keys and memory *)

(** After a successful parse, no key of a parameter record holds a blank or
    an equals sign: a key ends at the first of them on its line. *)
Theorem stored_keys_have_no_separator (w : World) (s : State) :
  fst (confreaderParseFile w s) = CONFREADER_OK ->
  let s' := snd (confreaderParseFile w s) in
  forall table j p,
    confreader_params s' = Some table -> table !! j = Some (Some p) ->
    Forall (fun c => c <> SPACE /\ c <> TAB /\ c <> EQUALS /\ c <> 0)
      (string_at s' (key p)).
Proof.
  intros Hok s' table j p Ht Hj.
  pose proof (parse_keys_plain w s table j p Hok Ht Hj) as Hk. fold s' in Hk.
  pose proof (string_at_nul_free s' (key p)) as Hn. unfold nul_free in Hn.
  induction Hn as [|c l Hc _ IH]; [constructor|].
  simpl in Hk. apply andb_true_iff in Hk as [Hk Hl].
  constructor; [|now apply IH].
  unfold is_keych, is_sep in Hk.
  apply negb_true_iff, orb_false_iff in Hk as [Hk H3].
  apply orb_false_iff in Hk as [H1 H2].
  apply Z.eqb_neq in H1, H2, H3. auto.
Qed.

Lemma stored_keys_have_no_separator_witness :
  fst (confreaderParseFile (world_of (bytes "user name = root" ++ [LF])) initial_state)
  = CONFREADER_OK /\
  (let s' := load (bytes "user name = root" ++ [LF]) in
   forall table j p,
     confreader_params s' = Some table -> table !! j = Some (Some p) ->
     Forall (fun c => c <> SPACE /\ c <> TAB /\ c <> EQUALS /\ c <> 0)
       (string_at s' (key p))).
Proof.
  split; [vm_compute; reflexivity|].
  apply (stored_keys_have_no_separator
           (world_of (bytes "user name = root" ++ [LF])) initial_state).
  vm_compute. reflexivity.
Defined.

(** A successful parse of a non-empty file frees its line index before it
    returns and keeps three blocks, the file buffer and the two tables,
    until [confreaderClear]. *)
Theorem successful_parse_keeps_three_blocks (w : World) (s : State) (content : list byte) :
  w_file w = Contents content ->
  content <> [] ->
  fst (confreaderParseFile w s) = CONFREADER_OK ->
  let s' := snd (confreaderParseFile w s) in
  confreader_lines s' = None /\
  heap_live s' = BSects :: BParams :: BFileBuf :: heap_live s /\
  is_Some (confreader_fileBuf s') /\ is_Some (confreader_params s') /\
  is_Some (confreaderSects s').
Proof.
  intros Hfile Hne Hok s'.
  destruct (parse_ok_contents w s Hok) as [Hbuf _].
  destruct (parse_outcome w s Hbuf) as [(_ & _ & [[Hsz _]|[_ Hl]])|[He _]].
  - rewrite Hfile in Hsz. simpl in Hsz. destruct content; [congruence|discriminate].
  - destruct Hl as (L1 & L2 & L3 & L4). fold s' in L1, L2, L3, L4.
    split; [exact L4|]. split; [exact (parse_ok_heap w s content Hfile Hne Hok)|]. auto.
  - rewrite He in Hok. discriminate.
Qed.

Lemma successful_parse_keeps_three_blocks_witness :
  let s' := load (bytes "a = 1") in
  confreader_lines s' = None /\
  heap_live s' = BSects :: BParams :: BFileBuf :: heap_live initial_state /\
  is_Some (confreader_fileBuf s') /\ is_Some (confreader_params s') /\
  is_Some (confreaderSects s').
Proof.
  apply (successful_parse_keeps_three_blocks (world_of (bytes "a = 1")) initial_state
           (bytes "a = 1") eq_refl).
  - discriminate.
  - vm_compute. reflexivity.
Defined.

(** ** Allocation failures *)

(** When one of the four allocations of a parse fails, on a file that is
    not empty and has no stray carriage return, the call fails with
    [CONFREADER_ENOMEM] and line number 0, and leaves no pointer and no
    live block behind. *)
Theorem allocation_failure_reports_enomem (w : World) (s : State) (content : list byte)
    (b : Block) :
  w_file w = Contents content ->
  content <> [] ->
  confreader_fileBuf s = None ->
  crlf_ok (content ++ [LF]) = true ->
  w_malloc w b = false ->
  let r := confreaderParseFile w s in
  fst r = CONFREADER_ERROR /\
  confreaderErrorNum (snd r) = CONFREADER_ENOMEM /\
  confreaderErrorLineNum (snd r) = 0%nat /\
  pristine (snd r) /\ heap_live (snd r) = heap_live s.
Proof.
  intros Hfile Hne Hbuf Hcr Hb r.
  assert (H : fst r = CONFREADER_ERROR /\
              confreaderErrorNum (snd r) = CONFREADER_ENOMEM /\
              confreaderErrorLineNum (snd r) = 0%nat).
  { subst r. unfold confreaderParseFile.
    destruct s as [fb ln lc pa pc en el se sc hp]. simpl in Hbuf. subst fb.
    cbn [set_errorLineNum confreader_fileBuf]. rewrite Hfile.
    destruct content as [|c0 content0] eqn:Hc; [congruence|].
    rewrite <- Hc in *. clear Hc.
    replace (length content =? 0)%nat with false
      by (destruct content; [congruence|reflexivity]).
    unfold malloc. cbn [confreaderInit set_errorLineNum set_errorNum set_fileBuf set_lines
                          set_params set_sects set_sectCount].
    destruct (w_malloc w BFileBuf) eqn:Hm1; [|repeat split].
    unfold split_buffer, malloc.
    cbn [set_heap set_fileBuf set_lineCount heap_live confreader_lineCount].
    destruct (w_malloc w BLines) eqn:Hm2; [|repeat split].
    cbn [set_heap set_lines heap_live confreader_lineCount].
    pose proof (split_lines_ok content Hcr) as Hsplit. cbn zeta in Hsplit.
    rewrite Hsplit. clear Hsplit.
    unfold link_buffer, malloc.
    cbn [set_fileBuf set_lines set_paramCount set_sectCount sp_buf sp_lines sp_paramCount
           sp_sectCount].
    destruct (w_malloc w BParams) eqn:Hm3; [|repeat split].
    cbn [set_heap set_params heap_live].
    destruct (w_malloc w BSects) eqn:Hm4; [|repeat split].
    destruct b; congruence. }
  destruct H as (H1 & H2 & H3).
  split; [exact H1|]. split; [exact H2|]. split; [exact H3|].
  destruct (parse_outcome w s Hbuf) as [(Hok & _)|(_ & _ & Hp & Hh)].
  - fold r in Hok. rewrite H1 in Hok. discriminate.
  - split; [exact Hp|exact Hh].
Qed.

Lemma allocation_failure_reports_enomem_witness :
  let r := confreaderParseFile
             (mkWorld (Contents (bytes "a = 1"))
                (fun b => match b with BSects => false | _ => true end))
             initial_state in
  fst r = CONFREADER_ERROR /\
  confreaderErrorNum (snd r) = CONFREADER_ENOMEM /\
  confreaderErrorLineNum (snd r) = 0%nat /\
  pristine (snd r) /\ heap_live (snd r) = heap_live initial_state.
Proof.
  apply (allocation_failure_reports_enomem
           (mkWorld (Contents (bytes "a = 1"))
              (fun b => match b with BSects => false | _ => true end))
           initial_state (bytes "a = 1") BSects eq_refl).
  - discriminate.
  - reflexivity.
  - vm_compute. reflexivity.
  - reflexivity.
Defined.
